(** * Zeroclaw supervisor: task distribution, plan extraction, session resume

    A shallow embedding of the JavaScript sources
      - distributor.js  (class Distributor),
      - planner.js      (class Planner),
      - session.js      (class Session),
    followed by the properties of the specification that concern them.

    Conventions of the embedding.
      - A JavaScript string is a [string]; its characters are read as
        UTF-16 code units below 256.
      - A JavaScript array is a [list]; [arr.push(x)] is [arr ++ [x]].
      - A JavaScript object used as a dictionary is an association list in
        property-creation order (module [JsObject]).
      - A function that can throw returns a [result]. *)

From Stdlib Require Import ZArith Lia Ascii String.
From stdpp Require Import base option list strings gmap sorting pretty.

Set Warnings "-register-all".
Open Scope string_scope.
Open Scope list_scope.

(* ===================================================================== *)
(** * Exceptions and fallible results *)
(* ===================================================================== *)

Inductive exn : Type :=
  | TypeError (msg : string)       (* property access on undefined / null *)
  | SyntaxError (msg : string)     (* JSON.parse on malformed text *)
  | IOError (code : string) (path : list string)   (* fs-extra rejections *)
  | ExecError (bin : string) (args : list string). (* execa rejections *)

Inductive result (A : Type) : Type :=
  | Ok (a : A)
  | Throw (e : exn).
Arguments Ok {A} a.
Arguments Throw {A} e.

Definition rbind {A B} (r : result A) (k : A → result B) : result B :=
  match r with
  | Ok a => k a
  | Throw e => Throw e
  end.

(** [arr.forEach((x, i) => body)] for a body that updates a local state and
    may throw: the elements are visited in index order, and the first
    exception ends the iteration. *)
Fixpoint forEach_from {A St} (body : A → nat → St → result St)
    (i : nat) (arr : list A) (s : St) : result St :=
  match arr with
  | [] => Ok s
  | x :: rest => rbind (body x i s) (forEach_from body (S i) rest)
  end.

Definition forEach {A St} (body : A → nat → St → result St)
    (arr : list A) (s : St) : result St :=
  forEach_from body 0 arr s.

(* ===================================================================== *)
(** * JavaScript objects used as dictionaries *)
(* ===================================================================== *)

Module JsObject.

(** Own string-keyed properties, in creation order.  Keys are unique. *)
Definition t (V : Type) : Type := list (string * V).

Definition empty {V} : t V := [].

(** [o[k]] *)
Fixpoint get {V} (k : string) (o : t V) : option V :=
  match o with
  | [] => None
  | (k', v) :: rest => if decide (k' = k) then Some v else get k rest
  end.

(** [o[k] = v]: an existing property keeps its position, a new one is
    created after all the others. *)
Fixpoint set {V} (k : string) (v : V) (o : t V) : t V :=
  match o with
  | [] => [(k, v)]
  | (k', v') :: rest =>
      if decide (k' = k) then (k', v) :: rest else (k', v') :: set k v rest
  end.

(** [Object.keys(o)] and [Object.entries(o)]: the own properties in
    creation order.  This is the order of JavaScript for property names
    that are neither array indices nor [__proto__] ([plain_key] below), as
    the names of the agent catalog and of the plan documents are; a
    property that depends on the order of other names states it. *)
Definition keys {V} (o : t V) : list string := o.*1.
Definition entries {V} (o : t V) : list (string * V) := o.

End JsObject.

(* ===================================================================== *)
(** * distributor.js: task assignment *)
(* ===================================================================== *)

Section AssignTasks.

Context {task : Type}.

(** [agents.forEach(a => { assignments[a] = []; })] *)
Definition init_assignments (agents : list string) : JsObject.t (list task) :=
  foldl (λ asg a, JsObject.set a [] asg) JsObject.empty agents.

(** Body of [tasks.forEach((task, i) => { ... })].
    [agents[i % agents.length]] is [undefined] when [agents] is empty
    (the index is NaN), and [assignments[undefined]] is then [undefined],
    whose [push] is a TypeError. *)
Definition assign_body (agents : list string)
    (t : task) (i : nat) (assignments : JsObject.t (list task))
    : result (JsObject.t (list task)) :=
  match agents !! (i mod length agents) with
  | None => Throw (TypeError "Cannot read properties of undefined (reading 'push')")
  | Some agent =>
      match JsObject.get agent assignments with
      | None => Throw (TypeError "Cannot read properties of undefined (reading 'push')")
      | Some l => Ok (JsObject.set agent (l ++ [t]) assignments)
      end
  end.

(** [Distributor._assignTasks(tasks, agents)] *)
Definition _assignTasks (tasks : list task) (agents : list string)
    : result (JsObject.t (list task)) :=
  forEach (assign_body agents) tasks (init_assignments agents).

End AssignTasks.

(* ===================================================================== *)
(** * Strings and regular expressions *)
(* ===================================================================== *)

Module Js.

Definition code (c : ascii) : nat := nat_of_ascii c.

(** The line feed, the double quote and the carriage return, as
    one-character strings. *)
Definition nl : string := String "010"%char EmptyString.
Definition dq : string := String "034"%char EmptyString.

(** WhiteSpace and LineTerminator code units below 256: TAB, LF, VT, FF,
    CR, SP and NBSP.  This is the set of [\s] and of [String.prototype.trim]. *)
Definition is_space (c : ascii) : bool :=
  let n := code c in
  (((9 <=? n) && (n <=? 13)) || (n =? 32) || (n =? 160))%nat.

(** LineTerminator code units below 256: LF and CR.  [.] matches every
    other character. *)
Definition is_line_terminator (c : ascii) : bool :=
  let n := code c in ((n =? 10) || (n =? 13))%nat.

Definition is_digit (c : ascii) : bool :=
  let n := code c in ((48 <=? n) && (n <=? 57))%nat.

(** Canonicalize of the [i] flag: the upper-case form when it is a single
    code unit of the same range (a-z, and the Latin-1 letters but for
    the division sign, sharp s, micro sign and y with diaeresis). *)
Definition canonicalize (c : ascii) : ascii :=
  let n := code c in
  if (((97 <=? n) && (n <=? 122))
      || ((224 <=? n) && (n <=? 254) && negb (n =? 247)))%nat
  then ascii_of_nat (n - 32) else c.

Fixpoint drop_while (p : ascii → bool) (s : list ascii) : list ascii :=
  match s with
  | c :: rest => if p c then drop_while p rest else s
  | [] => []
  end.

Fixpoint take_while (p : ascii → bool) (s : list ascii) : list ascii :=
  match s with
  | c :: rest => if p c then c :: take_while p rest else []
  | [] => []
  end.

(** [s.trim()] *)
Definition trim_start (s : list ascii) : list ascii := drop_while is_space s.
Definition trim_end (s : list ascii) : list ascii :=
  reverse (trim_start (reverse s)).
Definition trim_chars (s : list ascii) : list ascii := trim_end (trim_start s).
Definition trim (s : string) : string :=
  string_of_list_ascii (trim_chars (list_ascii_of_string s)).

(** [s.split('\n')]: the pieces between the separators; the empty string
    gives one empty piece. *)
Fixpoint split_chars (sep : ascii) (s : list ascii) : list (list ascii) :=
  match s with
  | [] => [[]]
  | c :: rest =>
      if decide (c = sep) then [] :: split_chars sep rest
      else match split_chars sep rest with
           | piece :: pieces => (c :: piece) :: pieces
           | [] => [[c]]
           end
  end.
Definition split (sep : ascii) (s : string) : list string :=
  string_of_list_ascii <$> split_chars sep (list_ascii_of_string s).

(** [arr.join(sep)] *)
Fixpoint join (sep : string) (arr : list string) : string :=
  match arr with
  | [] => ""
  | [x] => x
  | x :: rest => x +:+ sep +:+ join sep rest
  end.

End Js.

(** A backtracking matcher for the fragment of ECMAScript regular
    expressions that the sources use: character sets, greedy [*] and [+] on
    a character set, concatenation and capture groups; no anchors, no global
    flag.  A continuation decides what follows, and a quantifier gives
    characters back one at a time when the continuation fails. *)
Module Regex.

Inductive cset : Type :=
  | CChar (c : ascii)            (* a literal character *)
  | COneOf (cs : list ascii)     (* [...] *)
  | CSpace                       (* \s *)
  | CDigit                       (* \d *)
  | CAny.                        (* . *)

Inductive t : Type :=
  | Atom (a : cset)
  | Star (a : cset)              (* a*  greedy *)
  | Plus (a : cset)              (* a+  greedy *)
  | Seq (r1 r2 : t)
  | Group (n : nat) (r : t).     (* the n-th capture group *)

Definition captures : Type := list (nat * list ascii).

Fixpoint capture (n : nat) (caps : captures) : option (list ascii) :=
  match caps with
  | [] => None
  | (m, s) :: rest => if decide (m = n) then Some s else capture n rest
  end.

(** Membership of an input character, with the [i] flag or without. *)
Definition cset_mem (ignore_case : bool) (a : cset) (ch : ascii) : bool :=
  let canon c := if ignore_case then Js.canonicalize c else c in
  match a with
  | CChar c => bool_decide (canon c = canon ch)
  | COneOf cs => existsb (λ c, bool_decide (canon c = canon ch)) cs
  | CSpace => Js.is_space ch
  | CDigit => Js.is_digit ch
  | CAny => negb (Js.is_line_terminator ch)
  end.

(** Greedy repetition: take a character when possible and try the rest;
    when that fails, stop here. *)
Fixpoint star_loop {X} (p : ascii → bool) (s : list ascii)
    (k : list ascii → option X) : option X :=
  match s with
  | c :: rest =>
      if p c then
        match star_loop p rest k with
        | Some x => Some x
        | None => k s
        end
      else k s
  | [] => k []
  end.

Fixpoint run {X} (ic : bool) (r : t) (s : list ascii) (caps : captures)
    (k : list ascii → captures → option X) : option X :=
  match r with
  | Atom a =>
      match s with
      | c :: rest => if cset_mem ic a c then k rest caps else None
      | [] => None
      end
  | Star a => star_loop (cset_mem ic a) s (λ s', k s' caps)
  | Plus a =>
      match s with
      | c :: rest =>
          if cset_mem ic a c
          then star_loop (cset_mem ic a) rest (λ s', k s' caps)
          else None
      | [] => None
      end
  | Seq r1 r2 => run ic r1 s caps (λ s' caps', run ic r2 s' caps' k)
  | Group n r =>
      run ic r s caps
        (λ s' caps', k s' ((n, take (length s - length s') s) :: caps'))
  end.

(** A match that starts exactly at the head of [s]. *)
Definition match_here (ic : bool) (r : t) (s : list ascii) : option captures :=
  run ic r s [] (λ _ caps, Some caps).

(** The leftmost match: start positions are tried from left to right. *)
Fixpoint search (ic : bool) (r : t) (s : list ascii) : option captures :=
  match match_here ic r s with
  | Some caps => Some caps
  | None =>
      match s with
      | [] => None
      | _ :: rest => search ic r rest
      end
  end.

(** [str.match(re)] for a regular expression without the [g] flag: [None]
    is [null], otherwise the captures of the leftmost match. *)
Definition str_match (ic : bool) (r : t) (str : string) : option captures :=
  search ic r (list_ascii_of_string str).

(** [m[n]] of a match result: [None] is [undefined]. *)
Definition group (n : nat) (m : captures) : option string :=
  string_of_list_ascii <$> capture n m.

End Regex.

(* ===================================================================== *)
(** * planner.js: task extraction *)
(* ===================================================================== *)

Import Regex.

(** [/[-*]\s*\[[ x]\]\s*(.+)/i] *)
Definition checkbox_re : Regex.t :=
  Seq (Atom (COneOf ["-"; "*"]%char))
 (Seq (Star CSpace)
 (Seq (Atom (CChar "["%char))
 (Seq (Atom (COneOf [" "; "x"]%char))
 (Seq (Atom (CChar "]"%char))
 (Seq (Star CSpace)
      (Group 1 (Plus CAny))))))).

(** Body of the loop of [_extractTasks]:
    [const m = line.match(...); if (m) tasks.push(m[1].trim());] *)
Definition extract_line (line : string) (tasks : list string)
    : result (list string) :=
  match str_match true checkbox_re line with
  | None => Ok tasks
  | Some m =>
      match group 1 m with
      | None => Throw (TypeError "Cannot read properties of undefined (reading 'trim')")
      | Some d => Ok (tasks ++ [Js.trim d])
      end
  end.

(** [Planner._extractTasks(planMd)] *)
Definition _extractTasks (planMd : string) : result (list string) :=
  forEach (λ line _ tasks, extract_line line tasks)
          (Js.split "010"%char planMd) [].

(* ===================================================================== *)
(** * JSON values *)
(* ===================================================================== *)

(** A number is kept as its canonical decimal rendering, [String(n)]. *)
Inductive json : Type :=
  | JNull
  | JBool (b : bool)
  | JNum (repr : string)
  | JStr (s : string)
  | JArr (items : list json)
  | JObj (props : list (string * json)).

(** A JavaScript value of the kind read back from a document: [None] is
    [undefined]. *)
Definition jsval : Type := option json.
Definition undefined : jsval := None.

(** [v.k] for a property name [k] that no built-in prototype defines (such
    as [status] and [id]): an own property of an object, [undefined] on the
    other values, and a TypeError on [null]. *)
Definition get_prop (v : json) (k : string) : result jsval :=
  match v with
  | JNull => Throw (TypeError ("Cannot read properties of null (reading '" +:+ k +:+ "')"))
  | JObj props => Ok (JsObject.get k props)
  | _ => Ok undefined
  end.

(** [a !== b] for a value [a] and a string [b] *)
Definition strict_ne_string (a : jsval) (b : string) : bool :=
  match a with
  | Some (JStr s) => negb (bool_decide (s = b))
  | _ => true
  end.

(** [String(v)], as in a template literal *)
Fixpoint to_string_json (v : json) : string :=
  match v with
  | JNull => "null"
  | JBool true => "true"
  | JBool false => "false"
  | JNum repr => repr
  | JStr s => s
  | JArr items =>
      Js.join ","
        ((fix each (l : list json) : list string :=
            match l with
            | [] => []
            | JNull :: rest => "" :: each rest
            | x :: rest => to_string_json x :: each rest
            end) items)
  | JObj _ => "[object Object]"
  end.

Definition to_string (v : jsval) : string :=
  match v with
  | None => "undefined"
  | Some j => to_string_json j
  end.

(** An object literal [{k1: v1, ...}] as [JSON.stringify] sees it: the
    properties whose value is [undefined] are left out. *)
Definition object_literal (props : list (string * jsval)) : json :=
  JObj (omap (λ kv, pair kv.1 <$> kv.2) props).

(** [JSON.parse] and [JSON.stringify(v, null, 2)] are library functions; the
    embedding is parametric in them.  [None] is a SyntaxError. *)
Class JsonCodec : Type := {
  JSON_parse : string → option json;
  JSON_stringify : json → string;
}.

(* ===================================================================== *)
(** * The world: file system, session object and observable actions *)
(* ===================================================================== *)

(** A path is the list of its components; [path.join(p, a, b)] is
    [p ++ [a; b]] for names that are single components. *)
Definition path : Type := list string.

Definition path_str (p : path) : string := "/" +:+ Js.join "/" p.

Inductive node : Type :=
  | Dir
  | File (content : string)
  | Link (target : path).

Record command : Type := Command {
  bin : string;
  args : list string;
  cwd : option path;
  input : option string;
}.

Inductive level : Type := LInfo | LDone | LWarn | LError | LSpinner.

Inductive event : Type :=
  | EvLog (lv : level) (msg : string)
  | EvSection (title sub : string)
  | EvExec (c : command) (ok : bool)
  | EvMkdir (p : path)
  | EvWrite (p : path) (content : string)
  | EvSymlink (target p : path).

(** Fields of [class Session].  The identifier is a value, since a resumed
    session takes whatever the persisted document holds under [id]. *)
Record Session : Type := MkSession {
  workspace : path;
  resume : bool;
  lightning : bool;
  tmuxLayout : string;
  id : jsval;
  stateFile : path;
  state : string;
  agents : list json;
}.

Record World : Type := MkWorld {
  fs : gmap path node;
  sess : Session;
  trace : list event;
}.

Definition set_fs (f : gmap path node) (w : World) : World :=
  MkWorld f (sess w) (trace w).
Definition set_sess (s : Session) (w : World) : World :=
  MkWorld (fs w) s (trace w).
Definition emit (e : event) (w : World) : World :=
  MkWorld (fs w) (sess w) (trace w ++ [e]).

(** What lies outside the supervisor: an external process decides whether
    [execa] resolves and what it leaves in the file system; the clock gives
    [new Date().toISOString()]. *)
Class Environment : Type := {
  spawn : World → command → bool * gmap path node;
  clock : World → string;
  HOME : path;
}.

(** Computations of the supervisor: they read and change the world, and
    either return or throw. *)
Definition M (A : Type) : Type := World → result A * World.

Definition ret {A} (a : A) : M A := λ w, (Ok a, w).

Definition bind {A B} (m : M A) (k : A → M B) : M B := λ w,
  match m w with
  | (Ok a, w') => k a w'
  | (Throw e, w') => (Throw e, w')
  end.

Declare Scope M_scope.
Delimit Scope M_scope with M.
Bind Scope M_scope with M.
Notation "x ← y ; z" := (bind y (λ x, z))
  (at level 20, y at level 100, z at level 200, only parsing) : M_scope.
Notation "y ;; z" := (bind y (λ _, z))
  (at level 100, z at level 200, only parsing, right associativity) : M_scope.
Open Scope M_scope.

Definition throw {A} (e : exn) : M A := λ w, (Throw e, w).
Definition lift {A} (r : result A) : M A := λ w, (r, w).

(** [try { body } catch (err) { handler }] *)
Definition try_catch {A} (body : M A) (handler : exn → M A) : M A := λ w,
  match body w with
  | (Ok a, w') => (Ok a, w')
  | (Throw e, w') => handler e w'
  end.

(** [for (const x of xs) { await body }] *)
Fixpoint for_of {A} (xs : list A) (body : A → M unit) : M unit :=
  match xs with
  | [] => ret tt
  | x :: rest => body x ;; for_of rest body
  end.

Definition get_world : M World := λ w, (Ok w, w).
Definition get_sess : M Session := λ w, (Ok (sess w), w).
Definition put_sess (s : Session) : M unit := λ w, (Ok tt, set_sess s w).

(** [err.message] *)
Definition message (e : exn) : string :=
  match e with
  | TypeError m => m
  | SyntaxError m => m
  | IOError code p => code +:+ ": " +:+ path_str p
  | ExecError b a => "Command failed with exit code 1: " +:+ Js.join " " (b :: a)
  end.

(** ** ui.js: the logger *)
Module log.
Definition info (msg : string) : M unit := λ w, (Ok tt, emit (EvLog LInfo msg) w).
Definition done (msg : string) : M unit := λ w, (Ok tt, emit (EvLog LDone msg) w).
Definition warn (msg : string) : M unit := λ w, (Ok tt, emit (EvLog LWarn msg) w).
Definition error (msg : string) : M unit := λ w, (Ok tt, emit (EvLog LError msg) w).
Definition section (title sub : string) : M unit :=
  λ w, (Ok tt, emit (EvSection title sub) w).
(** [ora(...).start()], [spinner.succeed(...)], [spinner.fail(...)] *)
Definition spinner (msg : string) : M unit := λ w, (Ok tt, emit (EvLog LSpinner msg) w).
End log.

(** ** execa *)
Definition execa `{Environment} (b : string) (a : list string)
    (dir : option path) (stdin : option string) : M unit := λ w,
  let c := Command b a dir stdin in
  let '(ok, f) := spawn w c in
  let w' := emit (EvExec c ok) (set_fs f w) in
  if ok then (Ok tt, w') else (Throw (ExecError b a), w').

(** ** fs-extra

    The file system maps the paths that exist to directories, text files and
    symbolic links.  The links are the ones that [symlink] creates: a link is
    an entry of its own and is not resolved.  The sources never read or write
    through the links they create; what fs-extra does through a link that
    someone else has put on a path of the supervisor is not described, and
    no property below speaks of it.  A write needs the directory of the file;
    a rejection leaves the world as it was. *)
Module fs_extra.

Definition parent (p : path) : path := removelast p.

(** A directory that can hold entries: the root, or a [Dir] node. *)
Definition is_dir (f : gmap path node) (p : path) : bool :=
  match p with
  | [] => true
  | _ => match f !! p with Some Dir => true | _ => false end
  end.

Definition pathExists (p : path) : M bool := λ w,
  (Ok (bool_decide (is_Some (fs w !! p))), w).

(** [mkdir -p]: the missing directories of [base ++ names] are created
    from the outside in; a component that is not a directory is an
    error. *)
Fixpoint mkdirs (base : path) (names : list string) (f : gmap path node)
    : result (gmap path node) :=
  match names with
  | [] => Ok f
  | n :: rest =>
      let p := base ++ [n] in
      match f !! p with
      | None => mkdirs p rest (<[p := Dir]> f)
      | Some Dir => mkdirs p rest f
      | Some _ => Throw (IOError "ENOTDIR" p)
      end
  end.

Definition ensureDir (p : path) : M unit := λ w,
  match mkdirs [] p (fs w) with
  | Ok f => (Ok tt, emit (EvMkdir p) (set_fs f w))
  | Throw e => (Throw e, w)
  end.

Definition readFile (p : path) : M string := λ w,
  match fs w !! p with
  | Some (File c) => (Ok c, w)
  | Some Dir => (Throw (IOError "EISDIR" p), w)
  | Some (Link _) => (Throw (IOError "ELOOP" p), w)
  | None => (Throw (IOError "ENOENT" p), w)
  end.

Definition writeFile (p : path) (content : string) : M unit := λ w,
  if is_dir (fs w) (parent p) then
    match fs w !! p with
    | Some Dir => (Throw (IOError "EISDIR" p), w)
    | Some (Link _) => (Throw (IOError "ELOOP" p), w)
    | _ => (Ok tt, emit (EvWrite p content) (set_fs (<[p := File content]> (fs w)) w))
    end
  else (Throw (IOError "ENOENT" p), w).

Definition symlink (target p : path) : M unit := λ w,
  if is_dir (fs w) (parent p) then
    match fs w !! p with
    | Some _ => (Throw (IOError "EEXIST" p), w)
    | None => (Ok tt, emit (EvSymlink target p) (set_fs (<[p := Link target]> (fs w)) w))
    end
  else (Throw (IOError "ENOENT" p), w).

(** The names of the entries of a directory. *)
Definition entries_of (d : path) (f : gmap path node) : list string :=
  omap (λ kv, let p := kv.1 in
              if bool_decide (removelast p = d) then last p else None)
       (map_to_list f).

Definition readdir (d : path) : M (list string) := λ w,
  if is_dir (fs w) d then (Ok (entries_of d (fs w)), w)
  else (Throw (IOError "ENOTDIR" d), w).

Definition readJson `{JsonCodec} (p : path) : M json :=
  text ← readFile p;
  match JSON_parse text with
  | Some v => ret v
  | None => throw (SyntaxError (path_str p +:+ ": not valid JSON"))
  end.

(** [fs.writeJson(p, obj, { spaces: 2 })] *)
Definition writeJson `{JsonCodec} (p : path) (v : json) : M unit :=
  writeFile p (JSON_stringify v +:+ Js.nl).

End fs_extra.

(* ===================================================================== *)
(** * distributor.js *)
(* ===================================================================== *)

(** A JavaScript number that stands for a phase: the result of [parseInt]. *)
Inductive number : Type :=
  | NaN
  | Num (n : N).

(** [Plan], as built by the planner. *)
Record Plan : Type := MkPlan {
  plan_type : string;
  phase : option number;            (* [null] or a phase number *)
  tasks : list string;
  files : JsObject.t string;
}.

(** An entry of the agent registry; [superpowersDir] is given below the
    home directory, which [replace('~', process.env.HOME)] substitutes for
    the leading tilde. *)
Record Agent : Type := MkAgent {
  agent_bin : string;
  superpowersDir : list string;
  agent_args : list string;
}.

Definition AGENTS : JsObject.t Agent :=
  [ ("gemini",   MkAgent "gemini"   [".gemini"]               []);
    ("copilot",  MkAgent "gh"       [".config"; "gh-copilot"] ["copilot"; "suggest"]);
    ("codex",    MkAgent "codex"    [".codex"]                []);
    ("opencode", MkAgent "opencode" [".config"; "opencode"]   []) ].

Module Distributor.
Section Distributor.

Context `{Environment}.

(** [this.workspace]; [this.session] is the session object of the world. *)
Variable ws : path.

(** ** Agent detection *)

Definition _detectAgents : M (list string) :=
  (fix probe (entries : list (string * Agent)) (available : list string)
      : M (list string) :=
     match entries with
     | [] => ret available
     | (name, agent) :: rest =>
         available' ← try_catch
           (execa (agent_bin agent) ["--version"] None None ;;
            ret (available ++ [name]))
           (λ _, ret available);
         probe rest available'
     end) (JsObject.entries AGENTS) [].

Definition _tmuxNewPane (name cmd : string) (sessionName : option string)
    : M unit :=
  let sn := match sessionName with
            | Some s => if decide (s = "") then "zeroclaw" else s
            | None => "zeroclaw"
            end in
  try_catch
    (execa "tmux" ["new-window"; "-t"; sn; "-n"; name] None None ;;
     execa "tmux" ["send-keys"; "-t"; sn +:+ ":" +:+ name; cmd; "Enter"] None None)
    (λ err, log.warn ("Could not create tmux pane for " +:+ name +:+ ": " +:+ message err)).

(** ** Superpowers integration *)

Definition _superpowersLink (agentName : string) (configDir skillsDir : path)
    : M unit :=
  if decide (agentName = "opencode") then
    let pluginsDir := configDir ++ ["plugins"] in
    let skillsLink := configDir ++ ["skills"; "superpowers"] in
    fs_extra.ensureDir pluginsDir ;;
    fs_extra.ensureDir (configDir ++ ["skills"]) ;;
    let pluginSrc := skillsDir ++ [".opencode"; "plugins"; "superpowers.js"] in
    let pluginDst := pluginsDir ++ ["superpowers.js"] in
    e1 ← fs_extra.pathExists pluginDst;
    (if e1 then ret tt else fs_extra.symlink pluginSrc pluginDst) ;;
    e2 ← fs_extra.pathExists skillsLink;
    (if e2 then ret tt else fs_extra.symlink (skillsDir ++ ["skills"]) skillsLink)
  else if decide (agentName = "codex") then
    let agentsSkills := HOME ++ [".agents"; "skills"; "superpowers"] in
    fs_extra.ensureDir (HOME ++ [".agents"; "skills"]) ;;
    e ← fs_extra.pathExists agentsSkills;
    (if e then ret tt else fs_extra.symlink (skillsDir ++ ["skills"]) agentsSkills)
  else if decide (agentName = "gemini") then
    let skillsLink := configDir ++ ["skills"; "superpowers"] in
    fs_extra.ensureDir (configDir ++ ["skills"]) ;;
    e ← fs_extra.pathExists skillsLink;
    (if e then ret tt else fs_extra.symlink (skillsDir ++ ["skills"]) skillsLink)
  else ret tt.

Definition _ensureSuperpowers (agentName : string) : M unit :=
  match JsObject.get agentName AGENTS with
  | None => throw (TypeError "Cannot read properties of undefined (reading 'superpowersDir')")
  | Some agent =>
      let configDir := HOME ++ superpowersDir agent in
      let skillsDir := configDir ++ ["superpowers"] in
      installed ← fs_extra.pathExists skillsDir;
      if installed then
        try_catch (execa "git" ["pull"; "--ff-only"] (Some skillsDir) None)
                  (λ _, ret tt)
      else
        log.spinner ("Installing Superpowers for " +:+ agentName +:+ "...") ;;
        try_catch
          (fs_extra.ensureDir configDir ;;
           execa "git" ["clone"; "https://github.com/obra/superpowers.git";
                        path_str skillsDir] None None ;;
           _superpowersLink agentName configDir skillsDir ;;
           log.spinner ("Superpowers installed for " +:+ agentName))
          (λ err,
             log.spinner ("Superpowers install failed for " +:+ agentName
                          +:+ ": " +:+ message err) ;;
             log.warn "Agents will run without Superpowers skills. Install manually from https://github.com/obra/superpowers")
  end.

Definition _superpowersBootstrap (agentName : string) : result string :=
  match JsObject.get agentName AGENTS with
  | None => Throw (TypeError "The path argument must be of type string. Received undefined")
  | Some agent =>
      let skillsPath := (HOME ++ superpowersDir agent) ++ ["superpowers"; "skills"] in
      Ok ("export SUPERPOWERS_SKILLS_ROOT=" +:+ Js.dq +:+ path_str skillsPath +:+ Js.dq)
  end.

(** ** Task prompt *)

Definition _buildAgentPrompt (agentName : string) (tasks : list string)
    (plan : Plan) : string :=
  let taskList := Js.join Js.nl (imap (λ i t, pretty (i + 1) +:+ ". " +:+ t) tasks) in
  let planRef := path_str (ws ++ [".planning"; "PLAN.md"]) in
  let implRef := path_str (ws ++ [".planning"; "implement.md"]) in
  Js.join Js.nl
    [ "# Zeroclaw Task Assignment — " +:+ agentName;
      "";
      "You are a coding agent in the zeroclaw multi-agent system.";
      "";
      "## Your Tasks";
      taskList;
      "";
      "## Context Files";
      "- Plan:           " +:+ planRef;
      "- Implementation: " +:+ implRef;
      "- Requirements:   " +:+ path_str (ws ++ [".planning"; "REQUIREMENTS.md"]);
      "";
      "## Working Rules";
      "- Follow TDD: write tests before implementation";
      "- Commit after each task: `git commit -m " +:+ Js.dq
         +:+ "feat(<scope>): <task summary>" +:+ Js.dq +:+ "`";
      "- Branch: feature/<task-slug>";
      "- Document decisions in implement.md";
      "- Use \plan to brainstorm, \skil to look up skills, \exec to run plans";
      "- If you hit an error, document it in .zeroclaw/errors/<agent>-<timestamp>.md";
      "  (AgentLightning will pick this up for iterative learning)";
      "";
      "## Superpowers Commands";
      "- \plan  → /superpowers:brainstorm or /superpowers:write-plan";
      "- \skil  → search skills with find-skills tool";
      "- \exec  → /superpowers:execute-plan (parallel subagents)";
      "- /gsd:verify-work → run verification after tasks complete";
      "";
      "Begin with task 1. Good luck.";
      "" ].

(** ** tmux launcher *)

Definition _statusScript (plan : Plan) : M string :=
  s ← get_sess;
  let header :=
    "echo " +:+ Js.dq +:+ "━━━ ZEROCLAW SUPERVISOR ━━━" +:+ Js.dq
    +:+ " && echo " +:+ Js.dq +:+ "Session: " +:+ to_string (id s) +:+ Js.dq
    +:+ " && echo " +:+ Js.dq +:+ "Workspace: " +:+ path_str ws +:+ Js.dq
    +:+ " && echo " +:+ Js.dq +:+ Js.dq in
  let has_roadmap :=
    match JsObject.get "ROADMAP.md" (files plan) with
    | Some content => negb (bool_decide (content = ""))
    | None => false
    end in
  if has_roadmap then
    ret (header +:+ " && cat " +:+ path_str (ws ++ [".planning"; "ROADMAP.md"])
          +:+ " 2>/dev/null || echo " +:+ Js.dq +:+ "No roadmap yet." +:+ Js.dq)
  else
    ret (header +:+ " && echo " +:+ Js.dq +:+ "Plan: "
          +:+ path_str (ws ++ [".planning"; "PLAN.md"]) +:+ Js.dq).

(** The first line of the prompt, every double quote in it preceded by a
    backslash: the replace-all and the split of the gemini command. *)
Definition escape_quotes (s : string) : string :=
  string_of_list_ascii
    (flat_map (λ c, if decide (c = "034"%char) then ["\"; "034"]%char else [c])
              (list_ascii_of_string s)).

Definition first_line (s : string) : string :=
  default "" (head (Js.split "010"%char s)).

Definition _launchAgentPane (sessionName agentName taskPrompt : string)
    (paneIdx : nat) : M unit :=
  match JsObject.get agentName AGENTS with
  | None => ret tt
  | Some agent =>
      let windowName := agentName in
      let promptFile := ws ++ [".zeroclaw"; agentName +:+ "-task.md"] in
      fs_extra.writeFile promptFile taskPrompt ;;
      let agentCmd :=
        if decide (agentName = "gemini") then
          "gemini " +:+ Js.dq +:+ first_line (escape_quotes taskPrompt) +:+ Js.dq
        else if decide (agentName = "copilot") then
          "cat " +:+ path_str promptFile +:+ " | gh copilot suggest -t shell"
        else if decide (agentName = "codex") then
          "codex " +:+ Js.dq +:+ path_str promptFile +:+ Js.dq
        else "opencode" in
      bootstrap ← lift (_superpowersBootstrap agentName);
      let fullCmd := bootstrap +:+ " && " +:+ agentCmd in
      execa "tmux" ["new-window"; "-t"; sessionName; "-n"; windowName] None None ;;
      execa "tmux" ["send-keys"; "-t"; sessionName +:+ ":" +:+ windowName;
                    "cd " +:+ path_str ws; "Enter"] None None ;;
      execa "tmux" ["send-keys"; "-t"; sessionName +:+ ":" +:+ windowName;
                    fullCmd; "Enter"] None None ;;
      log.info ("  [" +:+ agentName +:+ "] launched in tmux window "
                +:+ Js.dq +:+ windowName +:+ Js.dq)
  end.

(** The loop of [_launchTmux]:
    [for (const [agentName, tasks] of Object.entries(assignments))] *)
Fixpoint launch_panes (sessionName : string) (plan : Plan)
    (entries : list (string * list string)) (paneIdx : nat) : M unit :=
  match entries with
  | [] => ret tt
  | (agentName, tasks) :: rest =>
      let taskPrompt := _buildAgentPrompt agentName tasks plan in
      _launchAgentPane sessionName agentName taskPrompt paneIdx ;;
      launch_panes sessionName plan rest (S paneIdx)
  end.

Definition _launchTmux (assignments : JsObject.t (list string)) (plan : Plan)
    : M unit :=
  let sessionName := "zeroclaw" in
  try_catch (execa "tmux" ["kill-session"; "-t"; sessionName] None None)
            (λ _, ret tt) ;;
  execa "tmux" ["new-session"; "-d"; "-s"; sessionName; "-n"; "supervisor";
                "-x"; "220"; "-y"; "50"] None None ;;
  statusScript ← _statusScript plan;
  execa "tmux" ["send-keys"; "-t"; sessionName +:+ ":supervisor";
                statusScript; "Enter"] None None ;;
  launch_panes sessionName plan (JsObject.entries assignments) 0 ;;
  s ← get_sess;
  execa "tmux" ["select-layout"; "-t"; sessionName;
                if decide (tmuxLayout s = "") then "tiled" else tmuxLayout s]
        None None.

(** ** Plan artifacts *)

Definition _writePlanArtifacts (plan : Plan) : M unit :=
  let planDir := ws ++ [".planning"] in
  fs_extra.ensureDir planDir ;;
  let implFile := planDir ++ ["implement.md"] in
  e ← fs_extra.pathExists implFile;
  (if e then ret tt
   else
     let tasks := Js.join Js.nl ((λ t, "- [ ] " +:+ t) <$> tasks plan) in
     fs_extra.writeFile implFile
       ("# Implementation Tracking" +:+ Js.nl +:+ Js.nl +:+ tasks +:+ Js.nl)) ;;
  for_of (JsObject.entries (files plan)) (λ '(name, content),
    let dest := planDir ++ [name] in
    e ← fs_extra.pathExists dest;
    if e then ret tt else fs_extra.writeFile dest content).

(** ** [Distributor.run(plan)] *)

Definition run (plan : Plan) : M unit :=
  log.section "Task Distribution" (pretty (length (tasks plan)) +:+ " task(s) found") ;;
  available ← _detectAgents;
  if decide (length available = 0) then
    log.error "No supported agents found (gemini / copilot / codex / opencode). Install at least one."
  else
    log.info ("Available agents: " +:+ Js.join ", " available) ;;
    for_of available (λ agent, _ensureSuperpowers agent) ;;
    _writePlanArtifacts plan ;;
    assignments ← lift (_assignTasks (tasks plan) available);
    log.info "Task assignments:" ;;
    for_of (JsObject.entries assignments) (λ '(agent, tasks),
      for_of tasks (λ t, log.info ("  [" +:+ agent +:+ "] " +:+ t))) ;;
    _launchTmux assignments plan ;;
    log.done ("All agents launched." +:+ Js.nl
              +:+ "  Attach: " +:+ "tmux attach -t zeroclaw" +:+ Js.nl
              +:+ "  List:   " +:+ "tmux ls").

Definition resumeFromState : M unit :=
  log.section "Continuing Session" "Restoring from .planning/ state" ;;
  available ← _detectAgents;
  if decide (length available = 0) then log.error "No agents found."
  else
    for_of available (λ agent, _ensureSuperpowers agent) ;;
    let runtime :=
      if bool_decide ("opencode" ∈ available) then "opencode"
      else default "undefined" (head available) in
    let paneCmd := runtime +:+ " run /gsd:resume-work" in
    _tmuxNewPane "resume" paneCmd None ;;
    log.done "Resume pane launched.".

End Distributor.
End Distributor.

(* ===================================================================== *)
(** * planner.js *)
(* ===================================================================== *)

(** [/Phase\s+(\d+)/i] *)
Definition phase_re : Regex.t :=
  Seq (Atom (CChar "P"%char))
 (Seq (Atom (CChar "h"%char))
 (Seq (Atom (CChar "a"%char))
 (Seq (Atom (CChar "s"%char))
 (Seq (Atom (CChar "e"%char))
 (Seq (Plus CSpace)
      (Group 1 (Plus CDigit))))))).

(** [parseInt(s)] on a string without sign or radix prefix: the value of
    the decimal digits that follow the leading white space, [NaN] when
    there is none.  The value is the exact integer; it is the JavaScript
    number up to 2^53, beyond which [parseInt] rounds to a double. *)
Definition parseInt (s : string) : number :=
  let digits := Js.take_while Js.is_digit (Js.trim_start (list_ascii_of_string s)) in
  match digits with
  | [] => NaN
  | _ => Num (foldl (λ acc c, acc * 10 + N.of_nat (Js.code c - 48))%N 0%N digits)
  end.

(** [String(n)], for the integers that a double holds exactly (up to 2^53):
    the decimal digits. *)
Definition number_to_string (n : number) : string :=
  match n with
  | NaN => "NaN"
  | Num k => pretty k
  end.

(** [s.padStart(2, '0')] *)
Definition padStart2 (s : string) : string :=
  match String.length s with
  | 0 => "00"
  | 1 => "0" +:+ s
  | _ => s
  end.

(** The truth value of a phase argument: [null], [NaN] and [0] are falsy. *)
Definition phase_truthy (ph : option number) : bool :=
  match ph with
  | Some (Num k) => negb (k =? 0)%N
  | _ => false
  end.

(** [subdirs.sort().pop()]: the default sort compares strings by code
    units. *)
Definition string_le (a b : string) : Prop := String.leb a b = true.
#[global] Instance string_le_dec a b : Decision (string_le a b).
Proof. unfold string_le. apply _. Defined.

Definition sort_strings (l : list string) : list string := merge_sort string_le l.

(** The context that the conversation extracts: [{ raw, intent }]. *)
Record Context : Type := MkContext {
  raw : string;
  intent : string;
}.

Module Planner.
Section Planner.

Context `{Environment}.

Variable ws : path.
Definition planDir : path := ws ++ [".planning"].

Definition _detectRuntime : M string :=
  (fix try_each (rts : list string) : M string :=
     match rts with
     | [] => ret "claude"
     | rt :: rest =>
         found ← try_catch (execa rt ["--version"] None None ;; ret true)
                           (λ _, ret false);
         if found then ret rt else try_each rest
     end) ["opencode"; "claude"; "gemini"; "codex"].

Definition _ensureGSD : M unit :=
  runtime ← _detectRuntime;
  let configDirs : JsObject.t path :=
    [ ("claude",   HOME ++ [".claude"; "commands"]);
      ("opencode", HOME ++ [".config"; "opencode"; "commands"]);
      ("gemini",   HOME ++ [".gemini"; "commands"]);
      ("codex",    HOME ++ [".codex"; "skills"; "gsd-new-project"]) ] in
  installed ← match JsObject.get runtime configDirs with
              | Some dir => fs_extra.pathExists dir
              | None => ret false
              end;
  if installed then ret tt
  else
    log.warn ("GSD not found for runtime " +:+ Js.dq +:+ runtime +:+ Js.dq
              +:+ ". Installing now...") ;;
    let flags : JsObject.t string :=
      [ ("claude", "--claude"); ("opencode", "--opencode");
        ("gemini", "--gemini"); ("codex", "--codex") ] in
    try_catch
      (execa "npx" ["get-shit-done-cc@latest";
                    default "--opencode" (JsObject.get runtime flags);
                    "--global"] (Some ws) None ;;
       log.done "GSD installed.")
      (λ err, log.warn ("GSD auto-install failed: " +:+ message err
                        +:+ ". Install manually: npx get-shit-done-cc@latest")).

Definition _gsdCommand (cmd : string) (args : list string)
    (stdinText : option string) : M unit :=
  runtime ← _detectRuntime;
  let gsdCmd := "/" +:+ "gsd:" +:+ cmd in
  log.spinner ("GSD " +:+ gsdCmd) ;;
  try_catch
    ((if decide (runtime = "claude") then
        execa "claude" ("--dangerously-skip-permissions" :: gsdCmd :: args)
              (Some ws) None
      else if decide (runtime = "opencode") then
        execa "opencode" ("run" :: gsdCmd :: args) (Some ws)
              (match stdinText with
               | Some t => if decide (t = "") then None else Some t
               | None => None
               end)
      else if decide (runtime = "gemini") then
        execa "gemini" (gsdCmd :: args) (Some ws) None
      else
        execa "codex" (gsdCmd :: args) (Some ws) None) ;;
     log.spinner ("GSD " +:+ gsdCmd +:+ " complete"))
    (λ err,
       log.spinner ("GSD " +:+ gsdCmd +:+ " failed") ;;
       log.warn ("GSD command error: " +:+ message err) ;;
       log.warn "Continuing without GSD output — agents will plan independently.").

(** ** Plan readers *)

(** The loop of [_readGSDPlan]: the documents that exist are read into
    [plan.files]. *)
Fixpoint read_files (base : path) (names : list string)
    (files : JsObject.t string) : M (JsObject.t string) :=
  match names with
  | [] => ret files
  | name :: rest =>
      let f := base ++ [name] in
      e ← fs_extra.pathExists f;
      files' ← (if e then
                  content ← fs_extra.readFile f;
                  ret (JsObject.set name content files)
                else ret files);
      read_files base rest files'
  end.

Definition _readGSDPlan (ph : option number) : M (option Plan) :=
  let base := if phase_truthy ph
              then planDir ++ ["phase-" +:+ padStart2 (from_option number_to_string "null" ph)]
              else planDir in
  let type := if phase_truthy ph then "phase" else "project" in
  files ← read_files base
             ["PLAN.md"; "REQUIREMENTS.md"; "ROADMAP.md"; "CONTEXT.md"; "RESEARCH.md"]
             JsObject.empty;
  tasks ← match JsObject.get "PLAN.md" files with
          | Some content =>
              if decide (content = "") then ret [] else lift (_extractTasks content)
          | None => ret []
          end;
  let plan := MkPlan type ph tasks files in
  if decide (length tasks = 0) then ret None else ret (Some plan).

Definition _readQuickPlan : M (option Plan) :=
  let quickDir := planDir ++ ["quick"] in
  e ← fs_extra.pathExists quickDir;
  if negb e then ret None
  else
    subdirs ← fs_extra.readdir quickDir;
    match last (sort_strings subdirs) with
    | None => ret None
    | Some latest =>
        if decide (latest = "") then ret None
        else
          let planFile := quickDir ++ [latest; "PLAN.md"] in
          e ← fs_extra.pathExists planFile;
          if negb e then ret None
          else
            content ← fs_extra.readFile planFile;
            tasks ← lift (_extractTasks content);
            ret (Some (MkPlan "quick" None tasks [("PLAN.md", content)]))
    end.

Definition _nextPhase : M (option number) :=
  let roadmap := planDir ++ ["ROADMAP.md"] in
  e ← fs_extra.pathExists roadmap;
  if negb e then ret None
  else
    content ← fs_extra.readFile roadmap;
    match str_match true phase_re content with
    | Some m => ret (Some (parseInt (default "undefined" (group 1 m))))
    | None => ret (Some (Num 1))
    end.

(** ** GSD workflows *)

Definition _runNewProject (context : Context) : M (option Plan) :=
  log.info "Launching GSD new-project workflow..." ;;
  log.info "GSD will extract your spec, define requirements, and build a roadmap." ;;
  log.info ("After GSD finishes, zeroclaw will distribute phases to agents." +:+ Js.nl) ;;
  _gsdCommand "new-project" ["--auto"] None ;;
  _readGSDPlan None.

Definition _runNewTask (context : Context) : M (option Plan) :=
  ph ← _nextPhase;
  match ph with
  | None =>
      log.info "No existing roadmap found — running GSD quick mode for this task." ;;
      _gsdCommand "quick" [] (Some (raw context)) ;;
      _readQuickPlan
  | Some n =>
      log.info ("Running GSD discuss+plan pipeline for phase "
                +:+ number_to_string n +:+ "...") ;;
      _gsdCommand "discuss-phase" [number_to_string n] None ;;
      _gsdCommand "plan-phase" [number_to_string n] None ;;
      _readGSDPlan (Some n)
  end.

(** [Planner.run(context)] *)
Definition run (context : Context) : M (option Plan) :=
  let isNewProject := bool_decide (intent context = "project_init") in
  log.section "Planning Phase"
    (if isNewProject then "New project" else "New task/feature") ;;
  _ensureGSD ;;
  if isNewProject then _runNewProject context else _runNewTask context.

End Planner.
End Planner.

(* ===================================================================== *)
(** * session.js *)
(* ===================================================================== *)

(** [new Session(opts)], with the identifier that [uuid()] returned. *)
Definition new_Session (workspace : path) (resume lightning : bool)
    (tmuxLayout : option string) (uuid : string) : Session :=
  {| workspace := workspace;
     resume := resume;
     lightning := lightning;
     tmuxLayout := match tmuxLayout with
                   | Some l => if decide (l = "") then "tiled" else l
                   | None => "tiled"
                   end;
     id := Some (JStr uuid);
     stateFile := workspace ++ [".zeroclaw"; "session.json"];
     state := "idle";
     agents := [] |}.

Module SessionM.
Section Session.

Context `{Environment} `{JsonCodec}.

Definition _ensureDirs : M unit :=
  s ← get_sess;
  fs_extra.ensureDir (workspace s ++ [".zeroclaw"]) ;;
  fs_extra.ensureDir (workspace s ++ [".planning"]) ;;
  fs_extra.ensureDir (workspace s ++ ["docs"; "session-logs"]).

(** [_saveState(extra)]: the document [{ id, workspace, agents, ...extra }] *)
Definition _saveState (extra : list (string * jsval)) : M unit :=
  s ← get_sess;
  fs_extra.writeJson (stateFile s)
    (object_literal
       (foldl (λ o kv, JsObject.set kv.1 kv.2 o)
              [ ("id", id s);
                ("workspace", Some (JStr (path_str (workspace s))));
                ("agents", Some (JArr (agents s))) ]
              extra)).

Definition _loadOrInitState : M unit :=
  s ← get_sess;
  e ← fs_extra.pathExists (stateFile s);
  (if e then
     prev ← fs_extra.readJson (stateFile s);
     status ← lift (get_prop prev "status");
     if strict_ne_string status "ended" then
       prev_id ← lift (get_prop prev "id");
       log.warn ("Resuming unfinished session: " +:+ to_string prev_id) ;;
       s ← get_sess;
       put_sess {| workspace := workspace s; resume := resume s;
                   lightning := lightning s; tmuxLayout := tmuxLayout s;
                   id := prev_id;
                   stateFile := stateFile s; state := state s;
                   agents := agents s |}
     else ret tt
   else ret tt) ;;
  w ← get_world;
  _saveState [("status", Some (JStr "active")); ("startedAt", Some (JStr (clock w)))].

(** [Session.dispatch(intent, context)] *)
Definition dispatch (intent : string) (context : Context) : M unit :=
  s ← get_sess;
  if bool_decide (intent = "project_init") || bool_decide (intent = "new_task") then
    plan ← Planner.run (workspace s) context;
    match plan with
    | Some p => Distributor.run (workspace s) p
    | None => ret tt
    end
  else if bool_decide (intent = "continue") then
    Distributor.resumeFromState
  else if bool_decide (intent = "exit") then
    log.info "Wrapping up session..."
  else ret tt.

End Session.
End SessionM.

(* ===================================================================== *)
(** * A reference JSON codec and quiet environments, for the examples *)
(* ===================================================================== *)

(** A reader and a printer for the JSON texts of the examples.  The reader
    covers integers of at most fifteen digits among the numbers and the
    two-character escapes among the strings, and rejects what lies
    outside. *)
Module Json.

Definition skip_ws (s : list ascii) : list ascii :=
  Js.drop_while (λ c, let n := Js.code c in
                      ((n =? 32) || (n =? 9) || (n =? 10) || (n =? 13))%nat) s.

Definition hex_digit (c : ascii) : option nat :=
  let n := Js.code c in
  if ((48 <=? n) && (n <=? 57))%nat then Some (n - 48)
  else if ((97 <=? n) && (n <=? 102))%nat then Some (n - 87)
  else if ((65 <=? n) && (n <=? 70))%nat then Some (n - 55)
  else None.

(** The characters of a string literal after its opening quote. *)
Fixpoint parse_string (s : list ascii) (acc : list ascii)
    : option (string * list ascii) :=
  match s with
  | [] => None
  | c :: rest =>
      if decide (c = "034"%char) then Some (string_of_list_ascii acc, rest)
      else if decide (c = "\"%char) then
        match rest with
        | e :: rest' =>
            let simple (x : ascii) := parse_string rest' (acc ++ [x]) in
            if decide (e = "034"%char) then simple "034"%char
            else if decide (e = "\"%char) then simple "\"%char
            else if decide (e = "/"%char) then simple "/"%char
            else if decide (e = "b"%char) then simple "008"%char
            else if decide (e = "f"%char) then simple "012"%char
            else if decide (e = "n"%char) then simple "010"%char
            else if decide (e = "r"%char) then simple "013"%char
            else if decide (e = "t"%char) then simple "009"%char
            else None
        | [] => None
        end
      else if (Js.code c <? 32)%nat then None
      else parse_string rest (acc ++ [c])
  end.

Definition parse_number (s : list ascii) : option (json * list ascii) :=
  let '(sign, body) :=
    match s with
    | c :: rest => if decide (c = "-"%char) then (["-"%char], rest) else ([], s)
    | [] => ([], s)
    end in
  let digits := Js.take_while Js.is_digit body in
  let rest := Js.drop_while Js.is_digit body in
  let canonical :=
    match digits with
    | [] => false
    | [d] => negb (bool_decide (d = "0"%char) && bool_decide (sign ≠ []))
    | d :: _ => negb (bool_decide (d = "0"%char)) && (length digits <=? 15)%nat
    end in
  let ends :=
    match rest with
    | c :: _ => negb (bool_decide (c = "."%char) || bool_decide (c = "e"%char)
                      || bool_decide (c = "E"%char))
    | [] => true
    end in
  if canonical && ends
  then Some (JNum (string_of_list_ascii (sign ++ digits)), rest)
  else None.

Fixpoint parse_value (fuel : nat) (s : list ascii) : option (json * list ascii) :=
  match fuel with
  | 0 => None
  | S fuel' =>
      match skip_ws s with
      | "n" :: "u" :: "l" :: "l" :: rest => Some (JNull, rest)
      | "t" :: "r" :: "u" :: "e" :: rest => Some (JBool true, rest)
      | "f" :: "a" :: "l" :: "s" :: "e" :: rest => Some (JBool false, rest)
      | "034" :: rest =>
          match parse_string rest [] with
          | Some (str, rest') => Some (JStr str, rest')
          | None => None
          end
      | "[" :: rest =>
          match skip_ws rest with
          | "]" :: rest' => Some (JArr [], rest')
          | _ =>
              (fix items (n : nat) (r : list ascii) (acc : list json) :=
                 match n with
                 | 0 => None
                 | S n' =>
                     match parse_value fuel' r with
                     | Some (v, r1) =>
                         match skip_ws r1 with
                         | "," :: r2 => items n' r2 (acc ++ [v])
                         | "]" :: r2 => Some (JArr (acc ++ [v]), r2)
                         | _ => None
                         end
                     | None => None
                     end
                 end) (length rest) rest []
          end
      | "{" :: rest =>
          match skip_ws rest with
          | "}" :: rest' => Some (JObj [], rest')
          | _ =>
              (fix members (n : nat) (r : list ascii) (acc : list (string * json)) :=
                 match n with
                 | 0 => None
                 | S n' =>
                     match skip_ws r with
                     | "034" :: r0 =>
                         match parse_string r0 [] with
                         | Some (key, r1) =>
                             match skip_ws r1 with
                             | ":" :: r2 =>
                                 match parse_value fuel' r2 with
                                 | Some (v, r3) =>
                                     match skip_ws r3 with
                                     | "," :: r4 => members n' r4 (JsObject.set key v acc)
                                     | "}" :: r4 => Some (JObj (JsObject.set key v acc), r4)
                                     | _ => None
                                     end
                                 | None => None
                                 end
                             | _ => None
                             end
                         | None => None
                         end
                     | _ => None
                     end
                 end) (length rest) rest []
          end
      | rest => parse_number rest
      end%char
  end.

Definition parse (text : string) : option json :=
  let s := list_ascii_of_string text in
  match parse_value (S (length s)) s with
  | Some (v, rest) => match skip_ws rest with [] => Some v | _ => None end
  | None => None
  end.

Definition hex_char (n : nat) : ascii :=
  ascii_of_nat (if (n <? 10)%nat then 48 + n else 87 + n).

Definition quote (s : string) : string :=
  Js.dq +:+
  string_of_list_ascii
    (flat_map (λ c,
       let n := Js.code c in
       if decide (n = 34) then ["\"; "034"]
       else if decide (n = 92) then ["\"; "\"]
       else if decide (n = 8) then ["\"; "b"]
       else if decide (n = 12) then ["\"; "f"]
       else if decide (n = 10) then ["\"; "n"]
       else if decide (n = 13) then ["\"; "r"]
       else if decide (n = 9) then ["\"; "t"]
       else if (n <? 32)%nat
            then ["\"; "u"; "0"; "0"; hex_char (n / 16); hex_char (n mod 16)]
       else [c])%char (list_ascii_of_string s))
  +:+ Js.dq.

(** [JSON.stringify(v, null, 2)] at a given indentation. *)
Fixpoint print (indent : string) (v : json) : string :=
  let inner := indent +:+ "  " in
  match v with
  | JNull => "null"
  | JBool true => "true"
  | JBool false => "false"
  | JNum repr => repr
  | JStr s => quote s
  | JArr [] => "[]"
  | JArr items =>
      "[" +:+ Js.nl
      +:+ Js.join ("," +:+ Js.nl)
            ((fix each (l : list json) : list string :=
                match l with
                | [] => []
                | x :: rest => (inner +:+ print inner x) :: each rest
                end) items)
      +:+ Js.nl +:+ indent +:+ "]"
  | JObj [] => "{}"
  | JObj props =>
      "{" +:+ Js.nl
      +:+ Js.join ("," +:+ Js.nl)
            ((fix each (l : list (string * json)) : list string :=
                match l with
                | [] => []
                | (k, x) :: rest =>
                    (inner +:+ quote k +:+ ": " +:+ print inner x) :: each rest
                end) props)
      +:+ Js.nl +:+ indent +:+ "}"
  end.

#[global] Instance codec : JsonCodec :=
  {| JSON_parse := parse; JSON_stringify := print "" |}.

End Json.

(** An environment whose processes leave the files alone: [ok] tells which
    commands succeed. *)
Definition quiet_env (ok : command → bool) (now : string) (home : path)
    : Environment :=
  {| spawn := λ w c, (ok c, fs w); clock := λ _, now; HOME := home |}.

Definition mkfs (l : list (path * node)) : gmap path node := list_to_map l.

Definition test_world (f : list (path * node)) (s : Session) : World :=
  MkWorld (mkfs f) s [].

(* ===================================================================== *)
(** * Notions of the specification *)
(* ===================================================================== *)

Section RoundRobinSpec.

Context {task : Type}.

(** The tasks that round-robin by index gives to worker [a]: those whose
    index [i] has [agents[i mod |agents|] = a], in plan order. *)
Definition tasks_of (agents : list string) (a : string) (tasks : list task)
    : list task :=
  omap (λ it : nat * task,
          if decide (agents !! (it.1 mod length agents) = Some a)
          then Some it.2 else None)
       (imap pair tasks).

(** Every [m]-th task, beginning with the one at index [c]. *)
Fixpoint stride (m c : nat) (tasks : list task) : list task :=
  match tasks with
  | [] => []
  | t :: rest =>
      match c with
      | 0 => t :: stride m (m - 1) rest
      | S c' => stride m c' rest
      end
  end.

(** Reading a family of lists in round-robin interleaving: the head of
    the first list is visited, the rest of that list goes to the back of
    the queue, and exhausted lists leave the queue. *)
Fixpoint round_robin (fuel : nat) (queue : list (list task)) : list task :=
  match fuel with
  | 0 => []
  | S fuel' =>
      match queue with
      | [] => []
      | [] :: rest => round_robin fuel' rest
      | (x :: l) :: rest => x :: round_robin fuel' (rest ++ [l])
      end
  end.

Definition interleave (lists : list (list task)) : list task :=
  round_robin (length lists + length (concat lists)) lists.

End RoundRobinSpec.

Definition ceil_div (n m : nat) : nat := (n + m - 1) / m.

(** The regular expression of [_extractTasks] read as a scanner, with the
    string functions of the code: a checkbox is a bullet ([-] or [*]),
    optional white space, an opening bracket, the box state (blank, [x] or
    [X]) and a closing bracket.  The text of a description stops at a
    carriage return, and a checkbox followed by nothing but line terminators
    has no description. *)
Module CheckboxSpec.

Definition is_bullet (c : ascii) : bool :=
  bool_decide (c = "-"%char) || bool_decide (c = "*"%char).

Definition is_box (c : ascii) : bool :=
  bool_decide (c = " "%char) || bool_decide (c = "x"%char)
  || bool_decide (c = "X"%char).

Definition visible (c : ascii) : bool := negb (Js.is_line_terminator c).

Definition description (tail : list ascii) : list ascii :=
  Js.trim_chars (Js.take_while visible (Js.drop_while Js.is_space tail)).

(** A checkbox that begins at the head of [s], and its description. *)
Definition checkbox_here (s : list ascii) : option (list ascii) :=
  match s with
  | b :: rest =>
      if is_bullet b then
        match Js.drop_while Js.is_space rest with
        | o :: x :: c :: tail =>
            if bool_decide (o = "["%char) && is_box x && bool_decide (c = "]"%char)
               && existsb visible tail
            then Some (description tail) else None
        | _ => None
        end
      else None
  | [] => None
  end.

(** The first checkbox of a line. *)
Fixpoint first_checkbox (line : list ascii) : option (list ascii) :=
  match checkbox_here line with
  | Some d => Some d
  | None =>
      match line with
      | [] => None
      | _ :: rest => first_checkbox rest
      end
  end.

Definition line_task (line : string) : option string :=
  string_of_list_ascii <$> first_checkbox (list_ascii_of_string line).

(** The descriptions of the checkbox lines, in line order. *)
Definition extract (text : string) : list string :=
  omap line_task (Js.split "010"%char text).

End CheckboxSpec.

(** Task extraction as the specification words it, with definitions of its
    own for lines, white space and trimming.  The text is read line by line,
    the lines being the pieces between line feeds.  A line holds checkbox
    markup when somewhere in it there is a bullet ([-] or [*]), optional
    white space, and a box in brackets whose state is blank, [x] or [X].
    The trailing description is the rest of the line after the box of the
    first markup, and the task is the trailing description, trimmed.

    [extract] follows these words.  [extract_cr] is the reading that the
    code is proved to have: the markup counts only when the rest of the line
    holds a character that is not a carriage return, and the description is
    the rest of the line from its first character that is not white space up
    to the next carriage return, trimmed. *)
Module TaskWords.

Definition white (c : ascii) : bool :=
  bool_decide (c ∈ ["009"; "010"; "011"; "012"; "013"; " "; "160"]%char).

Fixpoint strip_left (s : list ascii) : list ascii :=
  match s with
  | c :: rest => if white c then strip_left rest else s
  | [] => []
  end.

Fixpoint strip_right (s : list ascii) : list ascii :=
  match s with
  | [] => []
  | c :: rest =>
      match strip_right rest with
      | [] => if white c then [] else [c]
      | kept => c :: kept
      end
  end.

(** [trimmed]: without the white space at both ends. *)
Definition strip (s : list ascii) : list ascii := strip_right (strip_left s).

(** The lines of a text; [cur] is the line that is being read. *)
Fixpoint lines_from (cur : list ascii) (s : list ascii) : list (list ascii) :=
  match s with
  | [] => [cur]
  | c :: rest =>
      if decide (c = "010"%char) then cur :: lines_from [] rest
      else lines_from (cur ++ [c]) rest
  end.

Definition lines (text : string) : list (list ascii) :=
  lines_from [] (list_ascii_of_string text).

Definition bullet (c : ascii) : bool := bool_decide (c ∈ ["-"; "*"]%char).
Definition box_state (c : ascii) : bool := bool_decide (c ∈ [" "; "x"; "X"]%char).

(** The markup at the head of [s], and the rest of the line after it. *)
Definition markup_here (s : list ascii) : option (list ascii) :=
  match s with
  | b :: after =>
      if bullet b then
        match strip_left after with
        | o :: x :: c :: rest =>
            if bool_decide (o = "["%char) && box_state x && bool_decide (c = "]"%char)
            then Some rest else None
        | _ => None
        end
      else None
  | [] => None
  end.

(** The trailing description of a line: what follows its first markup. *)
Fixpoint first_markup (line : list ascii) : option (list ascii) :=
  match markup_here line with
  | Some rest => Some rest
  | None =>
      match line with
      | [] => None
      | _ :: rest => first_markup rest
      end
  end.

Definition extract (text : string) : list string :=
  (λ rest, string_of_list_ascii (strip rest)) <$> omap first_markup (lines text).





End TaskWords.



(** A property name that an object lists in creation order: not an array
    index (the canonical numeral of an integer below 2^32 - 1), which
    [Object.keys] lists first and in ascending order, and not [__proto__],
    whose assignment sets the prototype and creates no property. *)
Definition is_array_index (s : string) : bool :=
  match list_ascii_of_string s with
  | [] => false
  | c :: rest =>
      forallb Js.is_digit (c :: rest)
      && (negb (bool_decide (c = "0"%char)) || bool_decide (rest = []))
      && (foldl (λ acc d, acc * 10 + N.of_nat (Js.code d - 48))%N 0%N (c :: rest)
          <? 4294967295)%N
  end.

Definition plain_key (s : string) : Prop :=
  is_array_index s = false ∧ s ≠ "__proto__".

(** [m] never changes or removes an entry of the file system. *)
Definition keeps_entries {A} (m : M A) : Prop :=
  ∀ w p n, fs w !! p = Some n → fs (m w).2 !! p = Some n.

(** The liveness probe of a binary, and the tmux commands of a launch. *)
Definition probe (b : string) : command := Command b ["--version"] None None.

Definition tmux (a : list string) : command := Command "tmux" a None None.


Definition send_keys (agentName keys : string) : command :=
  tmux ["send-keys"; "-t"; "zeroclaw:" +:+ agentName; keys; "Enter"].

(** tmux works: no tmux command touches the files, and every tmux command
    succeeds, but for kill-session, which may fail: it does when no session
    of that name runs, as at the first launch. *)
Definition tmux_works `{Environment} : Prop :=
  ∀ w c, bin c = "tmux" →
    (spawn w c).2 = fs w
    ∧ (head (args c) ≠ Some "kill-session" → (spawn w c).1 = true).

(** The task brief of an agent can be written: [.zeroclaw] is a directory of
    the workspace and nothing but a plain file is in the way. *)
Definition brief_writable (ws : path) (agentName : string) (w : World) : Prop :=
  fs w !! (ws ++ [".zeroclaw"]) = Some Dir
  ∧ match fs w !! (ws ++ [".zeroclaw"; agentName +:+ "-task.md"]) with
    | Some Dir | Some (Link _) => False
    | _ => True
    end.



(** The session-state document cannot be read: it is a directory, or it is
    a file whose text is not JSON. *)
Definition unreadable `{codec : JsonCodec} (f : gmap path node) (p : path) : Prop :=
  f !! p = Some Dir
  ∨ (∃ text, f !! p = Some (File text) ∧ JSON_parse text = None).

(** The document that [_saveState] writes at the start of a session. *)
Definition active_document `{JsonCodec} (s : Session) (now : string) : string :=
  JSON_stringify
    (object_literal
       [ ("id", id s);
         ("workspace", Some (JStr (path_str (workspace s))));
         ("agents", Some (JArr (agents s)));
         ("status", Some (JStr "active"));
         ("startedAt", Some (JStr now)) ])
  +:+ Js.nl.

(** Worlds of the examples. *)
Definition wA : World :=
  test_world [(["w"], Dir)] (new_Session ["w"] false true None "uuid-1").
Definition planA : Plan := MkPlan "project" None ["first"] [("PLAN.md", "- [ ] first")].
Definition planB : Plan := MkPlan "project" None ["second"] [("PLAN.md", "- [ ] second")].

(** What a trace shows of a distribution cycle: the section headers that were
    printed, and the windows whose creation was attempted, with the outcome. *)
Definition sections (tr : list event) : list (string * string) :=
  omap (λ e, match e with EvSection title sub => Some (title, sub) | _ => None end) tr.

Definition window_attempts (tr : list event) : list (string * bool) :=
  omap (λ e, match e with
             | EvExec (Command "tmux" ["new-window"; "-t"; "zeroclaw"; "-n"; a] None None) ok =>
                 Some (a, ok)
             | _ => None
             end) tr.

(** A session whose identifier is replaced. *)
Definition with_id (pid : jsval) (s : Session) : Session :=
  {| workspace := workspace s; resume := resume s; lightning := lightning s;
     tmuxLayout := tmuxLayout s; id := pid; stateFile := stateFile s;
     state := state s; agents := agents s |}.

(** A workspace with its scaffolding, and one more list of entries. *)
Definition scaffold (more : list (path * node)) : list (path * node) :=
  [ (["w"], Dir); (["w"; ".zeroclaw"], Dir); (["w"; ".planning"], Dir) ] ++ more.

Definition session0 : Session := new_Session ["w"] false true None "uuid-1".

(** gemini and codex are installed, tmux works, nothing else does. *)
Definition two_agents : Environment :=
  quiet_env (λ c, bool_decide (bin c ∈ ["gemini"; "codex"; "tmux"])) "2026-01-01T00:00:00.000Z" ["home"].


(** The same, but the window of gemini cannot be created. *)
Definition gemini_window_fails : Environment :=
  quiet_env (λ c, bool_decide (bin c ∈ ["gemini"; "codex"; "tmux"])
                  && negb (bool_decide (args c = ["new-window"; "-t"; "zeroclaw"; "-n"; "gemini"])))
            "2026-01-01T00:00:00.000Z" ["home"].

(** No agent is installed. *)
Definition no_agents : Environment :=
  quiet_env (λ _, false) "2026-01-01T00:00:00.000Z" ["home"].

(** A quick plan that holds notes and no checkbox. *)
Definition quick_notes : World :=
  test_world
    (scaffold [ (["w"; ".planning"; "quick"], Dir);
                (["w"; ".planning"; "quick"; "001-notes"], Dir);
                (["w"; ".planning"; "quick"; "001-notes"; "PLAN.md"],
                 File "Investigate the flaky login test") ])
    session0.

(** The same notes as the plan document of the project. *)
Definition project_notes : World :=
  test_world
    (scaffold [ (["w"; ".planning"; "PLAN.md"], File "Investigate the flaky login test") ])
    session0.



Definition corrupted : World :=
  test_world (scaffold [(["w"; ".zeroclaw"; "session.json"], File "{")]) session0.

Definition two_tasks : Plan :=
  MkPlan "project" None ["build login"; "write tests"]
         [("PLAN.md", "- [ ] build login" +:+ Js.nl +:+ "- [ ] write tests")].

(* ===================================================================== *)
(** * Further notions for the properties of the code *)
(* ===================================================================== *)

(** [m] returns on every world: none of its failures reaches the caller. *)
Definition never_throws {A} (m : M A) : Prop :=
  ∀ w, ∃ a w', m w = (Ok a, w').

(** [m] leaves the session object as it is, whether it returns or throws. *)
Definition keeps_session {A} (m : M A) : Prop :=
  ∀ w, sess (m w).2 = sess w.

(** [m] only looks at the world. *)
Definition read_only {A} (m : M A) : Prop :=
  ∀ w, (m w).2 = w.

(** The names of the agents whose probe succeeded, in catalog order; the
    four outcomes are those of gemini, gh (for copilot), codex and
    opencode. *)
Definition detected (b1 b2 b3 b4 : bool) : list string :=
  (if b1 then ["gemini"] else []) ++ (if b2 then ["copilot"] else [])
  ++ (if b3 then ["codex"] else []) ++ (if b4 then ["opencode"] else []).

(** The text of implement.md that [_writePlanArtifacts] writes for a list of
    tasks. *)
Definition implement_document (tasks : list string) : string :=
  "# Implementation Tracking" +:+ Js.nl +:+ Js.nl
  +:+ Js.join Js.nl ((λ t, "- [ ] " +:+ t) <$> tasks) +:+ Js.nl.

(** A string without line feed or carriage return, and a string that [trim]
    leaves as it is. *)
Definition one_line (s : string) : Prop :=
  forallb CheckboxSpec.visible (list_ascii_of_string s) = true.

Definition trimmed (s : string) : Prop := Js.trim s = s.

(** The exceptions that [m] can throw all satisfy [P]. *)
Definition throws_only {A} (P : exn → Prop) (m : M A) : Prop :=
  ∀ w e w', m w = (Throw e, w') → P e.

(** A rejection of fs-extra, and a rejection of execa. *)
Definition is_io_error (e : exn) : Prop := ∃ code p, e = IOError code p.
Definition is_exec_error (e : exn) : Prop := ∃ b a, e = ExecError b a.

(** The values that [_saveState] hands to [writeJson] when a session starts
    and when it ends. *)
Definition active_state (s : Session) (now : string) : json :=
  object_literal
    [ ("id", id s);
      ("workspace", Some (JStr (path_str (workspace s))));
      ("agents", Some (JArr (agents s)));
      ("status", Some (JStr "active"));
      ("startedAt", Some (JStr now)) ].

Definition ended_state (s : Session) (now : string) : json :=
  object_literal
    [ ("id", id s);
      ("workspace", Some (JStr (path_str (workspace s))));
      ("agents", Some (JArr (agents s)));
      ("status", Some (JStr "ended"));
      ("endedAt", Some (JStr now)) ].

(* ===================================================================== *)
(** * More of the string library *)
(* ===================================================================== *)

Module JsString.

(** [s.toLowerCase()] on code units below 256: A-Z, and the Latin-1
    capitals but for the multiplication sign. *)
Definition lower_char (c : ascii) : ascii :=
  let n := Js.code c in
  if (((65 <=? n) && (n <=? 90))
      || ((192 <=? n) && (n <=? 222) && negb (n =? 215)))%nat
  then ascii_of_nat (n + 32) else c.

Definition toLowerCase (s : string) : string :=
  string_of_list_ascii (lower_char <$> list_ascii_of_string s).

(** [e] is at the head of [s]. *)
Fixpoint starts_with (e s : list ascii) : bool :=
  match e, s with
  | [], _ => true
  | c :: e', d :: s' => bool_decide (c = d) && starts_with e' s'
  | _ :: _, [] => false
  end.

Fixpoint includes_chars (e s : list ascii) : bool :=
  starts_with e s
  || match s with
     | [] => false
     | _ :: s' => includes_chars e s'
     end.

(** [s.includes(e)] *)
Definition includes (s e : string) : bool :=
  includes_chars (list_ascii_of_string e) (list_ascii_of_string s).

(** [\w] without the unicode flag, and the assertion [\b] between two
    neighbours; [None] is the edge of the string. *)
Definition is_word_char (c : ascii) : bool :=
  let n := Js.code c in
  (((48 <=? n) && (n <=? 57)) || ((65 <=? n) && (n <=? 90))
   || ((97 <=? n) && (n <=? 122)) || (n =? 95))%nat.

Definition word_boundary (prev next : option ascii) : bool :=
  xorb (from_option is_word_char false prev) (from_option is_word_char false next).

(** [/\b(a1|...|an)\b/.test(s)] for literal alternatives: some start
    position and some alternative fit, with a word boundary on both
    sides.  [prev] is the character before the position. *)
Fixpoint word_test_from (alts : list string) (prev : option ascii)
    (s : list ascii) : bool :=
  (word_boundary prev (head s)
   && existsb (λ a : string,
                 let a' := list_ascii_of_string a in
                 starts_with a' s
                 && word_boundary (match last a' with Some c => Some c | None => prev end)
                                  (head (drop (length a') s)))
              alts)
  || match s with
     | [] => false
     | c :: rest => word_test_from alts (Some c) rest
     end.

Definition word_test (alts : list string) (s : string) : bool :=
  word_test_from alts None (list_ascii_of_string s).

End JsString.

(* ===================================================================== *)
(** * git.js *)
(* ===================================================================== *)

(** [fs.appendFile(p, data)]: the file is created when it does not exist.
    The action is recorded as the write of the resulting text. *)
Definition appendFile (p : path) (data : string) : M unit := λ w,
  if fs_extra.is_dir (fs w) (fs_extra.parent p) then
    match fs w !! p with
    | Some Dir => (Throw (IOError "EISDIR" p), w)
    | Some (Link _) => (Throw (IOError "ELOOP" p), w)
    | Some (File c) =>
        (Ok tt, emit (EvWrite p (c +:+ data)) (set_fs (<[p := File (c +:+ data)]> (fs w)) w))
    | None => (Ok tt, emit (EvWrite p data) (set_fs (<[p := File data]> (fs w)) w))
    end
  else (Throw (IOError "ENOENT" p), w).

Module Git.
Section Git.

Context `{Environment}.

(** [this.workspace] *)
Variable ws : path.

(** ** [_slugify] *)

(** [[a-z0-9]] *)
Definition is_slug_char (c : ascii) : bool :=
  let n := Js.code c in
  (((97 <=? n) && (n <=? 122)) || ((48 <=? n) && (n <=? 57)))%nat.

Definition is_dash (c : ascii) : bool := bool_decide (c = "-"%char).

(** [.replace(/[^a-z0-9]+/g, '-')]: every maximal run of other characters
    becomes one dash; [in_run] says that the run has begun. *)
Fixpoint dash_runs (in_run : bool) (s : list ascii) : list ascii :=
  match s with
  | [] => []
  | c :: rest =>
      if is_slug_char c then c :: dash_runs false rest
      else if in_run then dash_runs true rest
      else "-"%char :: dash_runs true rest
  end.

(** [.replace(/^-+|-+$/g, '')] *)
Definition strip_dashes (s : list ascii) : list ascii :=
  reverse (Js.drop_while is_dash (reverse (Js.drop_while is_dash s))).

Definition _slugify (text : string) : string :=
  string_of_list_ascii
    (take 40 (strip_dashes (dash_runs false
       (list_ascii_of_string (JsString.toLowerCase text))))).

(** ** [_ensureGitignore] *)

Definition gitignore_entries : list string :=
  [ ".zeroclaw/session.json";
    ".zeroclaw/agent-env.sh";
    ".zeroclaw/lightning-spans/";
    "node_modules/";
    ".env";
    "*.log" ].

Definition _ensureGitignore : M unit :=
  let gi := ws ++ [".gitignore"] in
  e ← fs_extra.pathExists gi;
  current ← (if e then fs_extra.readFile gi else ret "");
  let missing :=
    List.filter (λ e, negb (JsString.includes current e)) gitignore_entries in
  if decide (length missing = 0) then ret tt
  else appendFile gi (Js.nl +:+ "# zeroclaw" +:+ Js.nl
                      +:+ Js.join Js.nl missing +:+ Js.nl).

(** ** [ensureRepo] *)

Definition ensureRepo : M unit :=
  try_catch
    (execa "git" ["rev-parse"; "--git-dir"] (Some ws) None)
    (λ _,
       log.info "Initializing git repo..." ;;
       execa "git" ["init"] (Some ws) None ;;
       execa "git" ["commit"; "--allow-empty"; "-m"; "chore: initial zeroclaw session"]
             (Some ws) None) ;;
  _ensureGitignore.

End Git.
End Git.

(* ===================================================================== *)
(** * conversation.js *)
(* ===================================================================== *)

(** [classifyIntent(text)]; the alternatives [new (feature|task|plan)] and
    [where (was|were) (i|we)] are written out. *)
Definition exit_words : list string :=
  ["exit"; "quit"; "bye"; "done"; "end session"].
Definition project_init_words : list string :=
  ["new project"; "init"; "initialise"; "initialize"; "scaffold"; "start fresh";
   "create project"].
Definition continue_words : list string :=
  ["continue"; "resume"; "pick up"; "restore";
   "where was i"; "where was we"; "where were i"; "where were we"].
Definition new_task_words : list string :=
  ["new feature"; "new task"; "new plan"; "add"; "implement"; "build"; "fix";
   "refactor"; "update"; "create"].

Definition classifyIntent (text : string) : string :=
  let t := JsString.toLowerCase text in
  if JsString.word_test exit_words t then "exit"
  else if JsString.word_test project_init_words t then "project_init"
  else if JsString.word_test continue_words t then "continue"
  else if JsString.word_test new_task_words t then "new_task"
  else "unknown".

Module Conversation.
Section Conversation.

Context `{Environment}.

(** The body of [while (true)], for the lines that the user types, in
    order.  The result is [true] when the loop has ended with [break],
    and [false] when all the lines are used up and the prompt waits for
    the next one. *)
Fixpoint loop_from (inputs : list string) : M bool :=
  match inputs with
  | [] => ret false
  | input :: rest =>
      if decide (Js.trim input = "") then loop_from rest
      else
        let intent := classifyIntent input in
        let context := MkContext input intent in
        if decide (intent = "exit") then
          SessionM.dispatch "exit" context ;; ret true
        else if decide (intent = "unknown") then
          log.info ("Not sure what you want. Be more specific:" +:+ Js.nl
                    +:+ "  " +:+ Js.dq +:+ "new project — <description>" +:+ Js.dq +:+ Js.nl
                    +:+ "  " +:+ Js.dq +:+ "new task: <what to build>" +:+ Js.dq +:+ Js.nl
                    +:+ "  " +:+ Js.dq +:+ "continue" +:+ Js.dq +:+ Js.nl
                    +:+ "  " +:+ Js.dq +:+ "exit" +:+ Js.dq) ;;
          loop_from rest
        else
          SessionM.dispatch intent context ;; loop_from rest
  end.

(** [Conversation.loop()] *)
Definition loop (inputs : list string) : M bool :=
  log.info ("zeroclaw supervisor ready." +:+ Js.nl
            +:+ "Commands: " +:+ Js.dq +:+ "new project" +:+ Js.dq
            +:+ " | " +:+ Js.dq +:+ "new task: ..." +:+ Js.dq
            +:+ " | " +:+ Js.dq +:+ "continue" +:+ Js.dq
            +:+ " | " +:+ Js.dq +:+ "exit" +:+ Js.dq +:+ Js.nl
            +:+ "Type anything to start — I'll figure out the rest." +:+ Js.nl) ;;
  loop_from inputs.

End Conversation.
End Conversation.

(** A well-formed slug: lower-case letters, digits and single dashes, no
    dash at the front, at most forty characters. *)
Definition slug_chars (s : list ascii) : Prop :=
  Forall (λ c, Git.is_slug_char c = true ∨ c = "-"%char) s.
Definition no_double_dash (s : list ascii) : Prop :=
  ∀ a b, s ≠ a ++ ["-"; "-"]%char ++ b.

(** A phase number that a double holds exactly and [String] writes as its
    decimal digits: [null], [NaN], or an integer up to 2^53. *)
Definition exact_phase (ph : option number) : Prop :=
  match ph with
  | Some (Num k) => (k ≤ 2 ^ 53)%N
  | _ => True
  end.

(* ===================================================================== *)
(** * Properties *)
(* ===================================================================== *)

Section JsObjectFacts.
Context {V : Type}.
Implicit Types (o : JsObject.t V) (k : string) (v : V).

Lemma get_set_eq k v o : JsObject.get k (JsObject.set k v o) = Some v.
Proof.
  induction o as [|[k' v'] o IH]; simpl.
  - by rewrite decide_True.
  - destruct (decide (k' = k)) as [->|Hne]; simpl.
    + by rewrite decide_True.
    + by rewrite decide_False.
Qed.

Lemma get_set_ne k k' v o :
  k ≠ k' → JsObject.get k' (JsObject.set k v o) = JsObject.get k' o.
Proof.
  intros Hne. induction o as [|[k0 v0] o IH]; simpl.
  - by rewrite decide_False.
  - destruct (decide (k0 = k)) as [->|Hne0]; simpl.
    + by rewrite !decide_False.
    + destruct (decide (k0 = k')); [done|apply IH].
Qed.

Lemma keys_set_present k v o :
  is_Some (JsObject.get k o) → JsObject.keys (JsObject.set k v o) = JsObject.keys o.
Proof.
  unfold JsObject.keys.
  induction o as [|[k0 v0] o IH]; simpl; intros [x Hx]; [done|].
  destruct (decide (k0 = k)) as [->|Hne]; simpl; [done|].
  f_equal. apply IH; eauto.
Qed.

Lemma keys_set_absent k v o :
  JsObject.get k o = None → JsObject.keys (JsObject.set k v o) = JsObject.keys o ++ [k].
Proof.
  unfold JsObject.keys.
  induction o as [|[k0 v0] o IH]; simpl; intros Hx; [done|].
  destruct (decide (k0 = k)) as [->|Hne]; simpl; [done|].
  f_equal. by apply IH.
Qed.

Lemma get_is_Some_keys k o : is_Some (JsObject.get k o) ↔ k ∈ JsObject.keys o.
Proof.
  unfold JsObject.keys.
  induction o as [|[k0 v0] o IH]; simpl.
  - split; [intros [? ?]; done | intros ?%elem_of_nil; done].
  - destruct (decide (k0 = k)) as [->|Hne].
    + split; [intros _; left | eauto].
    + rewrite IH. split; [by right|]. intros [?|?]%elem_of_cons; [congruence|done].
Qed.

Lemma get_elem_of k v o : JsObject.get k o = Some v → (k, v) ∈ o.
Proof.
  induction o as [|[k0 v0] o IH]; simpl; [done|].
  destruct (decide (k0 = k)) as [->|Hne].
  - intros [= ->]. left.
  - intros ?. right. auto.
Qed.
End JsObjectFacts.

Section ForEachFacts.
Context {A St : Type}.
Lemma forEach_from_snoc (body : A → nat → St → result St) i l x s :
  forEach_from body i (l ++ [x]) s
  = rbind (forEach_from body i l s) (body x (i + length l)).
Proof.
  revert i s. induction l as [|y l IH]; intros i s; simpl.
  - rewrite Nat.add_0_r. by destruct (body x i s).
  - destruct (body y i s) as [s'|e]; simpl; [|done].
    rewrite IH. by replace (S i + length l) with (i + S (length l)) by lia.
Qed.
End ForEachFacts.

Section AssignFacts.
Context {task : Type}.
Implicit Types (tasks : list task) (agents : list string).

Lemma init_get agents a :
  JsObject.get a (@init_assignments task agents)
  = if decide (a ∈ agents) then Some [] else None.
Proof.
  unfold init_assignments.
  induction agents as [|b agents IH] using rev_ind.
  - rewrite decide_False; [done|]. apply not_elem_of_nil.
  - rewrite foldl_app. cbn [foldl].
    destruct (decide (b = a)) as [->|Hne].
    + rewrite get_set_eq. rewrite decide_True; [done|].
      apply elem_of_app. right. by left.
    + rewrite get_set_ne by done. rewrite IH.
      destruct (decide (a ∈ agents)) as [Hin|Hnin].
      * rewrite decide_True; [done|]. apply elem_of_app. by left.
      * rewrite decide_False; [done|].
        intros [?|?%list_elem_of_singleton]%elem_of_app; congruence.
Qed.

Lemma init_keys_NoDup agents :
  NoDup agents → JsObject.keys (@init_assignments task agents) = agents.
Proof.
  unfold init_assignments.
  induction agents as [|b agents IH] using rev_ind; intros Hnd; [done|].
  apply NoDup_app in Hnd as (Hnd & Hdisj & _).
  rewrite foldl_app. cbn [foldl]. rewrite keys_set_absent.
  - by rewrite IH.
  - fold (@init_assignments task agents). rewrite init_get.
    rewrite decide_False; [done|]. intros Hin. apply (Hdisj b Hin). by left.
Qed.

Lemma tasks_of_snoc agents a tasks t :
  tasks_of agents a (tasks ++ [t])
  = tasks_of agents a tasks
    ++ (if decide (agents !! (length tasks mod length agents) = Some a)
        then [t] else []).
Proof.
  unfold tasks_of. rewrite imap_app, omap_app. f_equal. simpl.
  rewrite Nat.add_0_r.
  by destruct (decide (agents !! (length tasks mod length agents) = Some a)).
Qed.

(** What the loop of [_assignTasks] computes. *)
Lemma assignTasks_spec tasks agents :
  agents ≠ [] →
  ∃ asg, _assignTasks tasks agents = Ok asg
       ∧ JsObject.keys asg = JsObject.keys (@init_assignments task agents)
       ∧ ∀ a, JsObject.get a asg
              = if decide (a ∈ agents) then Some (tasks_of agents a tasks) else None.
Proof.
  intros Hne. unfold _assignTasks, forEach.
  induction tasks as [|t tasks IH] using rev_ind.
  - eexists. split; [done|]. split; [done|]. intros a. by rewrite init_get.
  - destruct IH as (asg & Hrun & Hkeys & Hget).
    rewrite forEach_from_snoc, Hrun. simpl. unfold assign_body.
    assert (length tasks mod length agents < length agents) as Hlt.
    { apply Nat.mod_upper_bound. by destruct agents. }
    destruct (lookup_lt_is_Some_2 agents _ Hlt) as [b Hb]. rewrite Hb.
    assert (b ∈ agents) as Hin by (eapply list_elem_of_lookup_2; eauto).
    rewrite (Hget b), decide_True by done.
    eexists. split; [done|]. split.
    + rewrite keys_set_present; [done|]. rewrite Hget, decide_True; eauto.
    + intros a. rewrite tasks_of_snoc. destruct (decide (b = a)) as [->|Hba].
      * rewrite get_set_eq, !decide_True by done. done.
      * rewrite get_set_ne, Hget by done.
        destruct (decide (a ∈ agents)); [|done].
        rewrite (decide_False (P := agents !! _ = Some a)) by congruence.
        by rewrite app_nil_r.
Qed.
End AssignFacts.

Section StrideFacts.
Context {task : Type}.
Implicit Types (tasks : list task) (agents : list string).

Lemma succ_mod n m :
  0 < m → S n mod m = if decide (n mod m = m - 1) then 0 else S (n mod m).
Proof.
  intros Hm. pose proof (Nat.div_mod_eq n m) as Hn.
  pose proof (Nat.mod_upper_bound n m ltac:(lia)) as Hr.
  destruct (decide (n mod m = m - 1)) as [He|Hne].
  - symmetry. apply (Nat.mod_unique _ _ (S (n / m))); [lia|]. nia.
  - symmetry. apply (Nat.mod_unique _ _ (n / m)); [lia|]. nia.
Qed.

Lemma stride_snoc m c tasks t :
  c < m →
  stride m c (tasks ++ [t])
  = stride m c tasks ++ (if decide (length tasks mod m = c) then [t] else []).
Proof.
  intros Hc. revert c Hc.
  induction tasks as [|x tasks IH]; intros c Hc; simpl.
  - rewrite Nat.Div0.mod_0_l. destruct c; [by rewrite decide_True|by rewrite decide_False].
  - rewrite succ_mod by lia. destruct c as [|c].
    + rewrite IH by lia. simpl. do 2 f_equal.
      destruct (decide (length tasks mod m = m - 1)); [by rewrite decide_True|].
      by rewrite decide_False.
    + rewrite IH by lia. f_equal.
      destruct (decide (length tasks mod m = m - 1)) as [He|Hne].
      * rewrite decide_False by lia. by rewrite decide_False.
      * destruct (decide (length tasks mod m = c)).
        -- by rewrite decide_True by lia.
        -- by rewrite decide_False by lia.
Qed.

Lemma tasks_of_stride agents k a tasks :
  NoDup agents → agents !! k = Some a →
  tasks_of agents a tasks = stride (length agents) k tasks.
Proof.
  intros Hnd Hk.
  assert (k < length agents) as Hlt by (eapply lookup_lt_Some; eauto).
  induction tasks as [|t tasks IH] using rev_ind; [done|].
  rewrite tasks_of_snoc, stride_snoc, IH by done. f_equal.
  destruct (decide (length tasks mod length agents = k)) as [He|Hne].
  - rewrite decide_True; [done|]. by rewrite He.
  - rewrite decide_False; [done|]. intros Hc. apply Hne.
    eapply NoDup_lookup; eauto.
Qed.

Lemma stride_length m c tasks :
  c < m → length (stride m c tasks) = (length tasks + m - 1 - c) / m.
Proof.
  intros Hc. revert c Hc.
  induction tasks as [|x tasks IH]; intros c Hc; cbn [stride length].
  - symmetry. apply Nat.div_small. lia.
  - destruct c as [|c]; cbn [length].
    + rewrite IH by lia.
      replace (S (length tasks) + m - 1 - 0) with (length tasks + 1 * m) by lia.
      rewrite Nat.div_add by lia.
      replace (length tasks + m - 1 - (m - 1)) with (length tasks) by lia. lia.
    + rewrite IH by lia. f_equal. lia.
Qed.


(** A fair share is the floor or the ceiling of N/M. *)
Lemma fair_share (n m c : nat) :
  (c < m)%nat →
  (n + m - 1 - c) / m = n / m ∨ (n + m - 1 - c) / m = (n + m - 1) / m.
Proof.
  intros Hc.
  assert (n / m ≤ (n + m - 1 - c) / m)%nat by (apply Nat.Div0.div_le_mono; lia).
  assert ((n + m - 1 - c) / m ≤ (n + m - 1) / m)%nat by (apply Nat.Div0.div_le_mono; lia).
  assert ((n + m - 1) / m ≤ n / m + 1)%nat.
  { replace (n / m + 1) with ((n + 1 * m) / m) by (rewrite Nat.div_add; lia).
    apply Nat.Div0.div_le_mono. lia. }
  lia.
Qed.

Lemma stride_table_cons m t tasks :
  0 < m →
  (λ k, stride m k (t :: tasks)) <$> seq 0 m
  = (t :: stride m (m - 1) tasks) :: ((λ k, stride m k tasks) <$> seq 0 (m - 1)).
Proof.
  intros Hm. destruct m as [|m]; [lia|]. simpl. f_equal.
  rewrite Nat.sub_0_r. rewrite <-fmap_S_seq, <-list_fmap_compose. done.
Qed.

Lemma stride_table_snoc m tasks :
  0 < m →
  (λ k, stride m k tasks) <$> seq 0 m
  = ((λ k, stride m k tasks) <$> seq 0 (m - 1)) ++ [stride m (m - 1) tasks].
Proof.
  intros Hm. destruct m as [|m]; [lia|].
  rewrite seq_S, fmap_app. cbn [fmap list_fmap].
  by replace (S m - 1) with m by lia.
Qed.

Lemma round_robin_empty (n : nat) (q : list (list task)) :
  Forall (λ l, l = []) q → (length q ≤ n)%nat → round_robin n q = [].
Proof.
  revert q. induction n as [|n IH]; intros q Hq Hn; [done|].
  destruct q as [|l q]; [done|]. simpl.
  inversion Hq as [|?? -> Hq']; subst. apply IH; [done|simpl in Hn; lia].
Qed.

Lemma round_robin_stride m tasks :
  0 < m →
  round_robin (m + length tasks) ((λ k, stride m k tasks) <$> seq 0 m) = tasks.
Proof.
  intros Hm. induction tasks as [|t tasks IH].
  - apply round_robin_empty.
    + apply Forall_fmap, Forall_forall. intros k _. done.
    + rewrite length_fmap, length_seq. simpl. lia.
  - rewrite stride_table_cons by done.
    replace (m + length (t :: tasks)) with (S (m + length tasks)) by (simpl; lia).
    simpl. f_equal. rewrite <-stride_table_snoc by done. apply IH.
Qed.
End StrideFacts.

Section TableFacts.
Context {V : Type}.

Lemma keys_set_NoDup k (v : V) o :
  NoDup (JsObject.keys o) → NoDup (JsObject.keys (JsObject.set k v o)).
Proof.
  intros Hnd. destruct (JsObject.get k o) as [x|] eqn:Hg.
  - rewrite keys_set_present by eauto. done.
  - rewrite keys_set_absent by done. apply NoDup_app. split; [done|]. split.
    + intros a Ha ->%list_elem_of_singleton.
      apply get_is_Some_keys in Ha as [? ?]. congruence.
    + apply NoDup_singleton.
Qed.

Lemma obj_table (f : string → V) o :
  NoDup (JsObject.keys o) →
  (∀ k, k ∈ JsObject.keys o → JsObject.get k o = Some (f k)) →
  o = (λ k, (k, f k)) <$> JsObject.keys o.
Proof.
  unfold JsObject.keys.
  induction o as [|[k0 v0] o IH]; intros Hnd Hget; [done|].
  simpl in *. apply NoDup_cons in Hnd as [Hnotin Hnd].
  pose proof (Hget k0 ltac:(left)) as H0. rewrite decide_True in H0 by done.
  injection H0 as ->. f_equal. apply IH; [done|].
  intros k Hk. specialize (Hget k ltac:(by right)).
  rewrite decide_False in Hget; [done|]. intros ->. done.
Qed.
End TableFacts.

Section AssignmentTheorems.
Context {task : Type}.
Implicit Types (tasks : list task) (agents : list string).

Lemma init_keys_NoDup' agents : NoDup (JsObject.keys (@init_assignments task agents)).
Proof.
  unfold init_assignments.
  induction agents as [|b agents IH] using rev_ind; [apply NoDup_nil_2|].
  rewrite foldl_app. cbn [foldl]. by apply keys_set_NoDup.
Qed.

Lemma init_keys_elem agents a :
  a ∈ JsObject.keys (@init_assignments task agents) ↔ a ∈ agents.
Proof.
  rewrite <-get_is_Some_keys, init_get.
  destruct (decide (a ∈ agents)) as [Hin|Hnin]; split; eauto.
  - intros [? ?]; done.
  - intros ?; done.
Qed.

Lemma tasks_of_elem agents a tasks (i : nat) t :
  tasks !! i = Some t → agents !! (i mod length agents) = Some a →
  t ∈ tasks_of agents a tasks.
Proof.
  intros Ht Ha. unfold tasks_of. apply list_elem_of_omap.
  exists (i, t). split.
  - by apply (elem_of_lookup_imap_2 pair).
  - simpl. by rewrite decide_True.
Qed.

Lemma tasks_of_sublist agents a tasks : sublist (tasks_of agents a tasks) tasks.
Proof.
  induction tasks as [|t tasks IH] using rev_ind; [done|].
  rewrite tasks_of_snoc. apply sublist_app; [done|].
  destruct (decide _); [done|]. apply sublist_nil_l.
Qed.

Lemma concat_mark (K : list string) (f : string → list task) b t :
  NoDup K → b ∈ K →
  concat ((λ a, f a ++ (if decide (b = a) then [t] else [])) <$> K)
  ≡ₚ concat (f <$> K) ++ [t].
Proof.
  induction K as [|k K IH]; intros Hnd Hb; [by apply elem_of_nil in Hb|].
  apply NoDup_cons in Hnd as [Hk Hnd]. rewrite !fmap_cons. cbn [concat].
  destruct (decide (b = k)) as [->|Hne].
  - assert (concat ((λ a, f a ++ (if decide (k = a) then [t] else [])) <$> K)
            = concat (f <$> K)) as ->.
    { f_equal. apply list_fmap_ext. intros _ a Ha%list_elem_of_lookup_2.
      rewrite decide_False; [by rewrite app_nil_r|]. intros ->. done. }
    rewrite <-!(assoc_L (++)). f_equiv. apply Permutation_app_comm.
  - apply elem_of_cons in Hb as [?|Hb]; [done|].
    rewrite IH by done. rewrite app_nil_r. by rewrite (assoc_L (++)).
Qed.

Lemma tasks_of_partition agents (K : list string) tasks :
  agents ≠ [] → NoDup K → (∀ a, a ∈ K ↔ a ∈ agents) →
  concat ((λ a, tasks_of agents a tasks) <$> K) ≡ₚ tasks.
Proof.
  intros Hne Hnd HK.
  induction tasks as [|t tasks IH] using rev_ind.
  - assert (∀ K' : list string,
              concat ((λ a, tasks_of agents a (@nil task)) <$> K') = []) as ->; [|done].
    intros K'. induction K' as [|? ? IHK']; [done|]. by rewrite fmap_cons.
  - assert (length tasks mod length agents < length agents)%nat as Hlt.
    { apply Nat.mod_upper_bound. by destruct agents. }
    destruct (lookup_lt_is_Some_2 agents _ Hlt) as [b Hb].
    assert (b ∈ K) as HbK by (apply HK; eapply list_elem_of_lookup_2; eauto).
    trans (concat ((λ a, tasks_of agents a tasks) <$> K) ++ [t]);
      [|by rewrite IH].
    rewrite <-(concat_mark K _ b t) by done.
    apply reflexive_eq. f_equal.
    apply list_fmap_ext. intros _ a _. rewrite tasks_of_snoc. f_equal.
    rewrite Hb. destruct (decide (b = a)) as [->|Hba].
    + by rewrite decide_True.
    + rewrite decide_False; [done|]. congruence.
Qed.
End AssignmentTheorems.

Lemma assignTasks_table {task} (tasks : list task) agents asg :
  agents ≠ [] → _assignTasks tasks agents = Ok asg →
  NoDup (JsObject.keys asg)
  ∧ (∀ a, a ∈ JsObject.keys asg ↔ a ∈ agents)
  ∧ asg = (λ a, (a, tasks_of agents a tasks)) <$> JsObject.keys asg.
Proof.
  intros Hne Hrun.
  destruct (assignTasks_spec tasks agents Hne) as (asg' & Hrun' & Hkeys & Hget).
  rewrite Hrun in Hrun'. injection Hrun' as <-.
  assert (∀ a, a ∈ JsObject.keys asg ↔ a ∈ agents) as Hin.
  { intros a. rewrite Hkeys. apply init_keys_elem. }
  assert (NoDup (JsObject.keys asg)) as Hnd.
  { rewrite Hkeys. apply init_keys_NoDup'. }
  split; [done|]. split; [done|].
  apply obj_table; [done|]. intros a Ha. rewrite Hget, decide_True; [done|].
  by apply Hin.
Qed.

(** Claim C1.  Round-robin by index: for every task list and every non-empty
    list of available workers, [_assignTasks] returns an assignment in which
    task [i] is in the list of worker [available[i mod |available|]], and the
    list of every worker is made of the plan's tasks for that worker in plan
    order, hence a sublist of the plan.  In particular the tasks A, B, C, D, E
    and the workers w1, w2 give w1: A, C, E and w2: B, D. *)
Theorem C1_round_robin_by_index :
  (∀ (task : Type) (tasks : list task) (agents : list string),
     agents ≠ [] →
     ∃ asg, _assignTasks tasks agents = Ok asg
       ∧ (∀ (i : nat) t, tasks !! i = Some t →
            ∃ a l, agents !! (i mod length agents) = Some a
                 ∧ JsObject.get a asg = Some l ∧ t ∈ l)
       ∧ (∀ a l, JsObject.get a asg = Some l →
            l = tasks_of agents a tasks ∧ sublist l tasks))
  ∧ _assignTasks ["A"; "B"; "C"; "D"; "E"] ["w1"; "w2"]
    = Ok [("w1", ["A"; "C"; "E"]); ("w2", ["B"; "D"])].
Proof.
  split; [|reflexivity].
  intros task tasks agents Hne.
  destruct (assignTasks_spec tasks agents Hne) as (asg & Hrun & Hkeys & Hget).
  exists asg. split; [done|]. split.
  - intros i t Hi.
    assert (i mod length agents < length agents)%nat as Hlt.
    { apply Nat.mod_upper_bound. by destruct agents. }
    destruct (lookup_lt_is_Some_2 agents _ Hlt) as [a Ha].
    exists a, (tasks_of agents a tasks). split; [done|]. split.
    + rewrite Hget, decide_True; [done|]. eapply list_elem_of_lookup_2; eauto.
    + eapply tasks_of_elem; eauto.
  - intros a l Hl. rewrite Hget in Hl. destruct (decide (a ∈ agents)); [|done].
    injection Hl as <-. split; [done|]. apply tasks_of_sublist.
Qed.

(** The statement of C1 at three tasks and two workers. *)
Lemma C1_round_robin_by_index_witness :
  ["w1"; "w2"] ≠ []
  ∧ ∃ asg, _assignTasks ["A"; "B"; "C"] ["w1"; "w2"] = Ok asg
      ∧ (∀ (i : nat) t, ["A"; "B"; "C"] !! i = Some t →
           ∃ a l, ["w1"; "w2"] !! (i mod length ["w1"; "w2"]) = Some a
                ∧ JsObject.get a asg = Some l ∧ t ∈ l)
      ∧ (∀ a l, JsObject.get a asg = Some l →
           l = tasks_of ["w1"; "w2"] a ["A"; "B"; "C"] ∧ sublist l ["A"; "B"; "C"]).
Proof.
  split; [discriminate|].
  apply (proj1 C1_round_robin_by_index string ["A"; "B"; "C"] ["w1"; "w2"]).
  discriminate.
Defined.

(** Claim C2.  Round-robin fairness: for a plan of N tasks and M >= 1
    distinct available workers, whatever their names, each worker has either
    the floor or the ceiling of N/M tasks, the tasks of all workers together
    are a permutation of the plan's tasks (none lost, none duplicated), and
    reading the workers' lists in round-robin interleaving, the workers taken
    in their order, gives back the plan in its order.  When no name is an
    array index or [__proto__], the assignment lists the workers in their
    order, so that the same holds of its entries as they are enumerated. *)
Theorem C2_round_robin_fair_partition
    (task : Type) (tasks : list task) (agents : list string) :
  (1 ≤ length agents)%nat → NoDup agents →
  ∃ asg, _assignTasks tasks agents = Ok asg
    ∧ (∀ a, a ∈ agents →
         ∃ l, JsObject.get a asg = Some l
            ∧ (length l = length tasks / length agents
               ∨ length l = ceil_div (length tasks) (length agents)))
    ∧ concat ((λ a, default [] (JsObject.get a asg)) <$> agents) ≡ₚ tasks
    ∧ interleave ((λ a, default [] (JsObject.get a asg)) <$> agents) = tasks
    ∧ (Forall plain_key agents →
         JsObject.keys asg = agents
         ∧ concat (asg.*2) ≡ₚ tasks
         ∧ interleave (asg.*2) = tasks).
Proof.
  intros HM Hnd.
  assert (agents ≠ []) as Hne by (destruct agents; [simpl in HM; lia|done]).
  destruct (assignTasks_spec tasks agents Hne) as (asg & Hrun & Hkeys & Hget).
  destruct (assignTasks_table tasks agents asg Hne Hrun) as (HndK & Hin & Htab).
  rewrite init_keys_NoDup in Hkeys by done.
  rewrite Hkeys in Htab.
  assert (asg.*2 = (λ k, stride (length agents) k tasks) <$> seq 0 (length agents))
    as Hlists.
  { rewrite Htab, <-list_fmap_compose.
    apply list_eq. intros k. rewrite !list_lookup_fmap.
    destruct (agents !! k) as [a|] eqn:Ha; simpl.
    - rewrite lookup_seq_lt by (eapply lookup_lt_Some; eauto). simpl.
      f_equal. by apply tasks_of_stride.
    - rewrite lookup_seq_ge; [done|]. by apply lookup_ge_None. }
  assert (concat (asg.*2) ≡ₚ tasks) as Hperm.
  { rewrite Htab, <-list_fmap_compose.
    apply (tasks_of_partition agents agents tasks); done. }
  assert ((λ a, default [] (JsObject.get a asg)) <$> agents = asg.*2) as Hby_name.
  { transitivity ((λ a, tasks_of agents a tasks) <$> agents).
    - apply list_fmap_ext. intros k a Ha. simpl.
      rewrite Hget, decide_True by (eapply list_elem_of_lookup_2; eauto). done.
    - rewrite Htab, <-list_fmap_compose. done. }
  assert (interleave (asg.*2) = tasks) as Hinter.
  { unfold interleave. rewrite (Permutation_length Hperm), Hlists.
    rewrite length_fmap, length_seq. apply round_robin_stride. lia. }
  exists asg. split; [done|]. split; [|rewrite Hby_name; by auto].
  intros a Ha. exists (tasks_of agents a tasks). split.
  - by rewrite Hget, decide_True.
  - apply list_elem_of_lookup in Ha as [k Hk].
    rewrite (tasks_of_stride agents k) by done.
    rewrite stride_length by (eapply lookup_lt_Some; eauto).
    apply fair_share. eapply lookup_lt_Some; eauto.
Qed.

(** The statement of C2 at three tasks and two workers. *)
Lemma C2_round_robin_fair_partition_witness :
  (1 ≤ length ["w1"; "w2"])%nat ∧ NoDup ["w1"; "w2"] ∧ Forall plain_key ["w1"; "w2"]
  ∧ ∃ asg, _assignTasks ["A"; "B"; "C"] ["w1"; "w2"] = Ok asg
    ∧ (∀ a, a ∈ ["w1"; "w2"] →
         ∃ l, JsObject.get a asg = Some l
            ∧ (length l = length ["A"; "B"; "C"] / length ["w1"; "w2"]
               ∨ length l = ceil_div (length ["A"; "B"; "C"]) (length ["w1"; "w2"])))
    ∧ concat ((λ a, default [] (JsObject.get a asg)) <$> ["w1"; "w2"]) ≡ₚ ["A"; "B"; "C"]
    ∧ interleave ((λ a, default [] (JsObject.get a asg)) <$> ["w1"; "w2"]) = ["A"; "B"; "C"]
    ∧ (Forall plain_key ["w1"; "w2"] →
         JsObject.keys asg = ["w1"; "w2"]
         ∧ concat (asg.*2) ≡ₚ ["A"; "B"; "C"]
         ∧ interleave (asg.*2) = ["A"; "B"; "C"]).
Proof.
  assert (NoDup ["w1"; "w2"]) as Hnd.
  { apply NoDup_cons. split; [|apply NoDup_singleton].
    intros Hin%list_elem_of_singleton. discriminate. }
  split; [simpl; lia|]. split; [exact Hnd|].
  split; [repeat constructor; discriminate|].
  apply (C2_round_robin_fair_partition string ["A"; "B"; "C"] ["w1"; "w2"]);
    [simpl; lia|exact Hnd].
Defined.

Section RegexFacts.

Ltac by_cases c := destruct c as [[] [] [] [] [] [] [] []]; vm_compute; try reflexivity; try discriminate; auto.

Lemma mem_bullet c :
  cset_mem true (COneOf ["-"; "*"]%char) c = CheckboxSpec.is_bullet c.
Proof. by_cases c. Qed.

Lemma mem_box c :
  cset_mem true (COneOf [" "; "x"]%char) c = CheckboxSpec.is_box c.
Proof. by_cases c. Qed.

Lemma mem_open c : cset_mem true (CChar "["%char) c = bool_decide (c = "["%char).
Proof. by_cases c. Qed.

Lemma mem_close c : cset_mem true (CChar "]"%char) c = bool_decide (c = "]"%char).
Proof. by_cases c. Qed.

Lemma space_not_open c : Js.is_space c = true → bool_decide (c = "["%char) = false.
Proof. by_cases c. Qed.

Lemma terminator_is_space c :
  Js.is_line_terminator c = true → Js.is_space c = true.
Proof. by_cases c. Qed.

(** Greedy repetition ends after the longest run when what follows
    accepts there. *)
Lemma star_loop_greedy {X} p s (k : list ascii → option X) :
  is_Some (k (Js.drop_while p s)) → star_loop p s k = k (Js.drop_while p s).
Proof.
  induction s as [|c s IH]; simpl; [done|].
  destruct (p c); [|done]. intros Hk. by rewrite IH; [destruct Hk as [x ->]|].
Qed.

(** It also ends there when what follows rejects every input that
    begins with a character of the run: backtracking cannot help. *)
Lemma star_loop_skip {X} p s (k : list ascii → option X) :
  (∀ c s', p c = true → k (c :: s') = None) →
  star_loop p s k = k (Js.drop_while p s).
Proof.
  intros Hk. induction s as [|c s IH]; simpl; [done|].
  destruct (p c) eqn:Hc; [|done].
  rewrite IH. destruct (k (Js.drop_while p s)); [done|]. by apply Hk.
Qed.

Lemma take_while_drop_while p s : Js.take_while p s ++ Js.drop_while p s = s.
Proof.
  induction s as [|c s IH]; simpl; [done|].
  destruct (p c); simpl; [by rewrite IH|done].
Qed.

Lemma take_drop_while p s :
  take (length s - length (Js.drop_while p s)) s = Js.take_while p s.
Proof.
  rewrite <-(take_while_drop_while p s) at 1 3.
  rewrite length_app, Nat.add_sub. by rewrite take_app_length.
Qed.

(** The capture group [(.+)] at the head of [s]. *)
Local Abbreviation group_here s :=
  (run true (Group 1 (Plus CAny)) s [] (λ _ caps, Some caps)) (only parsing).

Lemma group_here_eq s :
  group_here s
  = match s with
    | c :: _ => if CheckboxSpec.visible c
                then Some [(1, Js.take_while CheckboxSpec.visible s)] else None
    | [] => None
    end.
Proof.
  cbn [run]. destruct s as [|c s]; [done|].
  cbn [cset_mem]. fold (CheckboxSpec.visible c).
  destruct (CheckboxSpec.visible c) eqn:Hc; [|done].
  rewrite star_loop_greedy by eauto.
  do 3 f_equal. change (negb ∘ Js.is_line_terminator) with CheckboxSpec.visible.
  rewrite <-take_drop_while. cbn [Js.drop_while]. by rewrite Hc.
Qed.

Lemma trim_chars_space c : Js.is_space c = true → Js.trim_chars [c] = [].
Proof. intros Hc. unfold Js.trim_chars, Js.trim_end, Js.trim_start. simpl. by rewrite Hc. Qed.

Lemma no_visible_all_space s :
  existsb CheckboxSpec.visible s = false →
  Js.drop_while Js.is_space s = [] ∧ Js.take_while CheckboxSpec.visible s = [].
Proof.
  induction s as [|c s IH]; simpl; [done|].
  intros [Hc Hs]%orb_false_elim. rewrite Hc.
  unfold CheckboxSpec.visible in Hc. apply negb_false_iff in Hc.
  rewrite (terminator_is_space c Hc). split; [by apply IH|done].
Qed.

Lemma space_or_visible c : Js.is_space c = false → CheckboxSpec.visible c = true.
Proof.
  intros Hc. unfold CheckboxSpec.visible.
  destruct (Js.is_line_terminator c) eqn:Ht; [|done].
  apply terminator_is_space in Ht. congruence.
Qed.

(** [\s*(.+)] after the closing bracket: white space is skipped, and given
    back only when nothing visible follows it. *)
Lemma tail_match tail :
  match star_loop Js.is_space tail (λ s', group_here s') with
  | Some caps => ∃ g, caps = [(1, g)]
                    ∧ existsb CheckboxSpec.visible tail = true
                    ∧ Js.trim_chars g = CheckboxSpec.description tail
  | None => existsb CheckboxSpec.visible tail = false
  end.
Proof.
  induction tail as [|c tail IH]; [done|].
  cbn [star_loop existsb]. destruct (Js.is_space c) eqn:Hc.
  - destruct (star_loop Js.is_space tail _) as [caps|].
    + destruct IH as (g & -> & Hvis & Hg). exists g.
      split; [done|]. split; [by rewrite Hvis, orb_true_r|].
      rewrite Hg. unfold CheckboxSpec.description. cbn [Js.drop_while].
      by rewrite Hc.
    + rewrite IH, orb_false_r. rewrite group_here_eq.
      destruct (CheckboxSpec.visible c) eqn:Hv; [|done].
      destruct (no_visible_all_space tail IH) as [Hd Ht].
      eexists. split; [done|]. split; [done|].
      cbn [Js.take_while]. rewrite Hv, Ht, (trim_chars_space c Hc).
      unfold CheckboxSpec.description. cbn [Js.drop_while]. by rewrite Hc, Hd.
  - rewrite group_here_eq, (space_or_visible c Hc).
    eexists. split; [done|]. split; [done|].
    unfold CheckboxSpec.description. cbn [Js.drop_while]. by rewrite Hc.
Qed.

(** One attempt of the checkbox expression at the head of [s]. *)
Lemma match_here_checkbox s :
  match match_here true checkbox_re s with
  | Some caps => ∃ g, capture 1 caps = Some g
                    ∧ CheckboxSpec.checkbox_here s = Some (Js.trim_chars g)
  | None => CheckboxSpec.checkbox_here s = None
  end.
Proof.
  unfold match_here, checkbox_re. cbn [run].
  change (cset_mem true CSpace) with Js.is_space.
  destruct s as [|b rest]; [done|].
  rewrite mem_bullet. cbn [CheckboxSpec.checkbox_here].
  destruct (CheckboxSpec.is_bullet b); [|done].
  rewrite star_loop_skip.
  2:{ intros c s' Hc. rewrite mem_open, (space_not_open c Hc). done. }
  destruct (Js.drop_while Js.is_space rest) as [|o [|x [|c tail]]]; cbv beta iota.
  - done.
  - rewrite mem_open. by destruct (bool_decide _).
  - rewrite mem_open, mem_box. by destruct (bool_decide _), (CheckboxSpec.is_box x).
  - rewrite mem_open, mem_box, mem_close.
    destruct (bool_decide (o = "["%char)); [|done].
    destruct (CheckboxSpec.is_box x); [|done].
    destruct (bool_decide (c = "]"%char)); [|done].
    cbn [andb]. pose proof (tail_match tail) as Ht. cbn [run] in Ht.
    destruct (star_loop Js.is_space tail _) as [caps|].
    + destruct Ht as (g & -> & Hvis & Hg). rewrite Hvis. exists g.
      split; [done|]. by rewrite Hg.
    + by rewrite Ht.
Qed.

Lemma search_checkbox line :
  match search true checkbox_re line with
  | Some caps => ∃ g, capture 1 caps = Some g
                    ∧ CheckboxSpec.first_checkbox line = Some (Js.trim_chars g)
  | None => CheckboxSpec.first_checkbox line = None
  end.
Proof.
  induction line as [|c line IH].
  - done.
  - cbn [search CheckboxSpec.first_checkbox].
    pose proof (match_here_checkbox (c :: line)) as Hm.
    destruct (match_here true checkbox_re (c :: line)) as [caps|].
    + destruct Hm as (g & Hg & ->). eauto.
    + rewrite Hm. apply IH.
Qed.

Lemma extract_line_spec line tasks :
  extract_line line tasks
  = Ok (tasks ++ option_list (CheckboxSpec.line_task line)).
Proof.
  unfold extract_line, str_match, CheckboxSpec.line_task, group.
  pose proof (search_checkbox (list_ascii_of_string line)) as Hs.
  destruct (search true checkbox_re _) as [caps|].
  - destruct Hs as (g & -> & ->). simpl. unfold Js.trim.
    by rewrite list_ascii_of_string_of_list_ascii.
  - rewrite Hs. simpl. by rewrite app_nil_r.
Qed.

Lemma extract_loop lines (i : nat) tasks :
  forEach_from (λ line _ tasks, extract_line line tasks) i lines tasks
  = Ok (tasks ++ omap CheckboxSpec.line_task lines).
Proof.
  revert i tasks. induction lines as [|line lines IH]; intros i tasks; simpl.
  - by rewrite app_nil_r.
  - rewrite extract_line_spec. simpl. rewrite IH. f_equal.
    rewrite <-(assoc_L (++)). f_equal.
    by destruct (CheckboxSpec.line_task line).
Qed.
End RegexFacts.

(** Two readings of the scanner: a line that is a bullet, a box and a
    description gives the description, trimmed; a line without a bullet gives
    nothing. *)
Section CheckboxReadings.

Lemma drop_while_idem p s : Js.drop_while p (Js.drop_while p s) = Js.drop_while p s.
Proof.
  induction s as [|c s IH]; simpl; [done|].
  destruct (p c) eqn:Hc; [done|]. simpl. by rewrite Hc.
Qed.

Lemma take_while_all p s : forallb p s = true → Js.take_while p s = s.
Proof.
  induction s as [|c s IH]; simpl; [done|].
  intros [-> Hs]%andb_prop. by rewrite IH.
Qed.

Lemma forallb_drop_while p q s :
  forallb p s = true → forallb p (Js.drop_while q s) = true.
Proof.
  induction s as [|c s IH]; simpl; [done|].
  intros [Hc Hs]%andb_prop. destruct (q c); [by apply IH|].
  simpl. by rewrite Hc, Hs.
Qed.

Lemma first_checkbox_here line d :
  CheckboxSpec.checkbox_here line = Some d →
  CheckboxSpec.first_checkbox line = Some d.
Proof. intros Hd. destruct line; simpl in *; by rewrite Hd. Qed.

Lemma plain_checkbox_line b x desc :
  CheckboxSpec.is_bullet b = true → CheckboxSpec.is_box x = true →
  forallb CheckboxSpec.visible desc = true →
  CheckboxSpec.first_checkbox (b :: " " :: "[" :: x :: "]" :: " " :: desc)%char
  = Some (Js.trim_chars desc).
Proof.
  intros Hb Hx Hd. apply first_checkbox_here.
  unfold CheckboxSpec.checkbox_here. rewrite Hb.
  change (Js.drop_while Js.is_space (" " :: "[" :: x :: "]" :: " " :: desc)%char)
    with ("[" :: x :: "]" :: " " :: desc)%char.
  cbv beta iota. rewrite Hx.
  change (existsb CheckboxSpec.visible (" "%char :: desc)) with true.
  rewrite !bool_decide_eq_true_2 by done. cbn [andb]. f_equal.
  unfold CheckboxSpec.description.
  change (Js.drop_while Js.is_space (" "%char :: desc))
    with (Js.drop_while Js.is_space desc).
  rewrite take_while_all by by apply forallb_drop_while.
  unfold Js.trim_chars, Js.trim_start. by rewrite drop_while_idem.
Qed.

Lemma no_bullet_no_task line :
  forallb (λ c, negb (CheckboxSpec.is_bullet c)) line = true →
  CheckboxSpec.first_checkbox line = None.
Proof.
  induction line as [|c line IH]; [done|]. cbn [forallb].
  intros [Hc Hl]%andb_prop. apply negb_true_iff in Hc.
  cbn [CheckboxSpec.first_checkbox CheckboxSpec.checkbox_here]. rewrite Hc.
  by apply IH.
Qed.

End CheckboxReadings.

Lemma forallb_reverse (p : ascii → bool) s : forallb p (reverse s) = forallb p s.
Proof.
  induction s as [|c s IH]; [done|].
  rewrite reverse_cons, forallb_app, IH. simpl. rewrite andb_true_r. apply andb_comm.
Qed.

Lemma list_ascii_app (a b : string) :
  list_ascii_of_string (a +:+ b) = list_ascii_of_string a ++ list_ascii_of_string b.
Proof. induction a as [|c a IH]; simpl; [done|]. by rewrite IH. Qed.

Lemma split_chars_nonempty sep a : Js.split_chars sep a ≠ [].
Proof.
  destruct a as [|c a]; simpl; [done|].
  destruct (decide (c = sep)); [done|]. by destruct (Js.split_chars sep a).
Qed.

(** The reading of the specification against the scanner of the code. *)
Section TaskWordsFacts.












Local Abbreviation lf := ("010"%char).
Local Abbreviation cr := ("013"%char).














End TaskWordsFacts.




(** One statement of a computation: its first bind is opened. *)
Ltac step := unfold bind at 1.

(** ** Computations that keep what is on disk *)


Section KeepsEntries.

Lemma keeps_ret {A} (a : A) : keeps_entries (ret a).
Proof. intros w p n Hp. done. Qed.

Lemma keeps_bind {A B} (m : M A) (k : A → M B) :
  keeps_entries m → (∀ a, keeps_entries (k a)) → keeps_entries (bind m k).
Proof.
  intros Hm Hk w p n Hp. unfold bind.
  specialize (Hm w p n Hp). destruct (m w) as [[a|e] w']; simpl in *; [|done].
  by apply Hk.
Qed.

Lemma bind_assoc {A B C} (m : M A) (f : A → M B) (k : B → M C) w :
  bind m (λ a, bind (f a) k) w = bind (bind m f) k w.
Proof. unfold bind. by destruct (m w) as [[a|e] w']. Qed.

Lemma keeps_bind_assoc {A B C} (m : M A) (f : A → M B) (k : B → M C) :
  keeps_entries (bind (bind m f) k) → keeps_entries (bind m (λ a, bind (f a) k)).
Proof. intros Hk w p n Hp. rewrite bind_assoc. by apply Hk. Qed.

Lemma keeps_for_of {A} (xs : list A) (body : A → M unit) :
  (∀ x, keeps_entries (body x)) → keeps_entries (for_of xs body).
Proof.
  intros Hb. induction xs as [|x xs IH]; simpl.
  - apply keeps_ret.
  - apply keeps_bind; [apply Hb|]. intros _. apply IH.
Qed.

Lemma mkdirs_keeps base names f f' p n :
  fs_extra.mkdirs base names f = Ok f' → f !! p = Some n → f' !! p = Some n.
Proof.
  revert base f. induction names as [|d names IH]; intros base f Hmk Hp; simpl in Hmk.
  - by injection Hmk as <-.
  - destruct (f !! (base ++ [d])) as [[| |]|] eqn:Hd; try done.
    + eapply IH; eauto.
    + eapply IH; eauto. rewrite lookup_insert_ne; [done|]. intros Heq. subst p. unfold path in *. rewrite Hd in Hp. done.
Qed.

Lemma keeps_ensureDir d : keeps_entries (fs_extra.ensureDir d).
Proof.
  intros w p n Hp. unfold fs_extra.ensureDir.
  destruct (fs_extra.mkdirs [] d (fs w)) as [f'|e] eqn:Hmk; simpl; [|done].
  eapply mkdirs_keeps; eauto.
Qed.

Lemma keeps_pathExists p : keeps_entries (fs_extra.pathExists p).
Proof. intros w q n Hq. done. Qed.

(** [if (!await fs.pathExists(dest)) await fs.writeFile(dest, content)] *)
Lemma keeps_write_if_absent dest content :
  keeps_entries (bind (fs_extra.pathExists dest)
                      (λ e, if e then ret tt else fs_extra.writeFile dest content)).
Proof.
  intros w p n Hp. unfold bind, fs_extra.pathExists, fs_extra.writeFile, ret.
  destruct (fs w !! dest) as [x|] eqn:Hd.
  - rewrite bool_decide_eq_true_2 by eauto. done.
  - rewrite bool_decide_eq_false_2 by (intros [? ?]; congruence).
    destruct (fs_extra.is_dir (fs w) (fs_extra.parent dest)); [|done].
    rewrite Hd. simpl. rewrite lookup_insert_ne; [done|]. intros Heq. subst p.
    unfold path in *. rewrite Hd in Hp. done.
Qed.

End KeepsEntries.

Create HintDb keeps.
#[local] Hint Resolve keeps_ret keeps_ensureDir keeps_pathExists
  keeps_write_if_absent : keeps.

(** Claim C7.  Write-once artifacts: whatever the plan, every entry that is
    on disk before [_writePlanArtifacts] (implement.md and the plan documents
    included) is there unchanged after it; only absent files are created. *)
Theorem C7_write_artifacts_never_overwrites
    (ws : path) (plan : Plan) (w : World) (p : path) (n : node) :
  fs w !! p = Some n →
  fs (Distributor._writePlanArtifacts ws plan w).2 !! p = Some n.
Proof.
  revert w p n. change (keeps_entries (Distributor._writePlanArtifacts ws plan)).
  unfold Distributor._writePlanArtifacts.
  apply keeps_bind; [auto with keeps|]. intros _.
  apply keeps_bind_assoc.
  apply keeps_bind; [auto with keeps|]. intros _.
  apply keeps_for_of. intros [name content]. auto with keeps.
Qed.


(** Two writes with different content: the file of the first write keeps
    its text. *)
Lemma C7_write_artifacts_never_overwrites_witness :
  let w1 := (Distributor._writePlanArtifacts ["w"] planA wA).2 in
  let impl := ["w"; ".planning"; "implement.md"] in
  let text := "# Implementation Tracking" +:+ Js.nl +:+ Js.nl +:+ "- [ ] first" +:+ Js.nl in
  fs w1 !! impl = Some (File text)
  ∧ fs (Distributor._writePlanArtifacts ["w"] planB w1).2 !! impl = Some (File text).
Proof.
  split; [vm_compute; reflexivity|].
  apply C7_write_artifacts_never_overwrites. vm_compute. reflexivity.
Defined.

(** ** Distribution without workers *)

Section NoWorkers.
Context `{Environment}.


(** Claim C6.  No workers available: if the liveness probe finds no
    agent, [run] returns at once.  The session object is unchanged, the
    files are as the probes left them, and the only actions are the section
    header, the four failed probes and the error message: no directory is
    made, no file written, no tmux or git command run. *)
Theorem C6_no_workers_fail_fast (ws : path) (plan : Plan) (w : World) :
  let w0 := emit (EvSection "Task Distribution"
                    (pretty (length (tasks plan)) +:+ " task(s) found")) w in
  (Distributor._detectAgents w0).1 = Ok [] →
  ∃ w', Distributor.run ws plan w = (Ok tt, w')
      ∧ sess w' = sess w
      ∧ fs w' = fs (Distributor._detectAgents w0).2
      ∧ trace w' = trace w
          ++ [ EvSection "Task Distribution"
                 (pretty (length (tasks plan)) +:+ " task(s) found");
               EvExec (probe "gemini") false;
               EvExec (probe "gh") false;
               EvExec (probe "codex") false;
               EvExec (probe "opencode") false;
               EvLog LError "No supported agents found (gemini / copilot / codex / opencode). Install at least one." ].
Proof.
  intros w0. unfold Distributor.run.
  step. unfold log.section at 1. fold w0.
  step.
  unfold Distributor._detectAgents, JsObject.entries, AGENTS.
  cbn [agent_bin]. unfold try_catch, bind, execa, ret.
  destruct (spawn w0 _) as [[] f1] eqn:E1; cbn [fst snd];
  match goal with |- context [spawn ?w ?c] =>
    destruct (spawn w c) as [[] f2] eqn:E2 end; cbn [fst snd];
  match goal with |- context [spawn ?w ?c] =>
    destruct (spawn w c) as [[] f3] eqn:E3 end; cbn [fst snd];
  match goal with |- context [spawn ?w ?c] =>
    destruct (spawn w c) as [[] f4] eqn:E4 end; cbn [fst snd];
  intros Hnone; try discriminate Hnone.
  eexists. split; [reflexivity|].
  cbn. rewrite <-!(assoc_L (++)). done.
Qed.
End NoWorkers.

(** ** The first line of a prompt *)

Section GeminiCommand.

Lemma escape_quotes_app a b :
Distributor.escape_quotes (a +:+ b)
= Distributor.escape_quotes a +:+ Distributor.escape_quotes b.
Proof.
unfold Distributor.escape_quotes. rewrite list_ascii_app, flat_map_app.
induction (flat_map _ (list_ascii_of_string a)) as [|c l IH]; [done|].
simpl. change (String c ?x +:+ ?y) with (String c (x +:+ y)). by rewrite IH.
Qed.

Lemma split_chars_head sep a b :
sep ∉ a → head (Js.split_chars sep (a ++ sep :: b)) = Some a.
Proof.
induction a as [|c a IH]; intros Hsep; simpl.
- by rewrite decide_True.
- rewrite decide_False by (intros ->; apply Hsep; by left).
  assert (sep ∉ a) as Ha by (intros ?; apply Hsep; by right).
  specialize (IH Ha). destruct (Js.split_chars sep (a ++ sep :: b)); [done|].
  simpl in IH. by injection IH as ->.
Qed.

Lemma first_line_app (a b : string) :
"010"%char ∉ list_ascii_of_string a →
Distributor.first_line (a +:+ Js.nl +:+ b) = a.
Proof.
intros Ha. unfold Distributor.first_line, Js.split.
rewrite !list_ascii_app. change (list_ascii_of_string Js.nl) with ["010"%char].
change (["010"%char] ++ ?x) with ("010"%char :: x).
destruct (Js.split_chars _ _) as [|p ps] eqn:Hs.
- by apply split_chars_nonempty in Hs.
- pose proof (split_chars_head "010"%char _ (list_ascii_of_string b) Ha) as Hh.
  rewrite Hs in Hh. injection Hh as ->. simpl.
  apply string_of_list_ascii_of_string.
Qed.

Lemma join_cons sep x (rest : list string) :
rest ≠ [] → Js.join sep (x :: rest) = x +:+ sep +:+ Js.join sep rest.
Proof. by destruct rest. Qed.

(** The first line of the prompt of gemini, quotes escaped, is its title:
  the tasks are not in it. *)
Lemma gemini_first_line ws tasks plan :
Distributor.first_line
  (Distributor.escape_quotes (Distributor._buildAgentPrompt ws "gemini" tasks plan))
= "# Zeroclaw Task Assignment — gemini".
Proof.
unfold Distributor._buildAgentPrompt.
set (rest := [ _ ; _ ; _ ; _ ; _ ; _ ; _ ; _ ; _ ; _ ; _ ; _ ; _ ; _ ; _ ; _ ; _
             ; _ ; _ ; _ ; _ ; _ ; _ ; _ ; _ ; _ ; _ ; _ ]).
rewrite (join_cons Js.nl _ rest) by done.
rewrite !escape_quotes_app.
change (Distributor.escape_quotes Js.nl) with Js.nl.
rewrite first_line_app; [by vm_compute|].
vm_compute. intros Hin. repeat (apply elem_of_cons in Hin as [Hin|Hin]; [discriminate|]).
by apply elem_of_nil in Hin.
Qed.

End GeminiCommand.

Section Launcher.
Context `{Environment}.
Hypothesis Htmux : tmux_works.
Variable ws : path.

Lemma execa_tmux a w :
  head a ≠ Some "kill-session" →
  execa "tmux" a None None w = (Ok tt, emit (EvExec (tmux a) true) w).
Proof.
  intros Ha. unfold execa.
  destruct (Htmux w (Command "tmux" a None None) eq_refl) as [Hfs Hok].
  specialize (Hok Ha). destruct (spawn w _) as [ok f]. simpl in *. subst.
  by destruct w.
Qed.

(** The session of an earlier launch is ended when there is one; when
    there is none the failure is caught. *)
Lemma kill_session_ok sn w :
  ∃ ok, try_catch (execa "tmux" ["kill-session"; "-t"; sn] None None) (λ _, ret tt) w
        = (Ok tt, emit (EvExec (tmux ["kill-session"; "-t"; sn]) ok) w).
Proof.
  unfold try_catch, execa.
  destruct (Htmux w (Command "tmux" ["kill-session"; "-t"; sn] None None) eq_refl)
    as [Hfs _].
  destruct (spawn w _) as [ok f]. simpl in *. subst. exists ok.
  destruct w. by destruct ok.
Qed.


Lemma is_dir_lookup (f : gmap path node) p : f !! p = Some Dir → fs_extra.is_dir f p = true.
Proof. intros Hp. unfold fs_extra.is_dir. destruct p; [done|]. by rewrite Hp. Qed.

Lemma parent_brief a : fs_extra.parent (ws ++ [".zeroclaw"; a +:+ "-task.md"]) = ws ++ [".zeroclaw"].
Proof.
  unfold fs_extra.parent.
  change (ws ++ [".zeroclaw"; a +:+ "-task.md"])
    with (ws ++ [".zeroclaw"] ++ [a +:+ "-task.md"]).
  rewrite (assoc_L (++)). apply removelast_last.
Qed.

Lemma string_length_app (a b : string) :
  String.length (a +:+ b) = (String.length a + String.length b)%nat.
Proof. induction a as [|c a IH]; simpl; [done|]. by rewrite IH. Qed.

Lemma append_inj_r (a b s : string) : a +:+ s = b +:+ s → a = b.
Proof.
  intros Heq.
  assert (String.length a = String.length b) as Hlen.
  { apply (f_equal String.length) in Heq. rewrite !string_length_app in Heq. lia. }
  revert b Heq Hlen. induction a as [|c a IH]; intros [|d b] Heq Hlen; simpl in *; try done.
  injection Heq as -> Heq. f_equal. apply IH; [done|lia].
Qed.

Lemma writeFile_ok p c w :
  fs_extra.is_dir (fs w) (fs_extra.parent p) = true →
  match fs w !! p with Some Dir | Some (Link _) => False | _ => True end →
  fs_extra.writeFile p c w
  = (Ok tt, emit (EvWrite p c) (set_fs (<[p:=File c]> (fs w)) w)).
Proof.
  intros Hd Hp. unfold fs_extra.writeFile. rewrite Hd.
  by destruct (fs w !! p) as [[| |]|].
Qed.




Lemma statusScript_ok plan w :
  ∃ script, Distributor._statusScript ws plan w = (Ok script, w).
Proof.
  unfold Distributor._statusScript, bind, get_sess, ret.
  destruct (JsObject.get "ROADMAP.md" (files plan)) as [c|]; [|by eexists].
  destruct (negb (bool_decide (c = ""))); by eexists.
Qed.

End Launcher.

Section SessionFacts.
Context `{Environment} `{JsonCodec}.

Lemma strict_ne_string_spec v s :
  strict_ne_string v s = true ↔ v ≠ Some (JStr s).
Proof.
  unfold strict_ne_string. destruct v as [[]|]; try (split; [discriminate|done]).
  rewrite negb_true_iff, bool_decide_eq_false. split; [congruence|].
  intros Hne ->. done.
Qed.

Lemma strict_ne_string_false v s :
  strict_ne_string v s = false → v = Some (JStr s).
Proof.
  unfold strict_ne_string. destruct v as [[]|]; try discriminate.
  rewrite negb_false_iff, bool_decide_eq_true. by intros ->.
Qed.

Lemma pathExists_eq p w :
  fs_extra.pathExists p w = (Ok (bool_decide (is_Some (fs w !! p))), w).
Proof. done. Qed.

Lemma readJson_file p text w :
  fs w !! p = Some (File text) →
  fs_extra.readJson p w
  = match JSON_parse text with
    | Some v => (Ok v, w)
    | None => (Throw (SyntaxError (path_str p +:+ ": not valid JSON")), w)
    end.
Proof.
  intros Hp. unfold fs_extra.readJson, bind, fs_extra.readFile. rewrite Hp.
  by destruct (JSON_parse text).
Qed.

(** [_saveState] after the document has been looked at. *)
Lemma saveState_active (w : World) :
  SessionM._saveState [("status", Some (JStr "active"));
                       ("startedAt", Some (JStr (clock w)))] w
  = fs_extra.writeFile (stateFile (sess w)) (active_document (sess w) (clock w)) w.
Proof. done. Qed.

Lemma saveState_id (extra : list (string * jsval)) w :
  id (sess (SessionM._saveState extra w).2) = id (sess w).
Proof.
  unfold SessionM._saveState, bind, get_sess, fs_extra.writeJson, fs_extra.writeFile.
  destruct (fs_extra.is_dir _ _); [|done].
  by destruct (fs w !! stateFile (sess w)) as [[| |]|].
Qed.

(** The three courses of [_loadOrInitState]. *)
Lemma load_resumes w text prev status pid :
  fs w !! stateFile (sess w) = Some (File text) →
  JSON_parse text = Some prev →
  get_prop prev "status" = Ok status → status ≠ Some (JStr "ended") →
  get_prop prev "id" = Ok pid →
  let w1 := set_sess (with_id pid (sess w))
              (emit (EvLog LWarn ("Resuming unfinished session: " +:+ to_string pid)) w) in
  SessionM._loadOrInitState w
  = fs_extra.writeFile (stateFile (sess w)) (active_document (sess w1) (clock w1)) w1.
Proof.
  intros Hf Hp Hst Hne Hid w1. unfold SessionM._loadOrInitState.
  step. unfold get_sess at 1.
  step. step. rewrite pathExists_eq.
  rewrite bool_decide_eq_true_2 by eauto.
  step. rewrite (readJson_file _ text) by done. rewrite Hp.
  step. unfold lift at 1. rewrite Hst.
  apply strict_ne_string_spec in Hne. rewrite Hne.
  step. unfold lift at 1. rewrite Hid.
  step. unfold log.warn.
  step. unfold get_sess at 1.
  unfold put_sess. step. unfold get_world.
  fold (with_id pid (sess w)). cbn [sess emit]. fold w1.
  by rewrite saveState_active.
Qed.

Lemma load_ended w text prev :
  fs w !! stateFile (sess w) = Some (File text) →
  JSON_parse text = Some prev →
  get_prop prev "status" = Ok (Some (JStr "ended")) →
  SessionM._loadOrInitState w
  = fs_extra.writeFile (stateFile (sess w)) (active_document (sess w) (clock w)) w.
Proof.
  intros Hf Hp Hst. unfold SessionM._loadOrInitState.
  step. unfold get_sess at 1.
  step. step. rewrite pathExists_eq.
  rewrite bool_decide_eq_true_2 by eauto.
  step. rewrite (readJson_file _ text) by done. rewrite Hp.
  step. unfold lift at 1. rewrite Hst. cbn [strict_ne_string].
  rewrite bool_decide_eq_true_2 by done. cbn [negb]. unfold ret.
  step. unfold get_world. by rewrite saveState_active.
Qed.

Lemma load_absent w :
  fs w !! stateFile (sess w) = None →
  SessionM._loadOrInitState w
  = fs_extra.writeFile (stateFile (sess w)) (active_document (sess w) (clock w)) w.
Proof.
  intros Hf. unfold SessionM._loadOrInitState.
  step. unfold get_sess at 1.
  step. step. rewrite pathExists_eq.
  rewrite bool_decide_eq_false_2 by (rewrite Hf; intros [? ?]; done).
  unfold ret. step. unfold get_world. by rewrite saveState_active.
Qed.

Lemma load_unreadable w :
  unreadable (fs w) (stateFile (sess w)) →
  ∃ e, SessionM._loadOrInitState w = (Throw e, w).
Proof.
  intros Hu. unfold SessionM._loadOrInitState.
  step. unfold get_sess at 1.
  step. step. rewrite pathExists_eq.
  step.
  destruct Hu as [Hd|(text & Hf & Hp)].
  - rewrite bool_decide_eq_true_2 by eauto.
    unfold fs_extra.readJson, bind, fs_extra.readFile. rewrite Hd. eauto.
  - rewrite bool_decide_eq_true_2 by eauto.
    rewrite (readJson_file _ text) by done. rewrite Hp. eauto.
Qed.

Lemma load_link w target :
  fs w !! stateFile (sess w) = Some (Link target) →
  ∃ e, SessionM._loadOrInitState w = (Throw e, w).
Proof.
  intros Hl. unfold SessionM._loadOrInitState.
  step. unfold get_sess at 1.
  step. step. rewrite pathExists_eq.
  step. rewrite bool_decide_eq_true_2 by eauto.
  unfold fs_extra.readJson, bind, fs_extra.readFile. rewrite Hl. eauto.
Qed.

Lemma load_no_status w text prev e :
  fs w !! stateFile (sess w) = Some (File text) →
  JSON_parse text = Some prev →
  get_prop prev "status" = Throw e →
  SessionM._loadOrInitState w = (Throw e, w).
Proof.
  intros Hf Hp Hst. unfold SessionM._loadOrInitState.
  step. unfold get_sess at 1.
  step. step. rewrite pathExists_eq.
  rewrite bool_decide_eq_true_2 by eauto.
  step. rewrite (readJson_file _ text) by done. rewrite Hp.
  step. unfold lift at 1. rewrite Hst. done.
Qed.

Lemma writeFile_Ok (p : path) c w w' :
  fs_extra.writeFile p c w = (Ok tt, w') →
  w' = emit (EvWrite p c) (set_fs (<[p := File c]> (fs w)) w)
  ∧ fs_extra.is_dir (fs w) (fs_extra.parent p) = true.
Proof.
  unfold fs_extra.writeFile. destruct (fs_extra.is_dir _ _); [|done].
  destruct (fs w !! p) as [[| |]|]; try done; by intros [= <-].
Qed.

(** When [_loadOrInitState] returns, the document was absent or held JSON
    text, and a document with status active is there. *)
Lemma load_returns w w' :
  SessionM._loadOrInitState w = (Ok tt, w') →
  (fs w !! stateFile (sess w) = None
   ∨ ∃ text prev, fs w !! stateFile (sess w) = Some (File text)
                  ∧ JSON_parse text = Some prev)
  ∧ ∃ now, fs w' !! stateFile (sess w)
           = Some (File (active_document (sess w') now)).
Proof.
  destruct (fs w !! stateFile (sess w)) as [[|text|target]|] eqn:Hf.
  - destruct (load_unreadable w) as [e ->]; [by left|]. done.
  - destruct (JSON_parse text) as [prev|] eqn:Hp.
    + destruct (get_prop prev "status") as [status|e] eqn:Hst.
      * assert (∃ pid, get_prop prev "id" = Ok pid) as [pid Hid].
        { destruct prev; try (eexists; reflexivity). discriminate Hst. }
        destruct (strict_ne_string status "ended") eqn:Hne.
        -- apply strict_ne_string_spec in Hne.
           rewrite (load_resumes w text prev status pid) by done.
           intros [-> _]%writeFile_Ok. split; [right; eauto|].
           eexists. cbn. by rewrite lookup_insert_eq.
        -- apply strict_ne_string_false in Hne as ->.
           rewrite (load_ended w text prev) by done.
           intros [-> _]%writeFile_Ok. split; [right; eauto|].
           eexists. cbn. by rewrite lookup_insert_eq.
      * by rewrite (load_no_status w text prev e).
    + destruct (load_unreadable w) as [e ->]; [right; eauto|]. done.
  - destruct (load_link w target Hf) as [e ->]. done.
  - rewrite (load_absent w) by done.
    intros [-> _]%writeFile_Ok. split; [by left|].
    eexists. cbn. by rewrite lookup_insert_eq.
Qed.


Lemma writeFile_over_file p c c0 w :
  fs w !! p = Some (File c0) → fs_extra.is_dir (fs w) (fs_extra.parent p) = true →
  fs_extra.writeFile p c w
  = (Ok tt, emit (EvWrite p c) (set_fs (<[p:=File c]> (fs w)) w)).
Proof. intros Hp Hd. apply writeFile_ok; [done|]. by rewrite Hp. Qed.
End SessionFacts.



(** Claim C9, as the code has it.  If the session-state document exists but
    cannot be read (it is a directory, or its text is not JSON),
    [_loadOrInitState] throws the read error and leaves the session, the files
    and the trace as they were: no fresh state is written and the startup
    does not go on.  Whenever [_loadOrInitState] returns, on a state path
    that is not a symbolic link, the document was absent or held JSON text,
    and a document with status active has been written; in particular fresh
    state under the generated identifier is written when no document
    exists. *)
Theorem C9_unreadable_state_stops_startup `{Environment} `{JsonCodec} (w : World) :
  let sf := stateFile (sess w) in
  let doc := active_document (sess w) (clock w) in
  (unreadable (fs w) sf → ∃ e, SessionM._loadOrInitState w = (Throw e, w))
  ∧ (∀ w', (∀ target, fs w !! sf ≠ Some (Link target)) →
       SessionM._loadOrInitState w = (Ok tt, w') →
       (fs w !! sf = None
        ∨ ∃ text prev, fs w !! sf = Some (File text) ∧ JSON_parse text = Some prev)
       ∧ ∃ now, fs w' !! sf = Some (File (active_document (sess w') now)))
  ∧ (fs w !! sf = None → fs_extra.is_dir (fs w) (fs_extra.parent sf) = true →
     SessionM._loadOrInitState w
     = (Ok tt, emit (EvWrite sf doc) (set_fs (<[sf := File doc]> (fs w)) w))).
Proof.
  intros sf doc. split; [|split].
  - apply load_unreadable.
  - intros w' _. apply load_returns.
  - intros Hf Hd. rewrite (load_absent w) by done.
    apply writeFile_ok; [done|]. subst sf. by rewrite Hf.
Qed.

(** A document cut short stops the start of the session. *)
Lemma C9_unreadable_state_stops_startup_witness :
  unreadable (codec := Json.codec) (fs corrupted) (stateFile (sess corrupted))
  ∧ ∃ e, @SessionM._loadOrInitState two_agents Json.codec corrupted = (Throw e, corrupted).
Proof.
  assert (unreadable (codec := Json.codec) (fs corrupted) (stateFile (sess corrupted))) as Hu.
  { right. exists "{". split; vm_compute; reflexivity. }
  split; [exact Hu|].
  apply (proj1 (@C9_unreadable_state_stops_startup two_agents Json.codec corrupted)).
  exact Hu.
Defined.

(** Claim C9, as the specification has it, fails: with a session-state
    document that holds an opening brace and nothing else, [_loadOrInitState]
    throws a SyntaxError instead of creating fresh state. *)
Lemma C9_malformed_state_is_fatal :
  unreadable (codec := Json.codec) (fs corrupted) (stateFile (sess corrupted))
  ∧ (∃ msg, @SessionM._loadOrInitState two_agents Json.codec corrupted
             = (Throw (SyntaxError msg), corrupted))
  ∧ ¬ ∃ w', @SessionM._loadOrInitState two_agents Json.codec corrupted = (Ok tt, w').
Proof.
  assert (@SessionM._loadOrInitState two_agents Json.codec corrupted
          = (Throw (SyntaxError "/w/.zeroclaw/session.json: not valid JSON"),
             corrupted)) as Hrun by (vm_compute; reflexivity).
  split; [|split; [eexists; exact Hrun|]].
  - right. exists "{". split; vm_compute; reflexivity.
  - intros [w' Hw']. rewrite Hrun in Hw'. discriminate.
Qed.

(** No agent is installed: the distribution of a plan of one task. *)
Lemma C6_no_workers_fail_fast_witness :
  let w0 := emit (EvSection "Task Distribution" "1 task(s) found") wA in
  (@Distributor._detectAgents no_agents w0).1 = Ok []
  ∧ ∃ w', @Distributor.run no_agents ["w"] planA wA = (Ok tt, w')
        ∧ sess w' = sess wA
        ∧ fs w' = fs (@Distributor._detectAgents no_agents w0).2
        ∧ trace w' = trace wA
            ++ [ EvSection "Task Distribution" "1 task(s) found";
                 EvExec (probe "gemini") false;
                 EvExec (probe "gh") false;
                 EvExec (probe "codex") false;
                 EvExec (probe "opencode") false;
                 EvLog LError "No supported agents found (gemini / copilot / codex / opencode). Install at least one." ].
Proof.
  intros w0. split; [vm_compute; reflexivity|].
  apply (@C6_no_workers_fail_fast no_agents ["w"] planA wA).
  vm_compute. reflexivity.
Defined.

(** The project and phase reader never returns a plan without tasks. *)
Lemma readGSDPlan_has_tasks `{Environment} ws ph w plan w' :
  Planner._readGSDPlan ws ph w = (Ok (Some plan), w') → tasks plan ≠ [].
Proof.
  unfold Planner._readGSDPlan. step.
  destruct (Planner.read_files _ _ _ w) as [[files|e] w1]; [|done].
  step.
  match goal with |- context [match ?m w1 with _ => _ end] =>
    destruct (m w1) as [[ts|e] w2] end; [|done].
  destruct (decide (length ts = 0)) as [Hz|Hnz]; [done|].
  unfold ret. intros [= <- <-]. simpl. intros ->. done.
Qed.

(** Claim C4 fails for quick plans.  A plan document that holds notes and no
    checkbox line is read as null by [_readGSDPlan]; the same document as a
    quick plan is returned by [_readQuickPlan] as a plan with an empty task
    list, and [dispatch] hands it to the distributor: the section header
    counts 0 tasks and a window is opened for every available agent. *)
Theorem C4_quick_plan_without_tasks_is_distributed :
  let ctx := MkContext "fix the login test" "new_task" in
  (@Planner._readGSDPlan ["w"] None project_notes).1 = Ok None
  ∧ (@Planner._readQuickPlan ["w"] quick_notes).1
    = Ok (Some (MkPlan "quick" None [] [("PLAN.md", "Investigate the flaky login test")]))
  ∧ (let w' := (@SessionM.dispatch two_agents "new_task" ctx quick_notes).2 in
     sections (trace w')
     = [("Planning Phase", "New task/feature"); ("Task Distribution", "0 task(s) found")]
     ∧ window_attempts (trace w') = [("gemini", true); ("codex", true)]).
Proof. vm_compute. done. Qed.

(** Claim C8 fails.  When every tmux command succeeds, the windows of both
    agents are created.  When the window of gemini cannot be created,
    [run] throws the error of that command and the window of codex is never
    attempted, although [_tmuxNewPane], which runs the same two commands for
    the resume pane, catches such an error and returns. *)
Theorem C8_launch_failure_aborts_the_batch :
  let w := test_world (scaffold []) session0 in
  (let '(r, w') := @Distributor.run two_agents ["w"] two_tasks w in
   r = Ok tt ∧ window_attempts (trace w') = [("gemini", true); ("codex", true)])
  ∧ (let '(r, w') := @Distributor.run gemini_window_fails ["w"] two_tasks w in
     r = Throw (ExecError "tmux" ["new-window"; "-t"; "zeroclaw"; "-n"; "gemini"])
     ∧ window_attempts (trace w') = [("gemini", false)])
  ∧ (@Distributor._tmuxNewPane gemini_window_fails "gemini" "gemini" None w).1 = Ok tt.
Proof. vm_compute. done. Qed.

(** The liveness probe always returns, and what it returns is a part of the
    catalog, in catalog order. *)
Lemma detectAgents_catalog `{Environment} (w : World) :
  ∃ available w', Distributor._detectAgents w = (Ok available, w')
    ∧ sublist available (JsObject.keys AGENTS)
    ∧ sess w' = sess w.
Proof.
  unfold Distributor._detectAgents, JsObject.entries, AGENTS.
  cbn [agent_bin]. unfold try_catch, bind, execa, ret.
  destruct (spawn w _) as [[] f1] eqn:E1;
  match goal with |- context [spawn ?w ?c] =>
    destruct (spawn w c) as [[] f2] eqn:E2 end;
  match goal with |- context [spawn ?w ?c] =>
    destruct (spawn w c) as [[] f3] eqn:E3 end;
  match goal with |- context [spawn ?w ?c] =>
    destruct (spawn w c) as [[] f4] eqn:E4 end;
  eexists _, _; (split; [reflexivity|]); (split; [|reflexivity]);
  cbn; repeat (first [apply sublist_nil | apply sublist_skip | apply sublist_cons]).
Qed.

Lemma catalog_available `{Environment} (w : World) available w' :
  Distributor._detectAgents w = (Ok available, w') →
  Forall (λ a, is_Some (JsObject.get a AGENTS)) available ∧ NoDup available.
Proof.
  intros Hrun. destruct (detectAgents_catalog w) as (l & w1 & Hrun' & Hsub & _).
  rewrite Hrun in Hrun'. injection Hrun' as <- <-. split.
  - apply Forall_forall. intros a Ha. apply get_is_Some_keys.
    eapply elem_of_sublist; eauto.
  - eapply sublist_NoDup; [|exact Hsub].
    apply (bool_decide_unpack _). by vm_compute.
Qed.

(** The names of the catalog are plain keys: an object keyed by them lists
    them in the order of creation. *)
Lemma catalog_plain_keys (available : list string) :
  Forall (λ a, is_Some (JsObject.get a AGENTS)) available →
  Forall plain_key available.
Proof.
  intros Hreg. eapply Forall_impl; [exact Hreg|].
  intros a Ha. apply get_is_Some_keys in Ha.
  revert Ha. unfold JsObject.keys, AGENTS. cbn.
  rewrite !elem_of_cons, elem_of_nil.
  intros [->|[->|[->|[->|[]]]]]; split; done.
Qed.


Lemma two_agents_tmux_works : @tmux_works two_agents.
Proof. intros w c Hc. split; [done|]. intros _. cbn. by rewrite Hc. Qed.



(** ** Computations that leave the session alone *)

Section KeepsSession.
Context `{Environment}.

Lemma ks_ret {A} (a : A) : keeps_session (ret a).
Proof. intros w. done. Qed.

Lemma ks_throw {A} e : keeps_session (@throw A e).
Proof. intros w. done. Qed.

Lemma ks_lift {A} (r : result A) : keeps_session (lift r).
Proof. intros w. done. Qed.

Lemma ks_bind {A B} (m : M A) (k : A → M B) :
keeps_session m → (∀ a, keeps_session (k a)) → keeps_session (bind m k).
Proof.
intros Hm Hk w. unfold bind. specialize (Hm w).
destruct (m w) as [[a|e] w']; simpl in *; [|done]. by rewrite Hk.
Qed.

Lemma ks_try {A} (body : M A) handler :
keeps_session body → (∀ e, keeps_session (handler e)) →
keeps_session (try_catch body handler).
Proof.
intros Hb Hh w. unfold try_catch. specialize (Hb w).
destruct (body w) as [[a|e] w']; simpl in *; [done|]. by rewrite Hh.
Qed.

Lemma ks_for_of {A} (xs : list A) body :
(∀ x, keeps_session (body x)) → keeps_session (for_of xs body).
Proof.
intros Hb. induction xs as [|x xs IH]; simpl; [apply ks_ret|].
apply ks_bind; [apply Hb|]. intros _. apply IH.
Qed.

Lemma ks_get_sess : keeps_session get_sess.
Proof. intros w. done. Qed.

Lemma ks_get_world : keeps_session get_world.
Proof. intros w. done. Qed.

Lemma ks_log_info msg : keeps_session (log.info msg).
Proof. intros w. done. Qed.
Lemma ks_log_done msg : keeps_session (log.done msg).
Proof. intros w. done. Qed.
Lemma ks_log_warn msg : keeps_session (log.warn msg).
Proof. intros w. done. Qed.
Lemma ks_log_error msg : keeps_session (log.error msg).
Proof. intros w. done. Qed.
Lemma ks_log_section t s : keeps_session (log.section t s).
Proof. intros w. done. Qed.
Lemma ks_log_spinner msg : keeps_session (log.spinner msg).
Proof. intros w. done. Qed.

Lemma ks_execa b a d i : keeps_session (execa b a d i).
Proof. intros w. unfold execa. by destruct (spawn w _) as [[] f]. Qed.

Lemma ks_pathExists p : keeps_session (fs_extra.pathExists p).
Proof. intros w. done. Qed.

Lemma ks_ensureDir p : keeps_session (fs_extra.ensureDir p).
Proof. intros w. unfold fs_extra.ensureDir. by destruct (fs_extra.mkdirs _ _ _). Qed.

Lemma ks_readFile p : keeps_session (fs_extra.readFile p).
Proof. intros w. unfold fs_extra.readFile. by destruct (fs w !! p) as [[| |]|]. Qed.

Lemma ks_writeFile p c : keeps_session (fs_extra.writeFile p c).
Proof.
intros w. unfold fs_extra.writeFile. destruct (fs_extra.is_dir _ _); [|done].
by destruct (fs w !! p) as [[| |]|].
Qed.

Lemma ks_symlink t p : keeps_session (fs_extra.symlink t p).
Proof.
intros w. unfold fs_extra.symlink. destruct (fs_extra.is_dir _ _); [|done].
by destruct (fs w !! p).
Qed.

Lemma ks_readdir p : keeps_session (fs_extra.readdir p).
Proof. intros w. unfold fs_extra.readdir. by destruct (fs_extra.is_dir _ _). Qed.

End KeepsSession.

Create HintDb session.
#[local] Hint Resolve ks_ret ks_throw ks_lift ks_get_sess ks_get_world
  ks_log_info ks_log_done ks_log_warn ks_log_error ks_log_section ks_log_spinner
  ks_execa ks_pathExists ks_ensureDir ks_readFile ks_writeFile ks_symlink
  ks_readdir : session.

(** The structure of a computation is followed down to its primitive
    statements. *)
Ltac keeps_session :=
  repeat first
    [ progress auto with session
    | apply ks_bind; [|intros ?]
    | apply ks_try; [|intros ?]
    | apply ks_for_of; intros ?
    | match goal with
      | |- keeps_session (if ?b then _ else _) => destruct b
      | |- keeps_session (match ?x with _ => _ end) => destruct x
      | |- keeps_session (let (_, _) := ?x in _) => destruct x
      end ].

Section SessionInvariance.
Context `{Environment}.

Lemma ks_detectAgents : keeps_session Distributor._detectAgents.
Proof.
unfold Distributor._detectAgents, JsObject.entries, AGENTS. keeps_session.
Qed.

Lemma ks_tmuxNewPane n c s : keeps_session (Distributor._tmuxNewPane n c s).
Proof. unfold Distributor._tmuxNewPane. keeps_session. Qed.

Lemma ks_superpowersLink a c s : keeps_session (Distributor._superpowersLink a c s).
Proof. unfold Distributor._superpowersLink. keeps_session. Qed.

Lemma ks_ensureSuperpowers a : keeps_session (Distributor._ensureSuperpowers a).
Proof.
unfold Distributor._ensureSuperpowers.
pose proof ks_superpowersLink. keeps_session.
Qed.

Lemma ks_writePlanArtifacts ws plan : keeps_session (Distributor._writePlanArtifacts ws plan).
Proof. unfold Distributor._writePlanArtifacts. keeps_session. Qed.

Lemma ks_launchAgentPane ws s a p i : keeps_session (Distributor._launchAgentPane ws s a p i).
Proof. unfold Distributor._launchAgentPane. keeps_session. Qed.

Lemma ks_launch_panes ws s plan es i : keeps_session (Distributor.launch_panes ws s plan es i).
Proof.
revert i. induction es as [|[a ts] es IH]; intros i; simpl; [apply ks_ret|].
apply ks_bind; [apply ks_launchAgentPane|]. intros _. apply IH.
Qed.

Lemma ks_statusScript ws plan : keeps_session (Distributor._statusScript ws plan).
Proof. unfold Distributor._statusScript. keeps_session. Qed.

Lemma ks_launchTmux ws asg plan : keeps_session (Distributor._launchTmux ws asg plan).
Proof.
unfold Distributor._launchTmux.
pose proof ks_launch_panes. pose proof ks_statusScript. keeps_session.
Qed.

Lemma ks_run ws plan : keeps_session (Distributor.run ws plan).
Proof.
unfold Distributor.run.
pose proof ks_detectAgents. pose proof ks_ensureSuperpowers.
pose proof ks_writePlanArtifacts. pose proof ks_launchTmux.
keeps_session.
Qed.

Lemma ks_resumeFromState : keeps_session Distributor.resumeFromState.
Proof.
unfold Distributor.resumeFromState.
pose proof ks_detectAgents. pose proof ks_ensureSuperpowers.
pose proof ks_tmuxNewPane. keeps_session.
Qed.

End SessionInvariance.

Section PlannerSessionInvariance.
Context `{Environment}.

Lemma ks_detectRuntime : keeps_session Planner._detectRuntime.
Proof. unfold Planner._detectRuntime. keeps_session. Qed.

Lemma ks_ensureGSD ws : keeps_session (Planner._ensureGSD ws).
Proof. unfold Planner._ensureGSD. pose proof ks_detectRuntime. keeps_session. Qed.

Lemma ks_gsdCommand ws c a i : keeps_session (Planner._gsdCommand ws c a i).
Proof. unfold Planner._gsdCommand. pose proof ks_detectRuntime. keeps_session. Qed.

Lemma ks_read_files base names files : keeps_session (Planner.read_files base names files).
Proof.
revert files. induction names as [|n names IH]; intros files; simpl; keeps_session.
Qed.

Lemma ks_readGSDPlan ws ph : keeps_session (Planner._readGSDPlan ws ph).
Proof. unfold Planner._readGSDPlan. pose proof ks_read_files. keeps_session. Qed.

Lemma ks_readQuickPlan ws : keeps_session (Planner._readQuickPlan ws).
Proof. unfold Planner._readQuickPlan. keeps_session. Qed.

Lemma ks_nextPhase ws : keeps_session (Planner._nextPhase ws).
Proof. unfold Planner._nextPhase. keeps_session. Qed.

Lemma ks_planner_run ws ctx : keeps_session (Planner.run ws ctx).
Proof.
unfold Planner.run, Planner._runNewProject, Planner._runNewTask.
pose proof ks_ensureGSD. pose proof ks_gsdCommand. pose proof ks_readGSDPlan.
pose proof ks_readQuickPlan. pose proof ks_nextPhase. keeps_session.
Qed.

(** Property X1.  [dispatch] never changes the session object: not its identifier, and not
  its state field, which stays as the constructor set it. *)
Theorem dispatch_keeps_session intent ctx : keeps_session (SessionM.dispatch intent ctx).
Proof.
unfold SessionM.dispatch.
pose proof ks_planner_run. pose proof ks_run. pose proof ks_resumeFromState.
keeps_session.
Qed.

End PlannerSessionInvariance.

(** ** Computations whose failures never reach the caller *)

Section NeverThrows.
Context `{Environment}.

Lemma nt_ret {A} (a : A) : never_throws (ret a).
Proof. intros w. by eexists _, _. Qed.

Lemma nt_bind {A B} (m : M A) (k : A → M B) :
never_throws m → (∀ a, never_throws (k a)) → never_throws (bind m k).
Proof.
intros Hm Hk w. destruct (Hm w) as (a & w' & Hw). unfold bind. rewrite Hw.
apply Hk.
Qed.

(** A bind whose continuation is safe on what the first part can return. *)
Lemma nt_bind_post {A B} (P : A → Prop) (m : M A) (k : A → M B) :
(∀ w, ∃ a w', m w = (Ok a, w') ∧ P a) → (∀ a, P a → never_throws (k a)) →
never_throws (bind m k).
Proof.
intros Hm Hk w. destruct (Hm w) as (a & w' & Hw & Ha). unfold bind. rewrite Hw.
by apply Hk.
Qed.

Lemma nt_try {A} (body : M A) handler :
(∀ e, never_throws (handler e)) → never_throws (try_catch body handler).
Proof.
intros Hh w. unfold try_catch. destruct (body w) as [[a|e] w'].
- by eexists _, _.
- apply Hh.
Qed.

Lemma nt_for_of {A} (xs : list A) body :
(∀ x, x ∈ xs → never_throws (body x)) → never_throws (for_of xs body).
Proof.
induction xs as [|x xs IH]; intros Hb; simpl; [apply nt_ret|].
apply nt_bind; [apply Hb; by left|]. intros _. apply IH.
intros y Hy. apply Hb. by right.
Qed.

Lemma nt_log_info msg : never_throws (log.info msg).
Proof. intros w. by eexists _, _. Qed.
Lemma nt_log_done msg : never_throws (log.done msg).
Proof. intros w. by eexists _, _. Qed.
Lemma nt_log_warn msg : never_throws (log.warn msg).
Proof. intros w. by eexists _, _. Qed.
Lemma nt_log_error msg : never_throws (log.error msg).
Proof. intros w. by eexists _, _. Qed.
Lemma nt_log_section t s : never_throws (log.section t s).
Proof. intros w. by eexists _, _. Qed.
Lemma nt_log_spinner msg : never_throws (log.spinner msg).
Proof. intros w. by eexists _, _. Qed.
Lemma nt_pathExists p : never_throws (fs_extra.pathExists p).
Proof. intros w. by eexists _, _. Qed.

End NeverThrows.

Create HintDb total.
#[local] Hint Resolve nt_ret nt_log_info nt_log_done nt_log_warn nt_log_error
  nt_log_section nt_log_spinner nt_pathExists : total.

Ltac never_throws :=
  repeat first
    [ progress auto with total
    | apply nt_try; intros ?
    | apply nt_bind; [|intros ?]
    | match goal with
      | |- never_throws (if ?b then _ else _) => destruct b
      | |- never_throws (match ?x with _ => _ end) => destruct x
      end ].

Section Totality.
Context `{Environment}.

Lemma nt_detectRuntime : never_throws Planner._detectRuntime.
Proof. unfold Planner._detectRuntime. never_throws. Qed.

Lemma nt_tmuxNewPane n c s : never_throws (Distributor._tmuxNewPane n c s).
Proof. unfold Distributor._tmuxNewPane. never_throws. Qed.

Lemma nt_ensureGSD ws : never_throws (Planner._ensureGSD ws).
Proof. unfold Planner._ensureGSD. pose proof nt_detectRuntime. never_throws. Qed.

Lemma nt_gsdCommand ws c a i : never_throws (Planner._gsdCommand ws c a i).
Proof. unfold Planner._gsdCommand. pose proof nt_detectRuntime. never_throws. Qed.

Lemma nt_ensureSuperpowers a :
is_Some (JsObject.get a AGENTS) → never_throws (Distributor._ensureSuperpowers a).
Proof.
intros [agent Ha]. unfold Distributor._ensureSuperpowers. rewrite Ha. never_throws.
Qed.

Lemma nt_resumeFromState : never_throws Distributor.resumeFromState.
Proof.
unfold Distributor.resumeFromState.
apply nt_bind; [never_throws|]. intros _.
apply (nt_bind_post (λ l, Forall (λ a, is_Some (JsObject.get a AGENTS)) l)).
- intros w. destruct (detectAgents_catalog w) as (l & w' & Hrun & _ & _).
  exists l, w'. split; [done|]. by eapply catalog_available.
- intros available Hcat. destruct (decide _); [never_throws|].
  apply nt_bind.
  + apply nt_for_of. intros a Ha. apply nt_ensureSuperpowers.
    by eapply (proj1 (Forall_forall _ _) Hcat).
  + intros _. pose proof nt_tmuxNewPane. never_throws.
Qed.

End Totality.

Section Probes.
Context `{Environment}.

(** Property X2.  The liveness probe never throws.  It runs the version command of the four
  catalog binaries in catalog order (copilot through gh), whatever the
  outcomes, and returns the names whose command succeeded, in that order;
  the session is untouched. *)
Theorem detectAgents_probes (w : World) :
∃ b1 b2 b3 b4 w',
  Distributor._detectAgents w = (Ok (detected b1 b2 b3 b4), w')
  ∧ trace w' = trace w ++ [ EvExec (probe "gemini") b1; EvExec (probe "gh") b2;
                            EvExec (probe "codex") b3; EvExec (probe "opencode") b4 ]
  ∧ sess w' = sess w.
Proof.
unfold Distributor._detectAgents, JsObject.entries, AGENTS.
cbn [agent_bin]. unfold try_catch, bind, execa, ret.
destruct (spawn w _) as [[] f1] eqn:E1;
match goal with |- context [spawn ?w ?c] =>
  destruct (spawn w c) as [[] f2] eqn:E2 end;
match goal with |- context [spawn ?w ?c] =>
  destruct (spawn w c) as [[] f3] eqn:E3 end;
match goal with |- context [spawn ?w ?c] =>
  destruct (spawn w c) as [[] f4] eqn:E4 end;
match type of E1 with _ = (?b1, _) =>
match type of E2 with _ = (?b2, _) =>
match type of E3 with _ = (?b3, _) =>
match type of E4 with _ = (?b4, _) =>
  exists b1, b2, b3, b4 end end end end;
eexists; (split; [reflexivity|]); (split; [|reflexivity]);
cbn; rewrite <-!(assoc_L (++)); reflexivity.
Qed.

(** Property X3.  The runtime is the first of opencode, claude, gemini and codex whose
  version command succeeds; later ones are not tried, and claude is the
  answer when all four fail.  No failure reaches the caller. *)
Theorem detectRuntime_priority (w : World) :
∃ runtime w', Planner._detectRuntime w = (Ok runtime, w')
  ∧ ∃ tried, trace w' = trace w ++ tried
  ∧ (   (runtime = "opencode" ∧ tried = [EvExec (probe "opencode") true])
      ∨ (runtime = "claude" ∧ tried = [EvExec (probe "opencode") false;
                                       EvExec (probe "claude") true])
      ∨ (runtime = "gemini" ∧ tried = [EvExec (probe "opencode") false;
                                       EvExec (probe "claude") false;
                                       EvExec (probe "gemini") true])
      ∨ (runtime = "codex" ∧ tried = [EvExec (probe "opencode") false;
                                      EvExec (probe "claude") false;
                                      EvExec (probe "gemini") false;
                                      EvExec (probe "codex") true])
      ∨ (runtime = "claude" ∧ tried = [EvExec (probe "opencode") false;
                                       EvExec (probe "claude") false;
                                       EvExec (probe "gemini") false;
                                       EvExec (probe "codex") false])).
Proof.
unfold Planner._detectRuntime. unfold try_catch, bind, execa, ret.
destruct (spawn w _) as [[] f1] eqn:E1.
{ eexists _, _. split; [reflexivity|]. eexists. split; [reflexivity|]. by left. }
match goal with |- context [spawn ?w ?c] =>
  destruct (spawn w c) as [[] f2] eqn:E2 end.
{ eexists _, _. split; [reflexivity|]. eexists. split; [cbn; by rewrite <-(assoc_L (++))|].
  right. by left. }
match goal with |- context [spawn ?w ?c] =>
  destruct (spawn w c) as [[] f3] eqn:E3 end.
{ eexists _, _. split; [reflexivity|]. eexists. split; [cbn; by rewrite <-!(assoc_L (++))|].
  right. right. by left. }
match goal with |- context [spawn ?w ?c] =>
  destruct (spawn w c) as [[] f4] eqn:E4 end.
{ eexists _, _. split; [reflexivity|]. eexists. split; [cbn; by rewrite <-!(assoc_L (++))|].
  do 3 right. by left. }
eexists _, _. split; [reflexivity|]. eexists. split; [cbn; by rewrite <-!(assoc_L (++))|].
do 4 right. done.
Qed.

End Probes.

(** ** Edges of the assignment *)

Section AssignmentEdges.
Context {task : Type}.
Implicit Types (tasks : list task) (agents : list string).

Lemma tasks_of_app agents a tasks more :
∃ rest, tasks_of agents a (tasks ++ more) = tasks_of agents a tasks ++ rest.
Proof.
unfold tasks_of. rewrite imap_app, omap_app. eauto.
Qed.

(** Property X4.  The assignment fails exactly when there are tasks and no workers, and
  then with a TypeError: [run] has to return before it when no agent is
  available. *)
Theorem assignTasks_fails_iff tasks agents :
(∃ msg, _assignTasks tasks agents = Throw (TypeError msg))
↔ agents = [] ∧ tasks ≠ [].
Proof.
split.
- intros [msg Hrun]. destruct agents as [|a agents].
  + split; [done|]. intros ->. discriminate Hrun.
  + destruct (assignTasks_spec tasks (a :: agents)) as (asg & Hok & _); [done|].
    rewrite Hok in Hrun. discriminate.
- intros [-> Hne]. destruct tasks as [|t tasks]; [done|]. by eexists.
Qed.

(** Property X5.  Extending the plan never moves a task that is already assigned: every
  worker keeps its list as a prefix, and the workers stay the same. *)
Theorem assignTasks_extends tasks more agents :
agents ≠ [] →
∃ asg asg', _assignTasks tasks agents = Ok asg
  ∧ _assignTasks (tasks ++ more) agents = Ok asg'
  ∧ JsObject.keys asg' = JsObject.keys asg
  ∧ ∀ a l, JsObject.get a asg = Some l →
           ∃ rest, JsObject.get a asg' = Some (l ++ rest).
Proof.
intros Hne.
destruct (assignTasks_spec tasks agents Hne) as (asg & Hrun & Hkeys & Hget).
destruct (assignTasks_spec (tasks ++ more) agents Hne) as (asg' & Hrun' & Hkeys' & Hget').
exists asg, asg'. split; [done|]. split; [done|]. split; [congruence|].
intros a l Hl. rewrite Hget in Hl. rewrite Hget'.
destruct (decide (a ∈ agents)); [|done]. injection Hl as <-.
destruct (tasks_of_app agents a tasks more) as [rest ->]. eauto.
Qed.

End AssignmentEdges.

Lemma assignTasks_extends_witness :
  ["w1"; "w2"] ≠ []
  ∧ ∃ asg asg', _assignTasks ["A"; "B"] ["w1"; "w2"] = Ok asg
    ∧ _assignTasks (["A"; "B"] ++ ["C"]) ["w1"; "w2"] = Ok asg'
    ∧ JsObject.keys asg' = JsObject.keys asg
    ∧ ∀ a l, JsObject.get a asg = Some l →
             ∃ rest, JsObject.get a asg' = Some (l ++ rest).
Proof.
  split; [discriminate|].
  apply (assignTasks_extends (task := string) ["A"; "B"] ["C"] ["w1"; "w2"]).
  discriminate.
Defined.

Lemma assignTasks_fails_iff_witness :
  (∃ msg, _assignTasks ["A"] [] = Throw (TypeError msg))
  ∧ @nil string = [] ∧ ["A"] ≠ [].
Proof.
  assert (@nil string = [] ∧ ["A"] ≠ []) as Hin by (split; [reflexivity|discriminate]).
  split; [|exact Hin].
  apply (proj2 (assignTasks_fails_iff (task := string) ["A"] [])). exact Hin.
Defined.

(** ** What extraction returns *)

Section ExtractionFacts.

Lemma split_chars_app sep a b :
Js.split_chars sep (a ++ sep :: b) = Js.split_chars sep a ++ Js.split_chars sep b.
Proof.
induction a as [|c a IH]; simpl.
- by rewrite decide_True.
- destruct (decide (c = sep)); [by rewrite IH|].
  rewrite IH. pose proof (split_chars_nonempty sep a).
  by destruct (Js.split_chars sep a).
Qed.

Lemma split_app a b :
Js.split "010"%char (a +:+ Js.nl +:+ b)
= Js.split "010"%char a ++ Js.split "010"%char b.
Proof.
unfold Js.split. rewrite !list_ascii_app.
change (list_ascii_of_string Js.nl) with ["010"%char].
change (?x ++ ["010"%char] ++ ?y) with (x ++ "010"%char :: y).
by rewrite split_chars_app, fmap_app.
Qed.

Lemma extract_app a b :
CheckboxSpec.extract (a +:+ Js.nl +:+ b)
= CheckboxSpec.extract a ++ CheckboxSpec.extract b.
Proof. unfold CheckboxSpec.extract. by rewrite split_app, omap_app. Qed.

Lemma extractTasks_spec planMd :
_extractTasks planMd = Ok (CheckboxSpec.extract planMd).
Proof. unfold _extractTasks, forEach, CheckboxSpec.extract. by rewrite extract_loop. Qed.

(** Extraction goes line by line: the tasks of two texts joined by a line
  feed are the tasks of the first followed by those of the second. *)
Theorem extractTasks_concat (a b : string) :
∃ ta tb, _extractTasks a = Ok ta ∧ _extractTasks b = Ok tb
  ∧ _extractTasks (a +:+ Js.nl +:+ b) = Ok (ta ++ tb).
Proof.
exists (CheckboxSpec.extract a), (CheckboxSpec.extract b).
by rewrite !extractTasks_spec, extract_app.
Qed.

End ExtractionFacts.

Section TrimFacts.

Lemma drop_while_head p s :
match Js.drop_while p s with c :: _ => p c = false | [] => True end.
Proof.
induction s as [|c s IH]; simpl; [done|]. by destruct (p c) eqn:Hc.
Qed.

Lemma drop_while_fix p s :
match s with c :: _ => p c = false | [] => True end → Js.drop_while p s = s.
Proof. destruct s as [|c s]; simpl; [done|]. by intros ->. Qed.

Lemma forallb_take_while p s : forallb p (Js.take_while p s) = true.
Proof.
induction s as [|c s IH]; simpl; [done|]. destruct (p c) eqn:Hc; [|done].
simpl. by rewrite Hc.
Qed.

Lemma forallb_trim_chars p s : forallb p s = true → forallb p (Js.trim_chars s) = true.
Proof.
intros Hs. unfold Js.trim_chars, Js.trim_end, Js.trim_start.
rewrite forallb_reverse. apply forallb_drop_while.
rewrite forallb_reverse. by apply forallb_drop_while.
Qed.

(** What is cut at the end is white space, and what is left does not end
  with white space. *)
Lemma trim_end_spec s :
∃ z, s = Js.trim_end s ++ z
   ∧ match last (Js.trim_end s) with Some c => Js.is_space c = false | None => True end.
Proof.
unfold Js.trim_end, Js.trim_start.
exists (reverse (Js.take_while Js.is_space (reverse s))). split.
- rewrite <-reverse_app, take_while_drop_while. by rewrite reverse_involutive.
- rewrite last_reverse. pose proof (drop_while_head Js.is_space (reverse s)) as Hh.
  by destruct (Js.drop_while Js.is_space (reverse s)).
Qed.

Lemma trim_end_fix s :
match last s with Some c => Js.is_space c = false | None => True end →
Js.trim_end s = s.
Proof.
intros Hl. unfold Js.trim_end, Js.trim_start. rewrite drop_while_fix.
- apply reverse_involutive.
- rewrite <-(reverse_involutive s), last_reverse in Hl.
  by destruct (reverse s).
Qed.

Lemma trim_chars_idem s : Js.trim_chars (Js.trim_chars s) = Js.trim_chars s.
Proof.
unfold Js.trim_chars. set (x := Js.trim_start s).
destruct (trim_end_spec x) as (z & Hx & Hlast).
assert (Js.trim_start (Js.trim_end x) = Js.trim_end x) as ->.
{ apply drop_while_fix. pose proof (drop_while_head Js.is_space s) as Hh.
  fold (Js.trim_start s) in Hh. fold x in Hh. rewrite Hx in Hh.
  by destruct (Js.trim_end x). }
by apply trim_end_fix.
Qed.

Lemma first_checkbox_description line d :
CheckboxSpec.first_checkbox line = Some d →
∃ tail, d = CheckboxSpec.description tail.
Proof.
induction line as [|c line IH].
- discriminate.
- cbn [CheckboxSpec.first_checkbox].
  destruct (CheckboxSpec.checkbox_here (c :: line)) as [d'|] eqn:Hh.
  + intros [= <-]. unfold CheckboxSpec.checkbox_here in Hh.
    destruct (CheckboxSpec.is_bullet c); [|done].
    destruct (Js.drop_while Js.is_space line) as [|o [|x [|e tail]]]; try done.
    destruct (_ && _); [|done]. injection Hh as <-. eauto.
  + apply IH.
Qed.

Lemma description_clean tail :
forallb CheckboxSpec.visible (CheckboxSpec.description tail) = true
∧ Js.trim_chars (CheckboxSpec.description tail) = CheckboxSpec.description tail.
Proof.
unfold CheckboxSpec.description. split.
- apply forallb_trim_chars, forallb_take_while.
- apply trim_chars_idem.
Qed.

End TrimFacts.

(** Property X6.  Every extracted task is a single line (it holds neither line feed nor
    carriage return) and is trimmed: [trim] leaves it as it is. *)
Theorem extracted_tasks_are_clean (planMd : string) :
  ∃ tasks, _extractTasks planMd = Ok tasks
    ∧ Forall (λ t, one_line t ∧ trimmed t) tasks.
Proof.
  exists (CheckboxSpec.extract planMd). split; [apply extractTasks_spec|].
  apply Forall_forall. intros t Ht.
  apply list_elem_of_omap in Ht as (line & _ & Ht).
  unfold CheckboxSpec.line_task in Ht.
  destruct (CheckboxSpec.first_checkbox _) as [d|] eqn:Hd; [|done].
  injection Ht as <-.
  apply first_checkbox_description in Hd as [tail ->].
  destruct (description_clean tail) as [Hv Ht].
  unfold one_line, trimmed, Js.trim.
  rewrite list_ascii_of_string_of_list_ascii. split; [done|]. by rewrite Ht.
Qed.

(** ** The tracking file reads back as the plan *)

Section TrackingFile.

Lemma split_chars_single sep s :
forallb (λ c, negb (bool_decide (c = sep))) s = true → Js.split_chars sep s = [s].
Proof.
induction s as [|c s IH]; simpl; [done|].
intros [Hc Hs]%andb_prop. apply negb_true_iff, bool_decide_eq_false in Hc.
rewrite decide_False by done. by rewrite IH.
Qed.

Lemma visible_not_lf s :
forallb CheckboxSpec.visible s = true →
forallb (λ c, negb (bool_decide (c = "010"%char))) s = true.
Proof.
induction s as [|c s IH]; simpl; [done|].
intros [Hc Hs]%andb_prop. rewrite IH by done. rewrite andb_true_r.
apply negb_true_iff, bool_decide_eq_false. intros ->. discriminate Hc.
Qed.

Lemma extract_single_line (line : string) :
forallb CheckboxSpec.visible (list_ascii_of_string line) = true →
CheckboxSpec.extract line = option_list (CheckboxSpec.line_task line).
Proof.
intros Hl. unfold CheckboxSpec.extract, Js.split.
rewrite split_chars_single by by apply visible_not_lf.
cbn [fmap list_fmap omap list_omap]. rewrite string_of_list_ascii_of_string.
by destruct (CheckboxSpec.line_task line).
Qed.

Lemma extract_join (lines : list string) :
Forall one_line lines →
CheckboxSpec.extract (Js.join Js.nl lines) = omap CheckboxSpec.line_task lines.
Proof.
induction lines as [|x [|y rest] IH]; intros Hl.
- done.
- cbn [Js.join]. rewrite extract_single_line by by inversion Hl.
  cbn. by destruct (CheckboxSpec.line_task x).
- change (Js.join Js.nl (x :: y :: rest))
    with (x +:+ Js.nl +:+ Js.join Js.nl (y :: rest)).
  apply Forall_cons in Hl as [Hx Hl].
  rewrite extract_app, IH by done. rewrite extract_single_line by done.
  cbn [omap list_omap]. by destruct (CheckboxSpec.line_task x).
Qed.

Lemma line_task_checkbox (t : string) :
one_line t → CheckboxSpec.line_task ("- [ ] " +:+ t) = Some (Js.trim t).
Proof.
intros Ht. unfold CheckboxSpec.line_task. rewrite list_ascii_app.
change (list_ascii_of_string "- [ ] " ++ list_ascii_of_string t)
  with ("-" :: " " :: "[" :: " " :: "]" :: " " :: list_ascii_of_string t)%char.
by rewrite plain_checkbox_line.
Qed.

Lemma one_line_checkbox (t : string) : one_line t → one_line ("- [ ] " +:+ t).
Proof. unfold one_line. rewrite list_ascii_app, forallb_app. by intros ->. Qed.

Lemma extract_implement_document (tasks : list string) :
Forall one_line tasks →
CheckboxSpec.extract (implement_document tasks) = Js.trim <$> tasks.
Proof.
intros Ht. unfold implement_document.
rewrite extract_app.
change (Js.nl +:+ ?x) with ("" +:+ Js.nl +:+ x). rewrite extract_app.
set (J := Js.join Js.nl _).
change (J +:+ Js.nl) with (J +:+ Js.nl +:+ ""). subst J.
rewrite extract_app, extract_join.
2:{ apply Forall_fmap. eapply Forall_impl; [exact Ht|]. apply one_line_checkbox. }
change (CheckboxSpec.extract "# Implementation Tracking") with (@nil string).
change (CheckboxSpec.extract "") with (@nil string).
rewrite !app_nil_l, app_nil_r.
induction Ht as [|t tasks Hone _ IH]; [done|].
rewrite !fmap_cons. cbn [omap list_omap]. by rewrite line_task_checkbox, IH.
Qed.

End TrackingFile.

(** ** Directories *)

Section Mkdirs.
Implicit Types (f : gmap path node) (base p : path) (names : list string).

(** After [mkdir -p] every directory on the way is there. *)
Lemma mkdirs_post base names f f' (k : nat) :
fs_extra.mkdirs base names f = Ok f' → (0 < k ≤ length names)%nat →
f' !! (base ++ take k names) = Some Dir.
Proof.
revert base f k. induction names as [|n names IH]; intros base f k Hmk Hk.
- simpl in Hk. lia.
- simpl in Hmk. destruct k as [|k]; [lia|]. simpl.
  assert (∀ g, g !! (base ++ [n]) = Some Dir →
               fs_extra.mkdirs (base ++ [n]) names g = Ok f' →
               f' !! (base ++ n :: take k names) = Some Dir) as Hstep.
  { intros g Hg Hmk'. destruct (decide (k = 0)) as [->|Hk0].
    - rewrite take_0. eapply mkdirs_keeps; eauto.
    - replace (base ++ n :: take k names) with ((base ++ [n]) ++ take k names)
        by by rewrite <-(assoc_L (++)).
      eapply IH; [done|]. simpl in Hk. lia. }
  destruct (f !! (base ++ [n])) as [[| |]|] eqn:Hd; try done.
  + by eapply Hstep.
  + eapply Hstep; [|done]. by rewrite lookup_insert_eq.
Qed.

(** It touches nothing but those directories. *)
Lemma mkdirs_other base names f f' p :
fs_extra.mkdirs base names f = Ok f' →
(∀ k : nat, p ≠ base ++ take k names) → f' !! p = f !! p.
Proof.
revert base f. induction names as [|n names IH]; intros base f Hmk Hp; simpl in Hmk.
- by injection Hmk as <-.
- assert (∀ k : nat, p ≠ (base ++ [n]) ++ take k names) as Hp'.
  { intros k. rewrite <-(assoc_L (++)). apply (Hp (S k)). }
  destruct (f !! (base ++ [n])) as [[| |]|] eqn:Hd; try done.
  + by eapply IH.
  + rewrite (IH _ _ Hmk Hp'). rewrite lookup_insert_ne; [done|].
    intros Heq. apply (Hp 1%nat). simpl. by rewrite ?take_0.
Qed.

(** When they are all there, nothing happens. *)
Lemma mkdirs_existing base names f :
(∀ k : nat, (0 < k ≤ length names)%nat → f !! (base ++ take k names) = Some Dir) →
fs_extra.mkdirs base names f = Ok f.
Proof.
revert base. induction names as [|n names IH]; intros base Hall; [done|].
simpl. pose proof (Hall 1%nat ltac:(simpl; lia)) as H1. simpl in H1.
rewrite ?take_0 in H1. rewrite H1. apply IH. intros k Hk.
rewrite <-(assoc_L (++)). apply (Hall (S k)). simpl. lia.
Qed.

End Mkdirs.

(** ** Plan artifacts on disk *)

Section Artifacts.
Context `{Environment}.
Implicit Types (w : World) (p dest : path).

Local Abbreviation write_if_absent dest content :=
(bind (fs_extra.pathExists dest)
      (λ e : bool, if e then ret tt else fs_extra.writeFile dest content)).

Lemma wia_noop dest content w :
is_Some (fs w !! dest) → write_if_absent dest content w = (Ok tt, w).
Proof.
intros Hd. unfold bind, fs_extra.pathExists. by rewrite bool_decide_eq_true_2.
Qed.

Lemma wia_post dest content w w' :
write_if_absent dest content w = (Ok tt, w') → is_Some (fs w' !! dest).
Proof.
unfold bind, fs_extra.pathExists, fs_extra.writeFile, ret.
destruct (fs w !! dest) as [x|] eqn:Hd.
- rewrite bool_decide_eq_true_2 by eauto. intros [= <-]. eauto.
- rewrite bool_decide_eq_false_2 by (intros [? ?]; congruence).
  destruct (fs_extra.is_dir (fs w) (fs_extra.parent dest)); [|done].
  rewrite Hd. intros [= <-]. simpl. rewrite lookup_insert_eq. eauto.
Qed.

Lemma wia_written dest content w w' :
fs w !! dest = None → write_if_absent dest content w = (Ok tt, w') →
fs w' !! dest = Some (File content).
Proof.
intros Hd. unfold bind, fs_extra.pathExists, fs_extra.writeFile, ret.
rewrite Hd. rewrite bool_decide_eq_false_2 by (intros [? ?]; congruence).
destruct (fs_extra.is_dir (fs w) (fs_extra.parent dest)); [|done].
rewrite ?Hd. intros [= <-]. simpl. by rewrite lookup_insert_eq.
Qed.

Lemma keeps_run {A} (m : M A) w r w' p n :
keeps_entries m → m w = (r, w') → fs w !! p = Some n → fs w' !! p = Some n.
Proof. intros Hk Hm Hp. specialize (Hk w p n Hp). by rewrite Hm in Hk. Qed.

Lemma ensureDir_ok d w w' :
fs_extra.ensureDir d w = (Ok tt, w') →
fs_extra.mkdirs [] d (fs w) = Ok (fs w') ∧ trace w' = trace w ++ [EvMkdir d]
∧ sess w' = sess w.
Proof.
unfold fs_extra.ensureDir.
destruct (fs_extra.mkdirs [] d (fs w)) as [f'|e]; [|done].
by intros [= <-].
Qed.

Lemma ensureDir_existing d w :
(∀ k : nat, (0 < k ≤ length d)%nat → fs w !! take k d = Some Dir) →
fs_extra.ensureDir d w = (Ok tt, emit (EvMkdir d) w).
Proof.
intros Hall. unfold fs_extra.ensureDir.
rewrite (mkdirs_existing [] d (fs w)) by done.
by destruct w.
Qed.

(** The write-once loop over the plan documents. *)
Lemma for_of_wia_post (dir : path) (docs : list (string * string)) w w' :
for_of docs (λ '(name, content), write_if_absent (dir ++ [name]) content) w = (Ok tt, w') →
∀ name, name ∈ docs.*1 → is_Some (fs w' !! (dir ++ [name])).
Proof.
revert w. induction docs as [|[n c] docs IH]; intros w Hrun name Hin.
- by apply elem_of_nil in Hin.
- simpl in Hrun. unfold bind at 1 in Hrun.
  destruct (write_if_absent (dir ++ [n]) c w) as [[[]|e] w1] eqn:E1; [|done].
  rewrite fmap_cons in Hin. apply elem_of_cons in Hin as [->|Hin].
  + apply wia_post in E1 as [x Hx]. exists x.
    eapply (keeps_run _ w1 (Ok tt) w'); [|exact Hrun|exact Hx].
    apply keeps_for_of. intros [? ?]. apply keeps_write_if_absent.
  + by eapply IH.
Qed.

Lemma for_of_wia_noop (dir : path) (docs : list (string * string)) w :
(∀ name, name ∈ docs.*1 → is_Some (fs w !! (dir ++ [name]))) →
for_of docs (λ '(name, content), write_if_absent (dir ++ [name]) content) w = (Ok tt, w).
Proof.
induction docs as [|[n c] docs IH]; intros Hall; [done|].
simpl. unfold bind at 1. rewrite wia_noop.
- apply IH. intros name Hin. apply Hall. rewrite fmap_cons. by apply elem_of_cons; right.
- apply Hall. rewrite fmap_cons. by apply elem_of_cons; left.
Qed.

End Artifacts.

Section ArtifactTheorems.
Context `{Environment}.
Implicit Types (w : World) (ws : path) (plan : Plan).

(** What a successful [_writePlanArtifacts] leaves on disk. *)
Lemma writePlanArtifacts_post ws plan w w1 :
Distributor._writePlanArtifacts ws plan w = (Ok tt, w1) →
(∀ k : nat, (0 < k ≤ length (ws ++ [".planning"]))%nat →
   fs w1 !! take k (ws ++ [".planning"]) = Some Dir)
∧ is_Some (fs w1 !! ((ws ++ [".planning"]) ++ ["implement.md"]))
∧ (∀ name, name ∈ JsObject.keys (files plan) →
     is_Some (fs w1 !! ((ws ++ [".planning"]) ++ [name])))
∧ (fs w !! ((ws ++ [".planning"]) ++ ["implement.md"]) = None →
   fs w1 !! ((ws ++ [".planning"]) ++ ["implement.md"])
   = Some (File (implement_document (tasks plan)))).
Proof.
unfold Distributor._writePlanArtifacts. intros Hrun.
unfold bind at 1 in Hrun.
destruct (fs_extra.ensureDir (ws ++ [".planning"]) w) as [[[]|e] wa] eqn:Ea; [|done].
rewrite bind_assoc in Hrun. unfold bind at 1 in Hrun.
match type of Hrun with context [match ?m wa with _ => _ end] =>
  destruct (m wa) as [[[]|e] wb] eqn:Eb; [|done] end.
apply ensureDir_ok in Ea as (Hmk & _ & _).
assert (keeps_entries
  (for_of (JsObject.entries (files plan)) (λ '(name, content),
     bind (fs_extra.pathExists ((ws ++ [".planning"]) ++ [name]))
          (λ e : bool, if e then ret tt
                       else fs_extra.writeFile ((ws ++ [".planning"]) ++ [name]) content))))
  as Hloop.
{ apply keeps_for_of. intros [? ?]. apply keeps_write_if_absent. }
assert (∀ p n, fs wa !! p = Some n → fs w1 !! p = Some n) as Hkeep.
{ intros p n Hp. eapply keeps_run; [exact Hloop|exact Hrun|].
  eapply keeps_run; [apply keeps_write_if_absent|exact Eb|exact Hp]. }
split; [|split; [|split]].
- intros k Hk. apply Hkeep. by apply (mkdirs_post [] _ _ _ k Hmk).
- pose proof (wia_post _ _ _ _ Eb) as [x Hx]. exists x.
  eapply keeps_run; [exact Hloop|exact Hrun|exact Hx].
- intros name Hin. eapply for_of_wia_post; [exact Hrun|exact Hin].
- intros Habs.
  eapply keeps_run; [exact Hloop|exact Hrun|].
  eapply wia_written; [|exact Eb].
  rewrite (mkdirs_other [] _ _ _ _ Hmk); [done|].
  intros k Heq. apply (f_equal length) in Heq.
  rewrite app_nil_l, length_take, !length_app in Heq. simpl in Heq. lia.
Qed.

(** Property X7.  Tracking round trip: when implement.md is not there yet, a successful
  [_writePlanArtifacts] creates it, and reading its text back with the
  planner's [_extractTasks] gives the tasks of the plan again, each one
  trimmed.  The tasks are single lines. *)
Theorem writePlanArtifacts_tracking_round_trip ws plan w w1 :
fs w !! ((ws ++ [".planning"]) ++ ["implement.md"]) = None →
Forall one_line (tasks plan) →
Distributor._writePlanArtifacts ws plan w = (Ok tt, w1) →
∃ content,
  fs w1 !! ((ws ++ [".planning"]) ++ ["implement.md"]) = Some (File content)
  ∧ _extractTasks content = Ok (Js.trim <$> tasks plan).
Proof.
intros Habs Hlines Hrun. exists (implement_document (tasks plan)). split.
- by apply (writePlanArtifacts_post ws plan w w1 Hrun).
- rewrite extractTasks_spec. by rewrite extract_implement_document.
Qed.

(** Property X8.  Writing the artifacts is idempotent: after a successful call, a second
  call -- for the same plan, or for any plan whose documents have names of
  the first one -- succeeds and changes nothing on disk; its only effect
  is the repeated [ensureDir]. *)
Theorem writePlanArtifacts_idempotent ws plan plan' w w1 :
Distributor._writePlanArtifacts ws plan w = (Ok tt, w1) →
JsObject.keys (files plan') ⊆ JsObject.keys (files plan) →
Distributor._writePlanArtifacts ws plan' w1
= (Ok tt, emit (EvMkdir (ws ++ [".planning"])) w1).
Proof.
intros Hrun Hsub.
destruct (writePlanArtifacts_post ws plan w w1 Hrun) as (Hdirs & Himpl & Hdocs & _).
unfold Distributor._writePlanArtifacts.
unfold bind at 1. rewrite ensureDir_existing by done.
rewrite bind_assoc. unfold bind at 1. rewrite wia_noop by done.
apply for_of_wia_noop. intros name Hin. simpl. apply Hdocs. by apply Hsub.
Qed.

End ArtifactTheorems.

(** Two tasks, written to a fresh workspace and read back. *)
Lemma writePlanArtifacts_tracking_round_trip_witness :
  ∃ content,
    fs (Distributor._writePlanArtifacts ["w"] two_tasks wA).2
      !! ((["w"] ++ [".planning"]) ++ ["implement.md"]) = Some (File content)
    ∧ _extractTasks content = Ok (Js.trim <$> tasks two_tasks).
Proof.
  apply (writePlanArtifacts_tracking_round_trip ["w"] two_tasks wA).
  - vm_compute. reflexivity.
  - repeat constructor.
  - vm_compute. reflexivity.
Defined.

(** The second plan has the document names of the first. *)
Lemma writePlanArtifacts_idempotent_witness :
  Distributor._writePlanArtifacts ["w"] planB
    (Distributor._writePlanArtifacts ["w"] planA wA).2
  = (Ok tt, emit (EvMkdir (["w"] ++ [".planning"]))
               (Distributor._writePlanArtifacts ["w"] planA wA).2).
Proof.
  apply (writePlanArtifacts_idempotent ["w"] planA planB wA).
  - vm_compute. reflexivity.
  - vm_compute. set_solver.
Defined.

(** ** The exceptions of a computation *)

Section ThrowsOnly.
Context `{Environment}.
Implicit Types (P : exn → Prop).

Lemma to_never {A} P (m : M A) : never_throws m → throws_only P m.
Proof. intros Hm w e w' Hw. destruct (Hm w) as (a & w1 & Hw1). congruence. Qed.

Lemma to_weaken {A} P Q (m : M A) :
(∀ e, P e → Q e) → throws_only P m → throws_only Q m.
Proof. intros HPQ Hm w e w' Hw. eapply HPQ, Hm, Hw. Qed.

Lemma to_ret {A} P (a : A) : throws_only P (ret a).
Proof. intros w e w' Hw. done. Qed.

Lemma to_throw {A} P e : P e → throws_only P (@throw A e).
Proof. intros He w e' w' [= <- _]. done. Qed.

Lemma to_lift_ok {A} P (r : result A) : (∀ e, r = Throw e → P e) → throws_only P (lift r).
Proof. intros Hr w e w' [= -> _]. by apply Hr. Qed.

Lemma to_bind {A B} P (m : M A) (k : A → M B) :
throws_only P m → (∀ a, throws_only P (k a)) → throws_only P (bind m k).
Proof.
intros Hm Hk w e w'. unfold bind. destruct (m w) as [[a|e1] w1] eqn:E.
- apply Hk.
- intros [= <- <-]. by eapply Hm.
Qed.

(** A bind whose continuation is looked at on what the first part can
  return only. *)
Lemma to_bind_post {A B} P (Q : A → Prop) (m : M A) (k : A → M B) :
throws_only P m → (∀ w a w', m w = (Ok a, w') → Q a) →
(∀ a, Q a → throws_only P (k a)) → throws_only P (bind m k).
Proof.
intros Hm HQ Hk w e w'. unfold bind. destruct (m w) as [[a|e1] w1] eqn:E.
- apply Hk. by eapply HQ.
- intros [= <- <-]. by eapply Hm.
Qed.

Lemma to_try {A} P (body : M A) handler :
(∀ e, throws_only P (handler e)) → throws_only P (try_catch body handler).
Proof.
intros Hh w e w'. unfold try_catch. destruct (body w) as [[a|e1] w1]; [done|].
apply Hh.
Qed.

Lemma to_for_of {A} P (xs : list A) body :
(∀ x, x ∈ xs → throws_only P (body x)) → throws_only P (for_of xs body).
Proof.
induction xs as [|x xs IH]; intros Hb; simpl; [apply to_ret|].
apply to_bind; [apply Hb; by left|]. intros _. apply IH.
intros y Hy. apply Hb. by right.
Qed.

Lemma to_log_info P msg : throws_only P (log.info msg).
Proof. done. Qed.
Lemma to_log_done P msg : throws_only P (log.done msg).
Proof. done. Qed.
Lemma to_log_warn P msg : throws_only P (log.warn msg).
Proof. done. Qed.
Lemma to_log_error P msg : throws_only P (log.error msg).
Proof. done. Qed.
Lemma to_log_section P t s : throws_only P (log.section t s).
Proof. done. Qed.
Lemma to_log_spinner P msg : throws_only P (log.spinner msg).
Proof. done. Qed.
Lemma to_get_sess P : throws_only P get_sess.
Proof. done. Qed.
Lemma to_get_world P : throws_only P get_world.
Proof. done. Qed.
Lemma to_pathExists P p : throws_only P (fs_extra.pathExists p).
Proof. done. Qed.

Lemma to_execa b a d i : throws_only is_exec_error (execa b a d i).
Proof.
intros w e w'. unfold execa. destruct (spawn w _) as [[] f]; [done|].
intros [= <- _]. by eexists _, _.
Qed.

Lemma mkdirs_io base names f e :
fs_extra.mkdirs base names f = Throw e → is_io_error e.
Proof.
revert base f. induction names as [|n names IH]; intros base f; simpl; [done|].
destruct (f !! (base ++ [n])) as [[| |]|]; eauto.
all: intros [= <-]; by eexists _, _.
Qed.

Lemma to_ensureDir p : throws_only is_io_error (fs_extra.ensureDir p).
Proof.
intros w e w'. unfold fs_extra.ensureDir.
destruct (fs_extra.mkdirs [] p (fs w)) as [f|e1] eqn:E; [done|].
intros [= <- _]. by eapply mkdirs_io.
Qed.

Lemma to_readFile p : throws_only is_io_error (fs_extra.readFile p).
Proof.
intros w e w'. unfold fs_extra.readFile.
destruct (fs w !! p) as [[| |]|]; try done.
all: intros [= <- _]; by eexists _, _.
Qed.

Lemma to_writeFile p c : throws_only is_io_error (fs_extra.writeFile p c).
Proof.
intros w e w'. unfold fs_extra.writeFile.
destruct (fs_extra.is_dir _ _); [|intros [= <- _]; by eexists _, _].
destruct (fs w !! p) as [[| |]|]; try done.
all: intros [= <- _]; by eexists _, _.
Qed.

Lemma to_symlink t p : throws_only is_io_error (fs_extra.symlink t p).
Proof.
intros w e w'. unfold fs_extra.symlink.
destruct (fs_extra.is_dir _ _); [|intros [= <- _]; by eexists _, _].
destruct (fs w !! p) as [[| |]|]; try done.
all: intros [= <- _]; by eexists _, _.
Qed.

Lemma to_readdir p : throws_only is_io_error (fs_extra.readdir p).
Proof.
intros w e w'. unfold fs_extra.readdir.
destruct (fs_extra.is_dir _ _); [done|]. intros [= <- _]. by eexists _, _.
Qed.

Lemma to_extractTasks P planMd : throws_only P (lift (_extractTasks planMd)).
Proof. apply to_lift_ok. intros e. by rewrite extractTasks_spec. Qed.

End ThrowsOnly.

Create HintDb throws.
#[local] Hint Resolve to_ret to_log_info to_log_done to_log_warn to_log_error
  to_log_section to_log_spinner to_get_sess to_get_world to_pathExists
  to_ensureDir to_readFile to_writeFile to_symlink to_readdir to_extractTasks
  : throws.

Ltac throws_only :=
  repeat first
    [ progress auto with throws
    | apply to_try; intros ?
    | apply to_bind; [|intros ?]
    | match goal with
      | |- throws_only _ (if ?b then _ else _) => destruct b
      | |- throws_only _ (match ?x with _ => _ end) => destruct x
      end ].

Section PlannerExceptions.
Context `{Environment}.

Lemma to_read_files base names files :
throws_only is_io_error (Planner.read_files base names files).
Proof.
revert files. induction names as [|n names IH]; intros files; simpl; throws_only.
Qed.

Lemma to_readGSDPlan ws ph : throws_only is_io_error (Planner._readGSDPlan ws ph).
Proof. unfold Planner._readGSDPlan. pose proof to_read_files. throws_only. Qed.

Lemma to_readQuickPlan ws : throws_only is_io_error (Planner._readQuickPlan ws).
Proof. unfold Planner._readQuickPlan. throws_only. Qed.

Lemma to_nextPhase ws : throws_only is_io_error (Planner._nextPhase ws).
Proof. unfold Planner._nextPhase. throws_only. Qed.

Lemma to_planner_run ws ctx : throws_only is_io_error (Planner.run ws ctx).
Proof.
pose proof (λ c a i, to_never is_io_error _ (nt_gsdCommand ws c a i)).
pose proof (to_never is_io_error _ (nt_ensureGSD ws)).
pose proof (to_readGSDPlan ws). pose proof (to_readQuickPlan ws).
pose proof (to_nextPhase ws).
unfold Planner.run, Planner._runNewProject, Planner._runNewTask. throws_only.
Qed.

End PlannerExceptions.

Section DistributorExceptions.
Context `{Environment}.

Local Abbreviation io_or_exec := (λ e, is_io_error e ∨ is_exec_error e).

Lemma to_io {A} (m : M A) : throws_only is_io_error m → throws_only io_or_exec m.
Proof. apply to_weaken. by left. Qed.

Lemma to_exec {A} (m : M A) : throws_only is_exec_error m → throws_only io_or_exec m.
Proof. apply to_weaken. by right. Qed.

Lemma to_writePlanArtifacts ws plan :
throws_only is_io_error (Distributor._writePlanArtifacts ws plan).
Proof.
unfold Distributor._writePlanArtifacts. throws_only.
apply to_for_of. intros [name content] _. throws_only.
Qed.

Lemma to_launchAgentPane ws sn a prompt idx :
is_Some (JsObject.get a AGENTS) →
throws_only io_or_exec (Distributor._launchAgentPane ws sn a prompt idx).
Proof.
intros [agent Ha]. unfold Distributor._launchAgentPane, Distributor._superpowersBootstrap.
rewrite Ha. unfold lift.
apply to_bind; [apply to_io, to_writeFile|]. intros _.
apply to_bind; [done|]. intros bs.
repeat (apply to_bind; [apply to_exec, to_execa|]; intros _).
apply to_log_info.
Qed.

Lemma to_launch_panes ws sn plan entries idx :
Forall (λ e, is_Some (JsObject.get e.1 AGENTS)) entries →
throws_only io_or_exec (Distributor.launch_panes ws sn plan entries idx).
Proof.
revert idx. induction entries as [|[a ts] entries IH]; intros idx Hreg; simpl.
- apply to_ret.
- apply Forall_cons in Hreg as [Ha Hreg].
  apply to_bind; [by apply to_launchAgentPane|]. intros _. by apply IH.
Qed.

Lemma to_launchTmux ws asg plan :
Forall (λ e, is_Some (JsObject.get e.1 AGENTS)) asg →
throws_only io_or_exec (Distributor._launchTmux ws asg plan).
Proof.
intros Hreg. unfold Distributor._launchTmux.
apply to_bind; [apply to_try; intros ?; apply to_ret|]. intros _.
apply to_bind; [apply to_exec, to_execa|]. intros _.
apply to_bind.
{ intros w e w' Hw. destruct (statusScript_ok ws plan w) as [s Hs]. congruence. }
intros script.
apply to_bind; [apply to_exec, to_execa|]. intros _.
apply to_bind; [by apply to_launch_panes|]. intros _.
apply to_bind; [apply to_get_sess|]. intros s.
apply to_exec, to_execa.
Qed.

Lemma to_distributor_run ws plan : throws_only io_or_exec (Distributor.run ws plan).
Proof.
unfold Distributor.run.
apply to_bind; [apply to_log_section|]. intros _.
apply (to_bind_post _ (λ l, Forall (λ a, is_Some (JsObject.get a AGENTS)) l)).
{ intros w e w' Hw. destruct (detectAgents_catalog w) as (l & w1 & Hrun & _). congruence. }
{ intros w l w' Hw. by eapply catalog_available. }
intros available Hcat. destruct (decide _) as [Hz|Hnz]; [apply to_log_error|].
apply to_bind; [apply to_log_info|]. intros _.
apply to_bind.
{ apply to_for_of. intros a Ha. apply to_never, nt_ensureSuperpowers.
  by eapply (proj1 (Forall_forall _ _) Hcat). }
intros _.
apply to_bind; [apply to_io, to_writePlanArtifacts|]. intros _.
assert (available ≠ []) as Hne by (intros ->; done).
apply (to_bind_post _ (λ asg : JsObject.t (list string),
          Forall (λ e, is_Some (JsObject.get e.1 AGENTS)) asg)).
{ apply to_lift_ok. intros e He.
  destruct (assignTasks_spec (tasks plan) available Hne) as (asg & Hasg & _).
  congruence. }
{ intros w asg w' [= Hasg _].
  destruct (assignTasks_table (tasks plan) available asg Hne Hasg) as (_ & Hkeys & _).
  apply Forall_forall. intros [a ts] Hin. simpl.
  apply (proj1 (Forall_forall _ _) Hcat), Hkeys.
  unfold JsObject.keys. apply (list_elem_of_fmap_2 fst _ (a, ts)). done. }
intros asg Hreg.
apply to_bind; [apply to_log_info|]. intros _.
apply to_bind.
{ apply to_for_of. intros [a ts] _. apply to_for_of. intros t _. apply to_log_info. }
intros _.
apply to_bind; [by apply to_launchTmux|]. intros _.
apply to_log_done.
Qed.

Lemma to_dispatch intent ctx :
throws_only io_or_exec (SessionM.dispatch intent ctx).
Proof.
unfold SessionM.dispatch.
apply to_bind; [apply to_get_sess|]. intros s.
destruct (_ || _).
- apply to_bind; [apply to_io, to_planner_run|]. intros [plan|].
  + apply to_distributor_run.
  + apply to_ret.
- destruct (bool_decide _); [apply to_never, nt_resumeFromState|].
  destruct (bool_decide _); [apply to_log_info|apply to_ret].
Qed.

End DistributorExceptions.

(** Property X9.  The only exceptions that leave the planning phase are rejections of the
    file system: the failures of the runtime probes, of the GSD installation
    and of the GSD commands are caught, and task extraction does not throw. *)
Theorem planner_run_throws_only_io `{Environment} (ws : path) (ctx : Context)
    (w : World) (e : exn) (w' : World) :
  Planner.run ws ctx w = (Throw e, w') → is_io_error e.
Proof. apply to_planner_run. Qed.

(** A project whose PLAN.md is a directory: the planning phase ends with
    EISDIR. *)
Lemma planner_run_throws_only_io_witness :
  is_io_error (IOError "EISDIR" ["w"; ".planning"; "PLAN.md"]).
Proof.
  apply (@planner_run_throws_only_io no_agents ["w"] (MkContext "todo app" "project_init")
           (test_world (scaffold [(["w"; ".planning"; "PLAN.md"], Dir)]) session0) _
           (@Planner.run no_agents ["w"] (MkContext "todo app" "project_init")
              (test_world (scaffold [(["w"; ".planning"; "PLAN.md"], Dir)]) session0)).2).
  vm_compute. reflexivity.
Defined.

(** Property X10.  Whatever the intent, the context and the world, an exception that leaves
    [dispatch] is a rejection of the file system or of an external command:
    no TypeError and no SyntaxError comes out of a planning and distribution
    cycle. *)
Theorem dispatch_throws_only_io_or_exec `{Environment} (intent : string)
    (ctx : Context) (w : World) (e : exn) (w' : World) :
  SessionM.dispatch intent ctx w = (Throw e, w') → is_io_error e ∨ is_exec_error e.
Proof. apply to_dispatch. Qed.

(** The window of gemini cannot be created: the cycle ends with the error of
    that command. *)
Lemma dispatch_throws_only_io_or_exec_witness :
  is_io_error (ExecError "tmux" ["new-window"; "-t"; "zeroclaw"; "-n"; "gemini"])
  ∨ is_exec_error (ExecError "tmux" ["new-window"; "-t"; "zeroclaw"; "-n"; "gemini"]).
Proof.
  apply (@dispatch_throws_only_io_or_exec gemini_window_fails "new_task"
           (MkContext "fix the login test" "new_task") quick_notes _
           (@SessionM.dispatch gemini_window_fails "new_task"
              (MkContext "fix the login test" "new_task") quick_notes).2).
  vm_compute. reflexivity.
Defined.

(** Property X11.  GSD is optional: neither the installation check nor a GSD command lets a
    failure reach the caller, whatever the external processes do. *)
Theorem gsd_failures_are_not_fatal `{Environment} (ws : path) :
  never_throws (Planner._ensureGSD ws)
  ∧ ∀ cmd args stdinText, never_throws (Planner._gsdCommand ws cmd args stdinText).
Proof. split; [apply nt_ensureGSD|]. intros. apply nt_gsdCommand. Qed.

(** Property X12.  [resumeFromState] always returns: the probes, the Superpowers
    installation and the resume window are all guarded. *)
Theorem resumeFromState_never_throws `{Environment} :
  never_throws Distributor.resumeFromState.
Proof. apply nt_resumeFromState. Qed.

(** Property X13.  The Superpowers installation is not fatal for an agent of the catalog,
    whatever git and the file system do; for a name outside the catalog the
    lookup of its configuration directory throws, on every world. *)
Theorem ensureSuperpowers_throws_iff_unknown `{Environment} (agentName : string) :
  (is_Some (JsObject.get agentName AGENTS) →
     never_throws (Distributor._ensureSuperpowers agentName))
  ∧ (JsObject.get agentName AGENTS = None →
     ∀ w, ∃ msg, Distributor._ensureSuperpowers agentName w = (Throw (TypeError msg), w)).
Proof.
  split; [apply nt_ensureSuperpowers|].
  intros Hn w. unfold Distributor._ensureSuperpowers. rewrite Hn. by eexists.
Qed.

(** codex is in the catalog, claude is not. *)
Lemma ensureSuperpowers_throws_iff_unknown_witness :
  never_throws (@Distributor._ensureSuperpowers no_agents "codex")
  ∧ ∀ w, ∃ msg, @Distributor._ensureSuperpowers no_agents "claude" w
                = (Throw (TypeError msg), w).
Proof.
  split.
  - apply (proj1 (@ensureSuperpowers_throws_iff_unknown no_agents "codex")).
    vm_compute. eauto.
  - apply (proj2 (@ensureSuperpowers_throws_iff_unknown no_agents "claude")).
    vm_compute. reflexivity.
Defined.

(** ** Computations that only look at the world *)

Section ReadOnly.

Lemma ro_ret {A} (a : A) : read_only (ret a).
Proof. done. Qed.

Lemma ro_lift {A} (r : result A) : read_only (lift r).
Proof. done. Qed.

Lemma ro_bind {A B} (m : M A) (k : A → M B) :
read_only m → (∀ a, read_only (k a)) → read_only (bind m k).
Proof.
intros Hm Hk w. unfold bind. specialize (Hm w).
destruct (m w) as [[a|e] w1]; simpl in *; subst; [apply Hk|done].
Qed.

Lemma ro_pathExists p : read_only (fs_extra.pathExists p).
Proof. done. Qed.

Lemma ro_readFile p : read_only (fs_extra.readFile p).
Proof. intros w. unfold fs_extra.readFile. by destruct (fs w !! p) as [[| |]|]. Qed.

Lemma ro_readdir p : read_only (fs_extra.readdir p).
Proof. intros w. unfold fs_extra.readdir. by destruct (fs_extra.is_dir _ _). Qed.

End ReadOnly.

Create HintDb readonly.
#[local] Hint Resolve ro_ret ro_lift ro_pathExists ro_readFile ro_readdir : readonly.

Ltac read_only :=
  repeat first
    [ progress auto with readonly
    | apply ro_bind; [|intros ?]
    | match goal with
      | |- read_only (if ?b then _ else _) => destruct b
      | |- read_only (match ?x with _ => _ end) => destruct x
      end ].

Section Readers.
Context `{Environment}.

Lemma ro_read_files base names files : read_only (Planner.read_files base names files).
Proof. revert files. induction names as [|n names IH]; intros files; simpl; read_only. Qed.

Lemma ro_readGSDPlan ws ph : read_only (Planner._readGSDPlan ws ph).
Proof. unfold Planner._readGSDPlan. pose proof ro_read_files. read_only. Qed.

Lemma ro_readQuickPlan ws : read_only (Planner._readQuickPlan ws).
Proof. unfold Planner._readQuickPlan. read_only. Qed.

Lemma ro_nextPhase ws : read_only (Planner._nextPhase ws).
Proof. unfold Planner._nextPhase. read_only. Qed.

(** What the loop of [_readGSDPlan] collects. *)
Lemma read_files_spec base names files0 w files w' :
Planner.read_files base names files0 w = (Ok files, w') →
∀ name, JsObject.get name files
        = if decide (name ∈ names) then
            match fs w !! (base ++ [name]) with
            | Some (File c) => Some c
            | _ => JsObject.get name files0
            end
          else JsObject.get name files0.
Proof.
revert files0. induction names as [|n names IH]; intros files0;
  cbn [Planner.read_files].
- intros [= <- _] name. rewrite decide_False; [done|]. apply not_elem_of_nil.
- unfold bind at 1, fs_extra.pathExists at 1.
  destruct (fs w !! (base ++ [n])) as [nd|] eqn:Hn.
  + rewrite bool_decide_eq_true_2 by eauto.
    unfold bind at 1. unfold bind at 1, fs_extra.readFile at 1. cbv beta iota.
    unfold path in *. rewrite Hn.
    destruct nd as [|c|t]; try done. unfold ret at 1. cbv beta iota.
    intros Hrun name. rewrite (IH _ Hrun name).
    destruct (decide (name = n)) as [->|Hne].
    * rewrite Hn, get_set_eq. rewrite (decide_True (P := n ∈ n :: names)) by by left.
      by destruct (decide (n ∈ names)).
    * rewrite get_set_ne by done.
      destruct (decide (name ∈ names)) as [Hin|Hnin].
      -- rewrite decide_True by by right. done.
      -- rewrite decide_False; [done|]. by intros [?|?]%elem_of_cons.
  + rewrite bool_decide_eq_false_2
      by (intros [x Hx]; unfold path in *; rewrite Hn in Hx; done).
    unfold bind at 1. unfold ret at 1. cbv beta iota.
    intros Hrun name. rewrite (IH _ Hrun name).
    destruct (decide (name = n)) as [->|Hne].
    * rewrite Hn. rewrite (decide_True (P := n ∈ n :: names)) by by left.
      by destruct (decide (n ∈ names)).
    * destruct (decide (name ∈ names)) as [Hin|Hnin].
      -- rewrite decide_True by by right. done.
      -- rewrite decide_False; [done|]. by intros [?|?]%elem_of_cons.
Qed.

End Readers.

Section ReaderTheorems.
Context `{Environment}.

Lemma read_only_run {A} (m : M A) w r w' : read_only m → m w = (r, w') → w' = w.
Proof. intros Hm Hw. specialize (Hm w). by rewrite Hw in Hm. Qed.

(** Property X14.  The plan readers only look: [_readGSDPlan], [_readQuickPlan] and
  [_nextPhase] leave the file system, the session and the trace as they
  are, whether they return or throw. *)
Theorem plan_readers_are_read_only (ws : path) :
(∀ ph, read_only (Planner._readGSDPlan ws ph))
∧ read_only (Planner._readQuickPlan ws)
∧ read_only (Planner._nextPhase ws).
Proof.
split; [|split];
  [intros ph; apply ro_readGSDPlan | apply ro_readQuickPlan | apply ro_nextPhase].
Qed.

(** Property X15.  A plan that [_readGSDPlan] returns for a phase number that is exact (an
  integer up to 2^53, or none) is what the disk holds: its documents are
  exactly the files among the five names in the directory that was read
  (the planning directory, or below it phase- with the decimal digits of
  the phase, padded to two), with their text; PLAN.md is among them, and
  the tasks are the ones that [_extractTasks] finds in it, at least one. *)
Theorem readGSDPlan_reflects_disk (ws : path) (ph : option number) (w : World)
  (plan : Plan) (w' : World) :
exact_phase ph →
Planner._readGSDPlan ws ph w = (Ok (Some plan), w') →
let base := if phase_truthy ph
            then Planner.planDir ws
                 ++ ["phase-" +:+ padStart2 (from_option number_to_string "null" ph)]
            else Planner.planDir ws in
phase plan = ph
∧ (∀ name content,
     JsObject.get name (files plan) = Some content
     ↔ name ∈ ["PLAN.md"; "REQUIREMENTS.md"; "ROADMAP.md"; "CONTEXT.md"; "RESEARCH.md"]
       ∧ fs w !! (base ++ [name]) = Some (File content))
∧ ∃ content, fs w !! (base ++ ["PLAN.md"]) = Some (File content)
             ∧ _extractTasks content = Ok (tasks plan)
             ∧ tasks plan ≠ [].
Proof.
intros _ Hrun base. unfold Planner._readGSDPlan in Hrun. fold base in Hrun.
unfold bind at 1 in Hrun.
destruct (Planner.read_files base _ JsObject.empty w) as [[fl|e] w1] eqn:Hread; [|done].
pose proof (read_only_run _ _ _ _ (ro_read_files _ _ _) Hread) as ->.
pose proof (read_files_spec _ _ _ _ _ _ Hread) as Hspec.
assert (∀ name content,
          JsObject.get name fl = Some content
          ↔ name ∈ ["PLAN.md"; "REQUIREMENTS.md"; "ROADMAP.md"; "CONTEXT.md"; "RESEARCH.md"]
            ∧ fs w !! (base ++ [name]) = Some (File content)) as Hfiles.
{ intros name content. rewrite Hspec.
  destruct (decide (name ∈ _)) as [Hin|Hnin].
  - destruct (fs w !! (base ++ [name])) as [[|c|t]|]; simpl; split;
      try done; try (by intros [_ [=]]).
    + intros [= ->]. done.
    + intros [_ [= ->]]. done.
  - simpl. split; [done|]. by intros [? _]. }
unfold bind at 1 in Hrun.
destruct (JsObject.get "PLAN.md" fl) as [content|] eqn:Hplan.
- apply Hfiles in Hplan as [_ Hplan].
  destruct (decide (content = "")) as [->|Hne].
  + unfold ret at 1 in Hrun. by rewrite decide_True in Hrun.
  + unfold lift at 1 in Hrun.
    destruct (_extractTasks content) as [ts|e] eqn:Hts; [|done].
    destruct (decide (length ts = 0)) as [Hz|Hnz]; [done|].
    injection Hrun as <- <-. simpl. split; [done|]. split; [done|].
    exists content. split; [done|]. split; [done|]. by intros ->.
- unfold ret at 1 in Hrun. by rewrite decide_True in Hrun.
Qed.

End ReaderTheorems.

(** ** The latest quick plan *)

Section StringOrder.

Lemma ascii_compare_refl c : Ascii.compare c c = Eq.
Proof. unfold Ascii.compare. apply N.compare_refl. Qed.

Lemma ascii_compare_lt_trans a b c :
Ascii.compare a b = Lt → Ascii.compare b c = Lt → Ascii.compare a c = Lt.
Proof.
unfold Ascii.compare. rewrite !N.compare_lt_iff. apply N.lt_trans.
Qed.

Lemma string_leb_trans s1 s2 s3 :
String.leb s1 s2 = true → String.leb s2 s3 = true → String.leb s1 s3 = true.
Proof.
unfold String.leb. revert s2 s3.
induction s1 as [|c1 s1 IH]; intros [|c2 s2] [|c3 s3]; simpl; try done.
destruct (Ascii.compare c1 c2) eqn:E12; [| |done];
  destruct (Ascii.compare c2 c3) eqn:E23; try done.
- apply Ascii.compare_eq_iff in E12 as ->. apply Ascii.compare_eq_iff in E23 as ->.
  rewrite ascii_compare_refl. apply IH.
- apply Ascii.compare_eq_iff in E12 as ->. by rewrite E23.
- apply Ascii.compare_eq_iff in E23 as <-. by rewrite E12.
- by rewrite (ascii_compare_lt_trans _ _ _ E12 E23).
Qed.

Lemma string_le_trans : Transitive string_le.
Proof. intros a b c. apply string_leb_trans. Qed.

Lemma string_le_total : Total string_le.
Proof. intros a b. apply String.leb_total. Qed.

Lemma string_le_refl a : string_le a a.
Proof. by destruct (string_le_total a a). Qed.

(** The last element of a sorted list is a greatest one. *)
Lemma StronglySorted_last (l : list string) x :
StronglySorted string_le l → last l = Some x → ∀ y, y ∈ l → string_le y x.
Proof.
induction 1 as [|a l Hl IH Hall]; [done|].
destruct l as [|b l'].
- intros [= <-] y ->%list_elem_of_singleton. apply string_le_refl.
- change (last (a :: b :: l')) with (last (b :: l')). intros Hlast y Hy.
  apply elem_of_cons in Hy as [->|Hy]; [|by apply IH].
  apply (proj1 (Forall_forall _ _) Hall). clear -Hlast.
  apply last_Some in Hlast as [l'' ->]. set_solver.
Qed.

Lemma sort_strings_last l x :
last (sort_strings l) = Some x → x ∈ l ∧ ∀ y, y ∈ l → string_le y x.
Proof.
intros Hlast. unfold sort_strings in *.
pose proof (merge_sort_Permutation string_le l) as Hperm. split.
- rewrite <-Hperm. apply last_Some in Hlast as [l' ->]. set_solver.
- intros y Hy. eapply StronglySorted_last; [|exact Hlast|by rewrite Hperm].
  apply (@StronglySorted_merge_sort _ string_le _ string_le_trans string_le_total).
Qed.

End StringOrder.

Section Entries.

Lemma removelast_last_app (p : path) (x : string) :
last p = Some x → removelast p ++ [x] = p.
Proof.
intros [l ->]%last_Some. by rewrite removelast_last.
Qed.

(** [readdir] lists the names below a directory. *)
Lemma elem_of_entries_of (d : path) (f : gmap path node) (x : string) :
x ∈ fs_extra.entries_of d f ↔ is_Some (f !! (d ++ [x])).
Proof.
unfold fs_extra.entries_of. rewrite list_elem_of_omap. split.
- intros ([p n] & Hin & Hx). simpl in Hx.
  destruct (bool_decide (removelast p = d)) eqn:Hd; [|done].
  apply bool_decide_eq_true in Hd. subst d.
  rewrite (removelast_last_app p x Hx).
  apply elem_of_map_to_list in Hin. eauto.
- intros [n Hn]. exists (d ++ [x], n). split.
  + by apply elem_of_map_to_list.
  + simpl. rewrite removelast_last, bool_decide_eq_true_2 by done.
    by rewrite last_snoc.
Qed.

End Entries.

Section QuickPlan.
Context `{Environment}.

Lemma readFile_Ok (p : path) w c w' :
fs_extra.readFile p w = (Ok c, w') → fs w !! p = Some (File c) ∧ w' = w.
Proof.
unfold fs_extra.readFile. destruct (fs w !! p) as [[|c0|t]|]; try done.
by intros [= -> ->].
Qed.

(** Property X16.  The quick plan that [_readQuickPlan] returns is read from the entry of
  .planning/quick whose name is greatest in the order of the default sort:
  no entry of that directory, file or directory, has a greater name.  Its
  only document is the PLAN.md of that entry, and its tasks are the ones
  found in it. *)
Theorem readQuickPlan_takes_the_latest (ws : path) (w : World) (plan : Plan)
  (w' : World) :
Planner._readQuickPlan ws w = (Ok (Some plan), w') →
let quickDir := Planner.planDir ws ++ ["quick"] in
∃ latest content,
  is_Some (fs w !! (quickDir ++ [latest]))
  ∧ (∀ d, is_Some (fs w !! (quickDir ++ [d])) → string_le d latest)
  ∧ fs w !! (quickDir ++ [latest; "PLAN.md"]) = Some (File content)
  ∧ _extractTasks content = Ok (tasks plan)
  ∧ files plan = [("PLAN.md", content)]
  ∧ phase plan = None ∧ plan_type plan = "quick".
Proof.
intros Hrun quickDir. unfold Planner._readQuickPlan in Hrun. fold quickDir in Hrun.
unfold bind at 1, fs_extra.pathExists at 1 in Hrun.
match type of Hrun with context [negb ?b] => destruct b; [|done] end.
cbn [negb] in Hrun.
unfold bind at 1, fs_extra.readdir at 1 in Hrun.
match type of Hrun with context [fs_extra.is_dir ?f ?d] =>
  destruct (fs_extra.is_dir f d); [|done] end.
match type of Hrun with context [last ?l] =>
  destruct (last l) as [latest|] eqn:Hlast; [|done] end.
apply sort_strings_last in Hlast as [Hin Hmax].
destruct (decide (latest = "")); [done|].
unfold bind at 1, fs_extra.pathExists at 1 in Hrun.
match type of Hrun with context [negb ?b] => destruct b; [|done] end.
cbn [negb] in Hrun.
unfold bind at 1 in Hrun.
match type of Hrun with context [fs_extra.readFile ?p w] =>
  destruct (fs_extra.readFile p w) as [[content|e] w1] eqn:Hread; [|done] end.
apply readFile_Ok in Hread as [Hfile ->].
unfold bind at 1, lift at 1 in Hrun.
destruct (_extractTasks content) as [ts|e] eqn:Hts; [|done].
injection Hrun as <- <-.
exists latest, content. simpl.
split; [by apply elem_of_entries_of|].
split; [intros d Hd; by apply Hmax, elem_of_entries_of|]. done.
Qed.

End QuickPlan.

(** The plan of phase 3, with one task in PLAN.md and a roadmap, is read from
    the directory phase-03. *)
Lemma readGSDPlan_reflects_disk_witness :
  let w := test_world
             (scaffold [ (["w"; ".planning"; "phase-03"], Dir);
                         (["w"; ".planning"; "phase-03"; "PLAN.md"],
                          File "- [ ] build login");
                         (["w"; ".planning"; "phase-03"; "ROADMAP.md"], File "Phase 3") ])
             session0 in
  exact_phase (Some (Num 3))
  ∧ ∃ content,
      fs w !! ((["w"; ".planning"] ++ ["phase-" +:+ padStart2 "3"]) ++ ["PLAN.md"])
      = Some (File content)
      ∧ _extractTasks content = Ok ["build login"]
      ∧ ["build login"] ≠ [].
Proof.
  intros w.
  assert (exact_phase (Some (Num 3))) as Hph by (by vm_compute).
  split; [exact Hph|].
  refine (proj2 (proj2 (@readGSDPlan_reflects_disk ["w"] (Some (Num 3)) w
            (MkPlan "phase" (Some (Num 3)) ["build login"]
               [("PLAN.md", "- [ ] build login"); ("ROADMAP.md", "Phase 3")]) w Hph _))).
  vm_compute. reflexivity.
Defined.

(** Two quick plans: the second one is read. *)
Lemma readQuickPlan_takes_the_latest_witness :
  let w := test_world
             (scaffold [ (["w"; ".planning"; "quick"], Dir);
                         (["w"; ".planning"; "quick"; "001-login"], Dir);
                         (["w"; ".planning"; "quick"; "001-login"; "PLAN.md"],
                          File "- [ ] fix login");
                         (["w"; ".planning"; "quick"; "002-tests"], Dir);
                         (["w"; ".planning"; "quick"; "002-tests"; "PLAN.md"],
                          File "- [ ] add tests") ])
             session0 in
  let quickDir := Planner.planDir ["w"] ++ ["quick"] in
  ∃ latest content,
    is_Some (fs w !! (quickDir ++ [latest]))
    ∧ (∀ d, is_Some (fs w !! (quickDir ++ [d])) → string_le d latest)
    ∧ fs w !! (quickDir ++ [latest; "PLAN.md"]) = Some (File content)
    ∧ _extractTasks content = Ok ["add tests"]
    ∧ [("PLAN.md", "- [ ] add tests")] = [("PLAN.md", content)]
    ∧ @None number = None ∧ "quick" = "quick".
Proof.
  intros w.
  refine (@readQuickPlan_takes_the_latest ["w"] w
            (MkPlan "quick" None ["add tests"] [("PLAN.md", "- [ ] add tests")]) w _).
  vm_compute. reflexivity.
Defined.

(** ** The next phase *)

Section NextPhase.

(** Where a greedy repetition hands over: after a run of characters of the
  class. *)
Lemma star_loop_some {X} p s (k : list ascii → option X) x :
star_loop p s k = Some x →
∃ n : nat, (n ≤ length s)%nat ∧ forallb p (take n s) = true ∧ k (drop n s) = Some x.
Proof.
induction s as [|c s IH]; simpl.
- intros Hk. exists 0%nat. by rewrite drop_0.
- destruct (p c) eqn:Hc.
  + destruct (star_loop p s k) as [y|] eqn:Hs.
    * intros [= ->]. destruct (IH eq_refl) as (n & Hn & Hp & Hk).
      exists (S n). simpl. rewrite Hc, Hp. split; [lia|done].
    * intros Hk. exists 0%nat. simpl. split; [lia|done].
  + intros Hk. exists 0%nat. simpl. split; [lia|done].
Qed.

(** The group of [\d+] holds at least one character, a digit. *)
Lemma group_digits s caps caps' :
run true (Group 1 (Plus CDigit)) s caps (λ _ c, Some c) = Some caps' →
∃ c ds, capture 1 caps' = Some (c :: ds) ∧ Js.is_digit c = true.
Proof.
cbn [run]. destruct s as [|c rest]; [done|].
change (cset_mem true CDigit) with Js.is_digit.
destruct (Js.is_digit c) eqn:Hc; [|done].
intros (n & Hn & _ & Hk)%star_loop_some. injection Hk as <-.
exists c, (take n rest). split; [|done].
cbn [capture]. rewrite decide_True by done.
rewrite length_drop. cbn [length].
replace (S (length rest) - (length rest - n))%nat with (S n) by lia. done.
Qed.

Lemma match_here_phase s caps :
match_here true phase_re s = Some caps →
∃ c ds, capture 1 caps = Some (c :: ds) ∧ Js.is_digit c = true.
Proof.
unfold match_here, phase_re. cbn [run].
do 6 (destruct s as [|? s]; [done|];
      match goal with |- context [cset_mem true ?a ?c] =>
        destruct (cset_mem true a c); [|done] end).
intros (n & _ & _ & Hk)%star_loop_some.
apply (group_digits (drop n s) [] caps). exact Hk.
Qed.

Lemma search_phase s caps :
search true phase_re s = Some caps →
∃ c ds, capture 1 caps = Some (c :: ds) ∧ Js.is_digit c = true.
Proof.
induction s as [|c s IH]; cbn [search].
- destruct (match_here true phase_re []) eqn:E; [|done].
  intros [= <-]. by eapply match_here_phase.
- destruct (match_here true phase_re (c :: s)) eqn:E.
  + intros [= <-]. by eapply match_here_phase.
  + apply IH.
Qed.

Lemma digit_not_space c : Js.is_digit c = true → Js.is_space c = false.
Proof. destruct c as [[] [] [] [] [] [] [] []]; vm_compute; congruence. Qed.

Lemma parseInt_digits c ds :
Js.is_digit c = true → ∃ n, parseInt (string_of_list_ascii (c :: ds)) = Num n.
Proof.
intros Hc. unfold parseInt. rewrite list_ascii_of_string_of_list_ascii.
unfold Js.trim_start. cbn [Js.drop_while]. rewrite (digit_not_space c Hc).
cbn [Js.take_while]. rewrite Hc. by eexists.
Qed.

End NextPhase.

(** Property X17.  [_nextPhase] returns null exactly when there is no roadmap, and a number
    otherwise: the group of the match always begins with a digit, so that
    [parseInt] never gives NaN, and a roadmap without a phase gives 1. *)
Theorem nextPhase_is_a_number (ws : path) (w : World) (ph : option number)
    (w' : World) :
  Planner._nextPhase ws w = (Ok ph, w') →
  (ph = None ↔ fs w !! (Planner.planDir ws ++ ["ROADMAP.md"]) = None)
  ∧ ∀ x, ph = Some x → ∃ n, x = Num n.
Proof.
  unfold Planner._nextPhase.
  unfold bind at 1, fs_extra.pathExists at 1.
  destruct (fs w !! (Planner.planDir ws ++ ["ROADMAP.md"])) as [nd|] eqn:Hn.
  - rewrite bool_decide_eq_true_2 by eauto. cbn [negb].
    unfold bind at 1.
    destruct (fs_extra.readFile _ w) as [[content|e] w1]; [|done].
    destruct (str_match true phase_re content) as [m|] eqn:Hm.
    + intros [= <- _]. split; [done|]. intros x [= <-].
      apply search_phase in Hm as (c & ds & Hcap & Hc).
      unfold group. rewrite Hcap. simpl. by apply parseInt_digits.
    + intros [= <- _]. split; [done|]. intros x [= <-]. by eexists.
  - rewrite bool_decide_eq_false_2
      by (intros [x Hx]; unfold path in *; rewrite Hn in Hx; done).
    intros [= <- _]. split; [done|]. done.
Qed.

(** A roadmap whose first phase is phase 12. *)
Lemma nextPhase_is_a_number_witness :
  let w := test_world
             (scaffold [(["w"; ".planning"; "ROADMAP.md"], File "## phase  12: login")])
             session0 in
  (Some (Num 12) = None ↔ fs w !! (Planner.planDir ["w"] ++ ["ROADMAP.md"]) = None)
  ∧ ∀ x, Some (Num 12) = Some x → ∃ n, x = Num n.
Proof.
  intros w. refine (@nextPhase_is_a_number ["w"] w (Some (Num 12)) w _).
  vm_compute. reflexivity.
Defined.

(** ** The session-state document *)

Section SessionState.
Context `{Environment} `{JsonCodec}.
Implicit Types (w : World) (s : Session).

Lemma active_document_state s now :
active_document s now = JSON_stringify (active_state s now) +:+ Js.nl.
Proof. done. Qed.

Lemma active_state_props s now :
get_prop (active_state s now) "status" = Ok (Some (JStr "active"))
∧ get_prop (active_state s now) "id" = Ok (id s).
Proof. unfold active_state, object_literal. by destruct (id s). Qed.

Lemma ended_state_props s now :
get_prop (ended_state s now) "status" = Ok (Some (JStr "ended"))
∧ get_prop (ended_state s now) "id" = Ok (id s).
Proof. unfold ended_state, object_literal. by destruct (id s). Qed.

Lemma saveState_ended w now :
SessionM._saveState [("status", Some (JStr "ended")); ("endedAt", Some (JStr now))] w
= fs_extra.writeFile (stateFile (sess w))
    (JSON_stringify (ended_state (sess w) now) +:+ Js.nl) w.
Proof. done. Qed.

Lemma is_dir_insert_file (f : gmap path node) (p d : path) c :
fs_extra.is_dir f d = true → p ≠ d → fs_extra.is_dir (<[p := File c]> f) d = true.
Proof.
unfold fs_extra.is_dir. destruct d as [|x d]; [done|]. intros Hd Hne.
by rewrite lookup_insert_ne.
Qed.

Lemma parent_ne (p : path) : p ≠ [] → p ≠ fs_extra.parent p.
Proof.
intros Hne Heq. apply (f_equal length) in Heq. unfold fs_extra.parent in Heq.
destruct p as [|x p] using rev_ind; [done|].
rewrite removelast_last, length_app in Heq. simpl in Heq. lia.
Qed.

(** A restart over the document that a closed session left behind. *)
Lemma restart_over w text prev status pid s2 :
fs w !! stateFile (sess w) = Some (File text) →
fs_extra.is_dir (fs w) (fs_extra.parent (stateFile (sess w))) = true →
JSON_parse text = Some prev →
get_prop prev "status" = Ok status → get_prop prev "id" = Ok pid →
stateFile s2 = stateFile (sess w) →
∃ w2, SessionM._loadOrInitState (set_sess s2 w) = (Ok tt, w2)
      ∧ id (sess w2) = (if strict_ne_string status "ended" then pid else id s2)
      ∧ ∃ now, fs w2 !! stateFile s2 = Some (File (active_document (sess w2) now)).
Proof.
intros Hf Hd Hp Hst Hid Hsf.
destruct (strict_ne_string status "ended") eqn:Hne.
- apply strict_ne_string_spec in Hne.
  rewrite (load_resumes (set_sess s2 w) text prev status pid); try done;
    [|by simpl; rewrite Hsf].
  rewrite (writeFile_over_file _ _ text); [|by simpl; rewrite Hsf..].
  eexists. split; [done|]. split; [done|]. eexists. simpl. by rewrite lookup_insert_eq.
- apply strict_ne_string_false in Hne as ->.
  rewrite (load_ended (set_sess s2 w) text prev); try done; [|by simpl; rewrite Hsf].
  rewrite (writeFile_over_file _ _ text); [|by simpl; rewrite Hsf..].
  eexists. split; [done|]. split; [done|]. eexists. simpl. by rewrite lookup_insert_eq.
Qed.

Lemma is_dir_parent_insert (f : gmap path node) (p : path) c :
fs_extra.is_dir f (fs_extra.parent p) = true →
fs_extra.is_dir (<[p := File c]> f) (fs_extra.parent p) = true.
Proof.
intros Hd. destruct (decide (p = [])) as [->|Hne]; [done|].
apply is_dir_insert_file; [done|]. by apply parent_ne.
Qed.

(** Property X18.  Save, then load: a session that has written its first state document is
  resumed by the next session object of the same workspace, which takes
  over its identifier.  The codec reads the written document back. *)
Theorem restart_resumes_started_session (w : World) (s2 : Session) :
let s := sess w in
fs w !! stateFile s = None →
fs_extra.is_dir (fs w) (fs_extra.parent (stateFile s)) = true →
JSON_parse (JSON_stringify (active_state s (clock w)) +:+ Js.nl)
= Some (active_state s (clock w)) →
stateFile s2 = stateFile s →
∃ w1 w2, SessionM._loadOrInitState w = (Ok tt, w1)
         ∧ SessionM._loadOrInitState (set_sess s2 w1) = (Ok tt, w2)
         ∧ id (sess w2) = id s.
Proof.
intros s Hf Hd Hcodec Hsf.
rewrite (load_absent w) by done.
rewrite writeFile_ok; [|done|by fold s; rewrite Hf].
eexists. 
destruct (active_state_props s (clock w)) as [Hst Hid].
edestruct (restart_over
             (emit (EvWrite (stateFile s) (active_document s (clock w)))
                (set_fs (<[stateFile s := File (active_document s (clock w))]> (fs w)) w))
             (active_document s (clock w)) (active_state s (clock w))
             (Some (JStr "active")) (id s) s2)
  as (w2 & Hrun & Hid2 & _); try done.
- simpl. by rewrite lookup_insert_eq.
- simpl. by apply is_dir_parent_insert.
- exists w2. split; [done|]. split; [exact Hrun|]. exact Hid2.
Qed.

(** Property X19.  End, then load: after the state document of a closed session has been
  written, the next session object of the same workspace keeps its own
  identifier and writes a document with status active again. *)
Theorem restart_after_end_is_fresh (w : World) (now : string) (w1 : World)
  (s2 : Session) :
SessionM._saveState [("status", Some (JStr "ended")); ("endedAt", Some (JStr now))] w
= (Ok tt, w1) →
JSON_parse (JSON_stringify (ended_state (sess w) now) +:+ Js.nl)
= Some (ended_state (sess w) now) →
stateFile s2 = stateFile (sess w) →
∃ w2, SessionM._loadOrInitState (set_sess s2 w1) = (Ok tt, w2)
      ∧ id (sess w2) = id s2
      ∧ ∃ now', fs w2 !! stateFile s2 = Some (File (active_document (sess w2) now')).
Proof.
intros Hsave Hcodec Hsf. rewrite saveState_ended in Hsave.
apply writeFile_Ok in Hsave as [-> Hd].
destruct (ended_state_props (sess w) now) as [Hst Hid].
edestruct (restart_over
             (emit (EvWrite (stateFile (sess w))
                      (JSON_stringify (ended_state (sess w) now) +:+ Js.nl))
                (set_fs (<[stateFile (sess w) :=
                             File (JSON_stringify (ended_state (sess w) now) +:+ Js.nl)]>
                           (fs w)) w))
             (JSON_stringify (ended_state (sess w) now) +:+ Js.nl)
             (ended_state (sess w) now) (Some (JStr "ended")) (id (sess w)) s2)
  as (w2 & Hrun & Hid2 & Hdoc); try done.
- simpl. by rewrite lookup_insert_eq.
- simpl. by apply is_dir_parent_insert.
- exists w2. split; [exact Hrun|]. split; [exact Hid2|exact Hdoc].
Qed.

End SessionState.

(** Start and restart with the reference codec. *)
Lemma restart_resumes_started_session_witness :
  let w := test_world (scaffold []) session0 in
  let s2 := new_Session ["w"] false true None "uuid-2" in
  ∃ w1 w2, @SessionM._loadOrInitState two_agents Json.codec w = (Ok tt, w1)
           ∧ @SessionM._loadOrInitState two_agents Json.codec (set_sess s2 w1) = (Ok tt, w2)
           ∧ id (sess w2) = Some (JStr "uuid-1").
Proof.
  intros w s2.
  apply (@restart_resumes_started_session two_agents Json.codec w s2);
    vm_compute; reflexivity.
Defined.

(** End and restart with the reference codec. *)
Lemma restart_after_end_is_fresh_witness :
  let w := test_world (scaffold []) session0 in
  let s2 := new_Session ["w"] false true None "uuid-2" in
  let ended := [("status", Some (JStr "ended"));
                ("endedAt", Some (JStr "2026-01-02T00:00:00.000Z"))] in
  let w1 := (@SessionM._saveState Json.codec ended w).2 in
  ∃ w2, @SessionM._loadOrInitState two_agents Json.codec (set_sess s2 w1) = (Ok tt, w2)
        ∧ id (sess w2) = Some (JStr "uuid-2")
        ∧ ∃ now', fs w2 !! stateFile s2
                  = Some (File (@active_document Json.codec (sess w2) now')).
Proof.
  intros w s2 ended w1.
  apply (@restart_after_end_is_fresh two_agents Json.codec w "2026-01-02T00:00:00.000Z" w1 s2);
    vm_compute; reflexivity.
Defined.

Section EnsureDirs.
Context `{Environment} `{JsonCodec}.

Lemma ensureDir_spec (d : path) w w' :
fs_extra.ensureDir d w = (Ok tt, w') →
sess w' = sess w
∧ (∀ p n, fs w !! p = Some n → fs w' !! p = Some n)
∧ (d ≠ [] → fs w' !! d = Some Dir)
∧ (∀ p, (∀ k : nat, p ≠ take k d) → fs w' !! p = fs w !! p).
Proof.
intros Hrun. pose proof (ensureDir_ok _ _ _ Hrun) as (Hmk & _ & Hs).
split; [done|]. split; [|split].
- intros p n Hp. by eapply mkdirs_keeps.
- intros Hne. pose proof (mkdirs_post [] d _ _ (length d) Hmk) as Hd.
  rewrite firstn_all in Hd. apply Hd. destruct d; [done|]. simpl. lia.
- intros p Hp. by eapply (mkdirs_other [] d).
Qed.

Lemma take_app_ne (ws : path) (a b : list string) (k : nat) :
length a = length b → a ≠ b → ws ++ a ≠ take k (ws ++ b).
Proof.
intros Hlen Hne Heq.
destruct (decide (length (ws ++ b) ≤ k)%nat) as [Hk|Hk].
- rewrite take_ge in Heq by done. by apply app_inv_head in Heq.
- apply (f_equal length) in Heq. rewrite length_take, !length_app in *. lia.
Qed.

Lemma take_app_longer (ws : path) (a b : list string) (k : nat) :
(length b < length a)%nat → ws ++ a ≠ take k (ws ++ b).
Proof.
intros Hlen Heq. apply (f_equal length) in Heq.
rewrite length_take, !length_app in Heq. lia.
Qed.

(** Property X20.  The first two steps of [start] on a workspace without a state document:
  when [_ensureDirs] returns, nothing that was on disk is lost, the three
  directories exist, and [_loadOrInitState] cannot fail: it writes the
  state document under the identifier of the session. *)
Theorem ensureDirs_prepares_first_state (w w1 : World) :
let s := sess w in
stateFile s = workspace s ++ [".zeroclaw"; "session.json"] →
fs w !! stateFile s = None →
SessionM._ensureDirs w = (Ok tt, w1) →
(∀ p n, fs w !! p = Some n → fs w1 !! p = Some n)
∧ fs w1 !! (workspace s ++ [".zeroclaw"]) = Some Dir
∧ fs w1 !! (workspace s ++ [".planning"]) = Some Dir
∧ fs w1 !! (workspace s ++ ["docs"; "session-logs"]) = Some Dir
∧ ∃ w2, SessionM._loadOrInitState w1 = (Ok tt, w2)
        ∧ sess w2 = s
        ∧ fs w2 !! stateFile s = Some (File (active_document s (clock w1))).
Proof.
intros s Hsf Hf. unfold SessionM._ensureDirs.
unfold bind at 1, get_sess at 1. fold s.
unfold bind at 1.
destruct (fs_extra.ensureDir (workspace s ++ [".zeroclaw"]) w) as [[[]|e] wa] eqn:Ea; [|done].
unfold bind at 1.
destruct (fs_extra.ensureDir (workspace s ++ [".planning"]) wa) as [[[]|e] wb] eqn:Eb; [|done].
intros Ec.
apply ensureDir_spec in Ea as (Hsa & Hka & Hda & Hoa).
apply ensureDir_spec in Eb as (Hsb & Hkb & Hdb & Hob).
apply ensureDir_spec in Ec as (Hsc & Hkc & Hdc & Hoc).
assert (fs w1 !! (workspace s ++ [".zeroclaw"]) = Some Dir) as Hz.
{ apply Hkc, Hkb, Hda. by destruct (workspace s). }
assert (fs w1 !! stateFile s = None) as Hf1.
{ rewrite Hoc, Hob, Hoa; [done|..]; rewrite Hsf; intros k;
    first [ apply take_app_longer; simpl; lia | apply take_app_ne; done ]. }
assert (sess w1 = s) as Hs1 by (by rewrite Hsc, Hsb, Hsa).
split; [by auto|]. split; [done|].
split; [apply Hkc, Hdb; by destruct (workspace s)|].
split; [apply Hdc; by destruct (workspace s)|].
rewrite (load_absent w1) by by rewrite Hs1.
rewrite Hs1. rewrite writeFile_ok.
- eexists. split; [done|]. split; [done|]. simpl. by rewrite lookup_insert_eq.
- rewrite Hsf.
  replace (fs_extra.parent (workspace s ++ [".zeroclaw"; "session.json"]))
    with (workspace s ++ [".zeroclaw"]).
  + by apply is_dir_lookup.
  + unfold fs_extra.parent.
    change (workspace s ++ [".zeroclaw"; "session.json"])
      with (workspace s ++ [".zeroclaw"] ++ ["session.json"]).
    by rewrite (assoc_L (++)), removelast_last.
- by rewrite Hf1.
Qed.

End EnsureDirs.

(** A new workspace directory. *)
Lemma ensureDirs_prepares_first_state_witness :
  let w := test_world [(["w"], Dir)] session0 in
  let w1 := (SessionM._ensureDirs w).2 in
  (∀ p n, fs w !! p = Some n → fs w1 !! p = Some n)
  ∧ fs w1 !! (["w"] ++ [".zeroclaw"]) = Some Dir
  ∧ fs w1 !! (["w"] ++ [".planning"]) = Some Dir
  ∧ fs w1 !! (["w"] ++ ["docs"; "session-logs"]) = Some Dir
  ∧ ∃ w2, @SessionM._loadOrInitState two_agents Json.codec w1 = (Ok tt, w2)
          ∧ sess w2 = session0
          ∧ fs w2 !! stateFile session0
            = Some (File (@active_document Json.codec session0
                            (@clock two_agents w1))).
Proof.
  intros w w1.
  apply (@ensureDirs_prepares_first_state two_agents Json.codec w w1);
    vm_compute; reflexivity.
Defined.

(** ** The task briefs *)

Section Briefs.
Context `{Environment}.
Hypothesis Htmux : tmux_works.
Variable ws : path.

Local Abbreviation brief a := (ws ++ [".zeroclaw"; a +:+ "-task.md"]).

Lemma brief_inj a b : brief a = brief b → a = b.
Proof.
intros Heq. apply app_inv_head in Heq. injection Heq as Heq.
by apply append_inj_r in Heq.
Qed.

Lemma brief_ne_dir a : brief a ≠ ws ++ [".zeroclaw"].
Proof.
intros Heq. apply (f_equal length) in Heq. rewrite !length_app in Heq.
simpl in Heq. lia.
Qed.

(** The launch of one worker writes its brief and nothing else. *)
Lemma launchAgentPane_fs a prompt idx w :
is_Some (JsObject.get a AGENTS) → brief_writable ws a w →
∃ w', Distributor._launchAgentPane ws "zeroclaw" a prompt idx w = (Ok tt, w')
      ∧ fs w' = <[brief a := File prompt]> (fs w).
Proof.
intros [agent Hagent] [Hdir Hfile].
unfold Distributor._launchAgentPane. rewrite Hagent.
unfold Distributor._superpowersBootstrap. rewrite Hagent.
unfold bind at 1.
rewrite writeFile_ok; [|by rewrite parent_brief, (is_dir_lookup _ _ Hdir)|done].
unfold lift. unfold bind at 1. unfold bind at 1. rewrite (execa_tmux Htmux) by done.
unfold bind at 1. rewrite (execa_tmux Htmux) by done.
unfold bind at 1. rewrite (execa_tmux Htmux) by done.
unfold log.info. eexists. split; [reflexivity|]. done.
Qed.

Lemma launch_panes_fs plan entries idx w :
Forall (λ e, is_Some (JsObject.get e.1 AGENTS)) entries →
NoDup entries.*1 →
(∀ e, e ∈ entries → brief_writable ws e.1 w) →
∃ w', Distributor.launch_panes ws "zeroclaw" plan entries idx w = (Ok tt, w')
      ∧ (∀ a ts, (a, ts) ∈ entries →
           fs w' !! brief a = Some (File (Distributor._buildAgentPrompt ws a ts plan)))
      ∧ (∀ p, (∀ e, e ∈ entries → p ≠ brief e.1) → fs w' !! p = fs w !! p).
Proof.
revert idx w. induction entries as [|[a ts] entries IH]; intros idx w Hreg Hnd Hwr.
- exists w. split; [done|]. split; [|done]. intros a ts Hin. by apply elem_of_nil in Hin.
- apply Forall_cons in Hreg as [Ha Hreg]. rewrite fmap_cons in Hnd.
  apply NoDup_cons in Hnd as [Hnin Hnd]. cbn [Distributor.launch_panes].
  destruct (launchAgentPane_fs a (Distributor._buildAgentPrompt ws a ts plan) idx w Ha)
    as (w1 & Hrun & Hfs).
  { apply (Hwr (a, ts)). by left. }
  destruct (IH (S idx) w1 Hreg Hnd) as (w2 & Hrun2 & Hbriefs & Hother).
  { intros e He. destruct (Hwr e) as [Hd Hf]; [by right|].
    unfold brief_writable. rewrite Hfs. split.
    - rewrite lookup_insert_ne; [done|]. apply brief_ne_dir.
    - destruct (decide (e.1 = a)) as [Heq|Hne].
      + rewrite Heq. by rewrite lookup_insert_eq.
      + rewrite lookup_insert_ne; [done|]. intros Hb. by apply brief_inj in Hb. }
  exists w2. unfold bind. rewrite Hrun, Hrun2. split; [done|]. split.
  + intros b tb [[= -> ->]|Hin]%elem_of_cons; [|by apply Hbriefs].
    rewrite Hother; [rewrite Hfs; apply lookup_insert_eq|].
    intros e He Hb. apply brief_inj in Hb. subst a. apply Hnin.
    simpl. by apply (list_elem_of_fmap_2 fst).
  + intros p Hp. rewrite Hother; [rewrite Hfs|].
    * rewrite lookup_insert_ne; [done|]. intros Heq. apply (Hp (a, ts)); [by left|done].
    * intros e He. apply Hp. by right.
Qed.

Lemma launchTmux_fs (asg : JsObject.t (list string)) plan w :
Forall (λ e, is_Some (JsObject.get e.1 AGENTS)) asg →
NoDup (JsObject.keys asg) →
(∀ e, e ∈ asg → brief_writable ws e.1 w) →
∃ w', Distributor._launchTmux ws asg plan w = (Ok tt, w')
      ∧ (∀ a ts, (a, ts) ∈ asg →
           fs w' !! brief a = Some (File (Distributor._buildAgentPrompt ws a ts plan)))
      ∧ (∀ p, (∀ e, e ∈ asg → p ≠ brief e.1) → fs w' !! p = fs w !! p).
Proof.
intros Hreg Hnd Hwr. unfold Distributor._launchTmux.
unfold bind at 1.
match goal with |- context [try_catch _ _ ?w0] =>
  destruct (kill_session_ok Htmux "zeroclaw" w0) as [killed ->] end.
unfold bind at 1. rewrite (execa_tmux Htmux) by done.
unfold bind at 1.
match goal with |- context [Distributor._statusScript ws plan ?w] =>
  destruct (statusScript_ok ws plan w) as [script ->] end.
unfold bind at 1. rewrite (execa_tmux Htmux) by done.
unfold bind at 1.
match goal with |- context [Distributor.launch_panes _ _ _ _ _ ?w] =>
  destruct (launch_panes_fs plan (JsObject.entries asg) 0 w Hreg Hnd)
    as (w2 & Hrun & Hbriefs & Hother); [by (intros e He; apply Hwr)|] end.
rewrite Hrun. unfold bind, get_sess. rewrite (execa_tmux Htmux) by done.
eexists. split; [reflexivity|]. split; [exact Hbriefs|exact Hother].
Qed.

End Briefs.

(** Property X21.  From the plan to the briefs: when tmux works, the available workers are
    distinct workers of the catalog and their briefs can be written, the
    assignment of the tasks and the launch both succeed, and afterwards the
    brief of every worker on disk is the prompt built from its round-robin
    share of the tasks; no other file is touched. *)
Theorem briefs_hold_the_assigned_tasks `{Environment} (ws : path) (plan : Plan)
    (available : list string) (w : World) :
  tmux_works →
  available ≠ [] → NoDup available →
  Forall (λ a, is_Some (JsObject.get a AGENTS)) available →
  (∀ a, a ∈ available → brief_writable ws a w) →
  ∃ asg w', _assignTasks (tasks plan) available = Ok asg
    ∧ Distributor._launchTmux ws asg plan w = (Ok tt, w')
    ∧ (∀ a, a ∈ available →
         fs w' !! (ws ++ [".zeroclaw"; a +:+ "-task.md"])
         = Some (File (Distributor._buildAgentPrompt ws a
                         (tasks_of available a (tasks plan)) plan)))
    ∧ (∀ p, (∀ a, a ∈ available → p ≠ ws ++ [".zeroclaw"; a +:+ "-task.md"]) →
         fs w' !! p = fs w !! p).
Proof.
  intros Htmux Hne Hnd Hcat Hwr.
  destruct (assignTasks_spec (tasks plan) available Hne) as (asg & Hasg & _ & _).
  destruct (assignTasks_table (tasks plan) available asg Hne Hasg) as (Hndk & Hkeys & Htab).
  assert (∀ e, e ∈ asg → e.1 ∈ available) as Hin.
  { intros e He. apply Hkeys. by apply (list_elem_of_fmap_2 fst). }
  destruct (launchTmux_fs Htmux ws asg plan w) as (w' & Hrun & Hbriefs & Hother).
  - apply Forall_forall. intros e He. apply (proj1 (Forall_forall _ _) Hcat). by apply Hin.
  - done.
  - intros e He. by apply Hwr, Hin.
  - exists asg, w'. split; [done|]. split; [done|]. split.
    + intros a Ha. apply Hbriefs. rewrite Htab.
      apply (list_elem_of_fmap_2 (λ a, (a, tasks_of available a (tasks plan)))).
      by apply Hkeys.
    + intros p Hp. apply Hother. intros e He. by apply Hp, Hin.
Qed.

(** gemini and codex share two tasks. *)
Lemma briefs_hold_the_assigned_tasks_witness :
  let w := test_world (scaffold []) session0 in
  ∃ asg w', _assignTasks (tasks two_tasks) ["gemini"; "codex"] = Ok asg
    ∧ @Distributor._launchTmux two_agents ["w"] asg two_tasks w = (Ok tt, w')
    ∧ (∀ a, a ∈ ["gemini"; "codex"] →
         fs w' !! (["w"] ++ [".zeroclaw"; a +:+ "-task.md"])
         = Some (File (Distributor._buildAgentPrompt ["w"] a
                         (tasks_of ["gemini"; "codex"] a (tasks two_tasks)) two_tasks)))
    ∧ (∀ p, (∀ a, a ∈ ["gemini"; "codex"] → p ≠ ["w"] ++ [".zeroclaw"; a +:+ "-task.md"]) →
         fs w' !! p = fs w !! p).
Proof.
  intros w.
  apply (@briefs_hold_the_assigned_tasks two_agents ["w"] two_tasks ["gemini"; "codex"] w).
  - exact two_agents_tmux_works.
  - done.
  - apply (bool_decide_unpack _). by vm_compute.
  - repeat constructor; vm_compute; eauto.
  - intros a Ha. split.
    + vm_compute. reflexivity.
    + apply elem_of_cons in Ha as [->|Ha]; [vm_compute; exact I|].
      apply elem_of_cons in Ha as [->|Ha]; [vm_compute; exact I|].
      by apply elem_of_nil in Ha.
Defined.

(** ** Slugs *)

Section Slugs.

Local Abbreviation dash := ("-"%char).

Lemma is_dash_spec c : Git.is_dash c = true ↔ c = dash.
Proof. unfold Git.is_dash. apply bool_decide_eq_true. Qed.

Lemma dash_runs_chars b s : slug_chars (Git.dash_runs b s).
Proof.
revert b. induction s as [|c s IH]; intros b; simpl; [constructor|].
destruct (Git.is_slug_char c) eqn:Hc.
- constructor; [by left|apply IH].
- destruct b; [apply IH|]. constructor; [by right|apply IH].
Qed.

(** Inside a run no dash is at the front. *)
Lemma dash_runs_head s : head (Git.dash_runs true s) ≠ Some dash.
Proof.
induction s as [|c s IH]; simpl; [done|].
destruct (Git.is_slug_char c) eqn:Hc; [|done].
simpl. intros [= ->]. discriminate Hc.
Qed.

Lemma no_double_dash_nil : no_double_dash [].
Proof. intros a b Heq. by destruct a. Qed.

Lemma no_double_dash_cons c s :
no_double_dash s → (c = dash → head s ≠ Some dash) → no_double_dash (c :: s).
Proof.
intros Hs Hc [|x a] b Heq.
- injection Heq as -> ->. by apply Hc.
- injection Heq as -> Heq. by apply (Hs a b).
Qed.

Lemma dash_runs_no_double b s : no_double_dash (Git.dash_runs b s).
Proof.
revert b. induction s as [|c s IH]; intros b; simpl; [apply no_double_dash_nil|].
destruct (Git.is_slug_char c) eqn:Hc.
- apply no_double_dash_cons; [apply IH|]. intros ->. discriminate Hc.
- destruct b; [apply IH|].
  apply no_double_dash_cons; [apply IH|]. intros _. apply dash_runs_head.
Qed.

(** What the two strippings and the slice keep is a piece of the text. *)
Lemma drop_while_suffix p s : ∃ pre, s = pre ++ Js.drop_while p s.
Proof. exists (Js.take_while p s). by rewrite take_while_drop_while. Qed.

Lemma strip_dashes_infix s : ∃ pre post, s = pre ++ Git.strip_dashes s ++ post.
Proof.
unfold Git.strip_dashes.
destruct (drop_while_suffix Git.is_dash s) as [pre Hpre].
destruct (drop_while_suffix Git.is_dash (reverse (Js.drop_while Git.is_dash s)))
  as [post Hpost].
exists pre, (reverse post).
rewrite <-reverse_app, <-Hpost, reverse_involutive. exact Hpre.
Qed.

Lemma slug_infix text :
∃ pre post,
  Git.dash_runs false (list_ascii_of_string (JsString.toLowerCase text))
  = pre ++ list_ascii_of_string (Git._slugify text) ++ post.
Proof.
unfold Git._slugify. rewrite list_ascii_of_string_of_list_ascii.
set (l := Git.dash_runs _ _).
destruct (strip_dashes_infix l) as (pre & post & Hl).
exists pre, (drop 40 (Git.strip_dashes l) ++ post).
rewrite (assoc_L (++) (take _ _)), take_drop. exact Hl.
Qed.

Lemma strip_dashes_head s : head (Git.strip_dashes s) ≠ Some dash.
Proof.
unfold Git.strip_dashes.
pose proof (drop_while_head Git.is_dash s) as Hh.
destruct (drop_while_suffix Git.is_dash (reverse (Js.drop_while Git.is_dash s)))
  as [post Hpost].
apply (f_equal reverse) in Hpost. rewrite reverse_involutive, reverse_app in Hpost.
set (r := reverse (Js.drop_while Git.is_dash (reverse (Js.drop_while Git.is_dash s)))) in *.
rewrite Hpost in Hh.
destruct r as [|c r]; [done|]. simpl in *. intros [= ->]. done.
Qed.

End Slugs.

Lemma slug_shape (text : string) :
  let s := list_ascii_of_string (Git._slugify text) in
  (length s ≤ 40)%nat ∧ slug_chars s ∧ head s ≠ Some "-"%char ∧ no_double_dash s.
Proof.
  intros s. destruct (slug_infix text) as (pre & post & Hl). fold s in Hl.
  split; [|split; [|split]].
  - subst s. unfold Git._slugify. rewrite list_ascii_of_string_of_list_ascii.
    rewrite length_take. lia.
  - pose proof (dash_runs_chars false
                  (list_ascii_of_string (JsString.toLowerCase text))) as Hc.
    rewrite Hl in Hc. unfold slug_chars in *.
    by apply Forall_app in Hc as [_ [Hc _]%Forall_app].
  - subst s. unfold Git._slugify. rewrite list_ascii_of_string_of_list_ascii.
    set (l := Git.strip_dashes _). pose proof (strip_dashes_head
      (Git.dash_runs false (list_ascii_of_string (JsString.toLowerCase text)))) as Hh.
    fold l in Hh. by destruct l.
  - intros a b Heq.
    apply (dash_runs_no_double false
             (list_ascii_of_string (JsString.toLowerCase text)) (pre ++ a) (b ++ post)).
    rewrite Hl, Heq. by rewrite <-!(assoc_L (++)).
Qed.

(** Property X22.  A slug is well formed: at most forty characters, each a lower-case
    letter, a digit or a dash; no dash at the front and no two dashes in a
    row. *)
Theorem slugify_well_formed (text : string) :
  let s := list_ascii_of_string (Git._slugify text) in
  (length s ≤ 40)%nat ∧ slug_chars s ∧ head s ≠ Some "-"%char ∧ no_double_dash s.
Proof. apply slug_shape. Qed.

Section SlugFixedPoint.

Lemma lower_slug_char c :
Git.is_slug_char c = true ∨ c = "-"%char → JsString.lower_char c = c.
Proof.
intros [Hc| ->]; [|done]. revert Hc.
destruct c as [[] [] [] [] [] [] [] []]; vm_compute; congruence.
Qed.

Lemma dash_runs_fixed b s :
slug_chars s → no_double_dash s → (b = true → head s ≠ Some "-"%char) →
Git.dash_runs b s = s.
Proof.
revert b. induction s as [|c s IH]; intros b Hc Hnd Hb; [done|].
apply Forall_cons in Hc as [Hc Hs]. simpl.
assert (no_double_dash s) as Hnd'.
{ intros a b' Heq. apply (Hnd (c :: a) b'). by rewrite Heq. }
destruct Hc as [Hc| ->].
- rewrite Hc. f_equal. by apply IH.
- change (Git.is_slug_char "-") with false. cbv iota.
  destruct b; [by destruct Hb|].
  f_equal. apply IH; [done|done|]. intros _ Hh.
  destruct s as [|d s]; [done|]. injection Hh as ->. by apply (Hnd [] s).
Qed.

Lemma strip_dashes_fixed s :
head s ≠ Some "-"%char → last s ≠ Some "-"%char → Git.strip_dashes s = s.
Proof.
intros Hh Hl. unfold Git.strip_dashes.
rewrite (drop_while_fix Git.is_dash s).
- rewrite drop_while_fix; [apply reverse_involutive|].
  destruct (reverse s) as [|c r] eqn:Hr; [done|].
  apply (f_equal reverse) in Hr. rewrite reverse_involutive, reverse_cons in Hr.
  subst s. rewrite last_snoc in Hl.
  unfold Git.is_dash. apply bool_decide_eq_false. intros ->. done.
- destruct s as [|c s]; [done|].
  unfold Git.is_dash. apply bool_decide_eq_false. intros ->. done.
Qed.

Lemma slugify_fixed (s : string) :
let l := list_ascii_of_string s in
(length l ≤ 40)%nat → slug_chars l → head l ≠ Some "-"%char →
last l ≠ Some "-"%char → no_double_dash l →
Git._slugify s = s.
Proof.
intros l Hlen Hc Hh Hl Hnd. unfold Git._slugify, JsString.toLowerCase.
rewrite list_ascii_of_string_of_list_ascii. fold l.
replace (JsString.lower_char <$> l) with l.
- rewrite dash_runs_fixed by done. rewrite strip_dashes_fixed by done.
  rewrite take_ge by done. apply string_of_list_ascii_of_string.
- clear -Hc. induction Hc as [|c l Hc Hl IH]; [done|].
  rewrite fmap_cons, <-IH. by rewrite lower_slug_char.
Qed.

End SlugFixedPoint.

(** Property X23.  Slugifying twice: a slug that does not end with a dash is a fixed point
    of [_slugify].  A slug can end with a dash only when the slice cut the
    text in front of one. *)
Theorem slugify_idempotent (text : string) :
  last (list_ascii_of_string (Git._slugify text)) ≠ Some "-"%char →
  Git._slugify (Git._slugify text) = Git._slugify text.
Proof.
  intros Hl. destruct (slug_shape text) as (Hlen & Hc & Hh & Hnd).
  by apply slugify_fixed.
Qed.

(** A task title. *)
Lemma slugify_idempotent_witness :
  Git._slugify (Git._slugify "Add Login Form!") = Git._slugify "Add Login Form!".
Proof. apply slugify_idempotent. vm_compute. discriminate. Defined.

(** ** The ignore file *)

Section Includes.

Lemma starts_with_app e b : JsString.starts_with e (e ++ b) = true.
Proof. induction e as [|c e IH]; simpl; [done|]. by rewrite bool_decide_eq_true_2, IH. Qed.

Lemma starts_with_spec e s : JsString.starts_with e s = true → ∃ b, s = e ++ b.
Proof.
revert s. induction e as [|c e IH]; intros s; simpl; [by eexists|].
destruct s as [|d s]; [done|].
intros [->%bool_decide_eq_true [b ->]%IH]%andb_prop. by eexists.
Qed.

Lemma includes_chars_unfold e s :
JsString.includes_chars e s
= JsString.starts_with e s
  || match s with [] => false | _ :: s' => JsString.includes_chars e s' end.
Proof. by destruct s. Qed.

Lemma includes_chars_intro e a b : JsString.includes_chars e (a ++ e ++ b) = true.
Proof.
induction a as [|c a IH].
- rewrite app_nil_l, includes_chars_unfold, starts_with_app. done.
- rewrite includes_chars_unfold. cbn [app]. rewrite IH. apply orb_true_r.
Qed.

Lemma includes_chars_spec e s :
JsString.includes_chars e s = true → ∃ a b, s = a ++ e ++ b.
Proof.
induction s as [|c s IH]; rewrite includes_chars_unfold.
- rewrite orb_false_r. intros [b ->]%starts_with_spec. by exists [], b.
- intros [[b ->]%starts_with_spec|[a [b ->]]%IH]%orb_prop.
  + by exists [], b.
  + by exists (c :: a), b.
Qed.

Lemma includes_intro (a e b : string) : JsString.includes (a +:+ e +:+ b) e = true.
Proof. unfold JsString.includes. rewrite !list_ascii_app. apply includes_chars_intro. Qed.

(** What a text includes, it still includes when it is a part of a longer
  text. *)
Lemma includes_mono (pre s post e : string) :
JsString.includes s e = true → JsString.includes (pre +:+ s +:+ post) e = true.
Proof.
unfold JsString.includes. intros (a & b & Hs)%includes_chars_spec.
rewrite !list_ascii_app, Hs.
replace (list_ascii_of_string pre ++ (a ++ list_ascii_of_string e ++ b)
         ++ list_ascii_of_string post)
  with ((list_ascii_of_string pre ++ a) ++ list_ascii_of_string e
        ++ (b ++ list_ascii_of_string post))
  by by rewrite <-!(assoc_L (++)).
apply includes_chars_intro.
Qed.

Lemma append_assoc (a b c : string) : (a +:+ b) +:+ c = a +:+ b +:+ c.
Proof.
induction a as [|x a IH]; [done|].
change (String x ((a +:+ b) +:+ c) = String x (a +:+ b +:+ c)). by f_equal.
Qed.

Lemma append_empty_r (a : string) : a +:+ "" = a.
Proof.
induction a as [|x a IH]; [done|].
change (String x (a +:+ "") = String x a). by f_equal.
Qed.

Lemma join_includes sep (l : list string) e :
e ∈ l → ∃ a b, Js.join sep l = a +:+ e +:+ b.
Proof.
induction l as [|x l IH]; [by intros ?%elem_of_nil|].
intros [->|Hin]%elem_of_cons.
- destruct l as [|y l]; simpl.
  + exists "", "". by rewrite append_empty_r.
  + by exists "", (sep +:+ Js.join sep (y :: l)).
- destruct (IH Hin) as (a & b & Hj). destruct l as [|y l]; [by apply elem_of_nil in Hin|].
  change (Js.join sep (x :: y :: l)) with (x +:+ sep +:+ Js.join sep (y :: l)).
  rewrite Hj. exists (x +:+ sep +:+ a), b. by rewrite !append_assoc.
Qed.

End Includes.

Section Gitignore.
Context `{Environment}.
Variable ws : path.

Local Abbreviation gi := (ws ++ [".gitignore"]).
Local Abbreviation missing_in current :=
(List.filter (λ e, negb (JsString.includes current e)) Git.gitignore_entries).
Local Abbreviation block current :=
(Js.nl +:+ "# zeroclaw" +:+ Js.nl +:+ Js.join Js.nl (missing_in current) +:+ Js.nl).

(** After the block has been appended every entry is in the text. *)
Lemma block_covers current e :
e ∈ Git.gitignore_entries → JsString.includes (current +:+ block current) e = true.
Proof.
intros He. destruct (JsString.includes current e) eqn:Hinc.
- rewrite <-(append_empty_r (current +:+ _)), append_assoc.
  change (current +:+ ?x +:+ "") with ("" +:+ current +:+ x +:+ "").
  by apply (includes_mono "" current).
- assert (e ∈ missing_in current) as Hm.
  { apply list_elem_of_In, filter_In. split; [by apply list_elem_of_In|by rewrite Hinc]. }
  destruct (join_includes Js.nl _ e Hm) as (a & b & Hj). rewrite Hj.
  replace (current +:+ Js.nl +:+ "# zeroclaw" +:+ Js.nl +:+ (a +:+ e +:+ b) +:+ Js.nl)
    with ((current +:+ Js.nl +:+ "# zeroclaw" +:+ Js.nl +:+ a) +:+ e +:+ (b +:+ Js.nl))
    by by rewrite !append_assoc.
  apply includes_intro.
Qed.

(** Nothing is missing from a text that holds every entry. *)
Lemma missing_nil text :
(∀ e, e ∈ Git.gitignore_entries → JsString.includes text e = true) →
missing_in text = [].
Proof.
intros Hall. induction Git.gitignore_entries as [|e l IH]; [done|].
simpl. rewrite Hall by by left. simpl. apply IH. intros e' He'. apply Hall. by right.
Qed.

Lemma missing_nil_covers text e :
missing_in text = [] → e ∈ Git.gitignore_entries → JsString.includes text e = true.
Proof.
intros Hnil He. destruct (JsString.includes text e) eqn:Hinc; [done|].
assert (e ∈ missing_in text) as Hm.
{ apply list_elem_of_In, filter_In. split; [by apply list_elem_of_In|by rewrite Hinc]. }
rewrite Hnil in Hm. by apply elem_of_nil in Hm.
Qed.

Lemma appendFile_Ok (p : path) data w w' :
appendFile p data w = (Ok tt, w') →
∃ text, w' = emit (EvWrite p text) (set_fs (<[p := File text]> (fs w)) w)
        ∧ fs_extra.is_dir (fs w) (fs_extra.parent p) = true
        ∧ match fs w !! p with
          | Some (File c) => text = c +:+ data
          | None => text = data
          | _ => False
          end.
Proof.
unfold appendFile. destruct (fs_extra.is_dir _ _); [|done].
destruct (fs w !! p) as [[|c|t]|]; try done; intros [= <-]; by eexists.
Qed.

(** The course of [_ensureGitignore]. *)
Lemma ensureGitignore_run w w1 :
Git._ensureGitignore ws w = (Ok tt, w1) →
∃ current,
  match fs w !! gi with
  | Some (File c) => current = c
  | None => current = ""
  | _ => False
  end
  ∧ ((missing_in current = [] ∧ w1 = w ∧ fs w !! gi = Some (File current))
     ∨ (missing_in current ≠ []
        ∧ fs_extra.is_dir (fs w) (fs_extra.parent gi) = true
        ∧ w1 = emit (EvWrite gi (current +:+ block current))
                 (set_fs (<[gi := File (current +:+ block current)]> (fs w)) w))).
Proof.
unfold Git._ensureGitignore.
unfold bind at 1, fs_extra.pathExists at 1. unfold path in *.
destruct (fs w !! (ws ++ [".gitignore"])) as [nd|] eqn:Hgi.
- rewrite bool_decide_eq_true_2 by eauto.
  unfold bind at 1, fs_extra.readFile at 1. cbv beta iota. unfold path in *. rewrite Hgi.
  destruct nd as [|c|t]; try done.
  destruct (decide (length (missing_in c) = 0)) as [Hz|Hnz].
  + intros [= <-]. exists c. split; [by unfold path in *; rewrite ?Hgi|]. left.
    split; [by apply nil_length_inv|done].
  + intros Happ. exists c. split; [by unfold path in *; rewrite ?Hgi|]. right.
    apply appendFile_Ok in Happ as (text & -> & Hd & Ht).
    unfold path in *. rewrite Hgi in Ht. subst text.
    split; [by intros Hnil; rewrite Hnil in Hnz|]. split; done.
- rewrite bool_decide_eq_false_2
    by (intros [x Hx]; unfold path in *; rewrite Hgi in Hx; done).
  unfold bind at 1, ret at 1. cbv beta iota.
  destruct (decide (length (missing_in "") = 0)) as [Hz|Hnz].
  + apply nil_length_inv in Hz. vm_compute in Hz. discriminate Hz.
  + intros Happ. exists "". split; [by unfold path in *; rewrite ?Hgi|]. right.
    apply appendFile_Ok in Happ as (text & -> & Hd & Ht).
    unfold path in *. rewrite Hgi in Ht. subst text.
    split; [by intros Hnil; rewrite Hnil in Hnz|]. split; done.
Qed.

End Gitignore.

Section GitignoreTheorems.
Context `{Environment}.
Variable ws : path.

Local Abbreviation gi := (ws ++ [".gitignore"]).

Lemma ensureGitignore_complete (w : World) text :
fs w !! gi = Some (File text) →
(∀ e, e ∈ Git.gitignore_entries → JsString.includes text e = true) →
Git._ensureGitignore ws w = (Ok tt, w).
Proof.
intros Hgi Hall. unfold Git._ensureGitignore.
unfold bind at 1, fs_extra.pathExists at 1.
rewrite bool_decide_eq_true_2 by (unfold path in *; rewrite Hgi; eauto).
unfold bind at 1, fs_extra.readFile at 1. cbv beta iota.
unfold path in *. rewrite Hgi. rewrite (missing_nil text Hall). done.
Qed.

Lemma ensureGitignore_post (w w1 : World) :
Git._ensureGitignore ws w = (Ok tt, w1) →
∃ text, fs w1 !! gi = Some (File text)
  ∧ (∀ e, e ∈ Git.gitignore_entries → JsString.includes text e = true)
  ∧ (∀ old, fs w !! gi = Some (File old) → ∃ more, text = old +:+ more)
  ∧ (∀ p, p ≠ gi → fs w1 !! p = fs w !! p).
Proof.
intros Hrun. apply ensureGitignore_run in Hrun as (current & Hcur & Hcases).
destruct Hcases as [(Hnil & -> & Hgi)|(Hne & Hd & ->)].
- exists current. split; [done|]. split; [|split; [|done]].
  + intros e He. by apply missing_nil_covers.
  + intros old Hold. unfold path in *. rewrite Hgi in Hold. injection Hold as <-.
    exists "". by rewrite append_empty_r.
- eexists. split; [simpl; apply lookup_insert_eq|]. split; [|split].
  + intros e He. by apply block_covers.
  + intros old Hold. unfold path in *. rewrite Hold in Hcur. subst current. by eexists.
  + intros p Hp. simpl. by rewrite lookup_insert_ne.
Qed.

End GitignoreTheorems.

(** Property X24.  When [_ensureGitignore] returns, .gitignore is a file whose text
    includes every one of the six entries; the text that was there before is
    kept as its beginning, and no other file is touched. *)
Theorem ensureGitignore_lists_every_entry (ws : path) (w w1 : World) :
  Git._ensureGitignore ws w = (Ok tt, w1) →
  ∃ text, fs w1 !! (ws ++ [".gitignore"]) = Some (File text)
    ∧ (∀ e, e ∈ Git.gitignore_entries → JsString.includes text e = true)
    ∧ (∀ old, fs w !! (ws ++ [".gitignore"]) = Some (File old) → ∃ more, text = old +:+ more)
    ∧ (∀ p, p ≠ ws ++ [".gitignore"] → fs w1 !! p = fs w !! p).
Proof. apply ensureGitignore_post. Qed.

(** An ignore file that lists the modules directory only. *)
Lemma ensureGitignore_lists_every_entry_witness :
  let w := test_world [(["w"], Dir); (["w"; ".gitignore"], File ("node_modules/" +:+ Js.nl))]
                      session0 in
  let w1 := (Git._ensureGitignore ["w"] w).2 in
  ∃ text, fs w1 !! (["w"] ++ [".gitignore"]) = Some (File text)
    ∧ (∀ e, e ∈ Git.gitignore_entries → JsString.includes text e = true)
    ∧ (∀ old, fs w !! (["w"] ++ [".gitignore"]) = Some (File old) → ∃ more, text = old +:+ more)
    ∧ (∀ p, p ≠ ["w"] ++ [".gitignore"] → fs w1 !! p = fs w !! p).
Proof.
  intros w w1. apply (ensureGitignore_lists_every_entry ["w"] w w1).
  vm_compute. reflexivity.
Defined.

(** Property X25.  [_ensureGitignore] is idempotent: after a successful call a second call
    returns without touching anything, the trace included. *)
Theorem ensureGitignore_idempotent (ws : path) (w w1 : World) :
  Git._ensureGitignore ws w = (Ok tt, w1) →
  Git._ensureGitignore ws w1 = (Ok tt, w1).
Proof.
  intros Hrun.
  destruct (ensureGitignore_post ws w w1 Hrun) as (text & Hgi & Hall & _).
  by apply (ensureGitignore_complete ws w1 text).
Qed.

(** A workspace without an ignore file. *)
Lemma ensureGitignore_idempotent_witness :
  let w1 := (Git._ensureGitignore ["w"] wA).2 in
  Git._ensureGitignore ["w"] w1 = (Ok tt, w1).
Proof.
  intros w1. apply (ensureGitignore_idempotent ["w"] wA w1). vm_compute. reflexivity.
Defined.

Section EnsureRepo.
Context `{Environment}.

Lemma to_appendFile p data : throws_only is_io_error (appendFile p data).
Proof.
intros w e w'. unfold appendFile.
destruct (fs_extra.is_dir _ _); [|intros [= <- _]; by eexists _, _].
destruct (fs w !! p) as [[| |]|]; try done.
all: intros [= <- _]; by eexists _, _.
Qed.

Lemma to_ensureGitignore ws : throws_only is_io_error (Git._ensureGitignore ws).
Proof.
unfold Git._ensureGitignore.
apply to_bind; [apply to_pathExists|]. intros e.
apply to_bind; [destruct e; [apply to_readFile|apply to_ret]|]. intros current.
destruct (decide _); [apply to_ret|apply to_appendFile].
Qed.

Lemma ensureRepo_course ws w r w1 :
Git.ensureRepo ws w = (r, w1) →
(∃ e, r = Throw e ∧ (is_io_error e ∨ is_exec_error e))
∨ ∃ w0, Git._ensureGitignore ws w0 = (r, w1).
Proof.
unfold Git.ensureRepo. unfold bind at 1.
destruct (try_catch _ _ w) as [[[]|e] w0] eqn:Htry.
- intros Hrun. right. by exists w0.
- intros [= <- <-]. left. exists e. split; [done|]. right.
  revert Htry. apply to_try. intros _.
  apply to_bind; [apply to_log_info|]. intros _.
  apply to_bind; [apply to_execa|]. intros _. apply to_execa.
Qed.

End EnsureRepo.

(** Property X26.  [ensureRepo] ends with the ignore file: when it returns, whatever git
    did to the workspace, .gitignore includes every one of the six entries.
    An exception that leaves it is the rejection of a git command of the
    initialisation or of a file operation on .gitignore. *)
Theorem ensureRepo_ends_with_the_ignore_file `{Environment} (ws : path)
    (w : World) (r : result unit) (w1 : World) :
  Git.ensureRepo ws w = (r, w1) →
  match r with
  | Ok _ => ∃ text, fs w1 !! (ws ++ [".gitignore"]) = Some (File text)
                    ∧ ∀ e, e ∈ Git.gitignore_entries → JsString.includes text e = true
  | Throw e => is_io_error e ∨ is_exec_error e
  end.
Proof.
  intros [(e & -> & He)|[w0 Hgi]]%ensureRepo_course; [done|].
  destruct r as [[]|e].
  - destruct (ensureGitignore_post ws w0 w1 Hgi) as (text & Hf & Hall & _). eauto.
  - left. by eapply to_ensureGitignore.
Qed.

(** A directory that is not yet a repository, with a git that works. *)
Lemma ensureRepo_ends_with_the_ignore_file_witness :
  let env := quiet_env (λ c, bool_decide (bin c = "git")
                             && negb (bool_decide (args c = ["rev-parse"; "--git-dir"])))
                       "2026-01-01T00:00:00.000Z" ["home"] in
  let w1 := (@Git.ensureRepo env ["w"] wA).2 in
  ∃ text, fs w1 !! (["w"] ++ [".gitignore"]) = Some (File text)
          ∧ ∀ e, e ∈ Git.gitignore_entries → JsString.includes text e = true.
Proof.
  intros env w1.
  apply (@ensureRepo_ends_with_the_ignore_file env ["w"] wA (Ok tt) w1).
  vm_compute. reflexivity.
Defined.

(** ** Intents *)

Section Keywords.

(** The character before a position: the last one of what was read, or the
  one before that. *)
Local Abbreviation before prev pre :=
(match last pre with Some c => Some c | None => prev end).

Lemma word_test_from_unfold alts prev s :
JsString.word_test_from alts prev s
= (JsString.word_boundary prev (head s)
   && existsb (λ a : string,
                 let a' := list_ascii_of_string a in
                 JsString.starts_with a' s
                 && JsString.word_boundary (before prev a')
                                           (head (drop (length a') s)))
              alts)
  || match s with
     | [] => false
     | c :: rest => JsString.word_test_from alts (Some c) rest
     end.
Proof. by destruct s. Qed.

Lemma before_cons (prev : option ascii) c pre :
before prev (c :: pre) = before (Some c) pre.
Proof. rewrite last_cons. by destruct (last pre). Qed.

(** An alternative that stands in the text between two word boundaries is
  found. *)
Lemma word_test_from_intro alts prev pre (a : string) post :
a ∈ alts →
JsString.word_boundary (before prev pre) (head (list_ascii_of_string a ++ post)) = true →
JsString.word_boundary (before (before prev pre) (list_ascii_of_string a)) (head post)
= true →
JsString.word_test_from alts prev (pre ++ list_ascii_of_string a ++ post) = true.
Proof.
intros Ha. revert prev. induction pre as [|c pre IH]; intros prev Hb1 Hb2.
- rewrite app_nil_l, word_test_from_unfold. simpl in Hb1, Hb2. rewrite Hb1.
  apply orb_true_intro. left. simpl. apply existsb_exists. exists a.
  split; [by apply list_elem_of_In|]. cbv zeta.
  rewrite starts_with_app, drop_app_length. simpl. exact Hb2.
- rewrite word_test_from_unfold. apply orb_true_intro. right. simpl.
  rewrite before_cons in Hb1, Hb2. by apply IH.
Qed.

Lemma exit_word_edges kw :
kw ∈ exit_words →
∃ c s d, list_ascii_of_string kw = c :: s ∧ last (c :: s) = Some d
         ∧ JsString.is_word_char c = true ∧ JsString.is_word_char d = true.
Proof.
unfold exit_words. intros Hin.
repeat (apply elem_of_cons in Hin as [->|Hin]; [by eexists _, _, _|]).
by apply elem_of_nil in Hin.
Qed.

Lemma classify_exit text pre kw post :
JsString.toLowerCase text = pre +:+ kw +:+ post →
kw ∈ exit_words →
from_option JsString.is_word_char false (last (list_ascii_of_string pre)) = false →
from_option JsString.is_word_char false (head (list_ascii_of_string post)) = false →
classifyIntent text = "exit".
Proof.
intros Ht Hkw Hpre Hpost. unfold classifyIntent. rewrite Ht.
unfold JsString.word_test. rewrite !list_ascii_app.
destruct (exit_word_edges kw Hkw) as (c & s & d & Hk & Hl & Hc & Hd).
rewrite word_test_from_intro; [done|done|..].
- rewrite Hk. simpl. unfold JsString.word_boundary.
  destruct (last (list_ascii_of_string pre)) as [x|]; simpl in *; by rewrite ?Hpre, Hc.
- rewrite Hk, Hl. unfold JsString.word_boundary. simpl. by rewrite Hd, Hpost.
Qed.

End Keywords.

(** Property X27.  Exit wins: a message whose lower-case form holds one of the exit words
    as a whole word (nothing, or a character that is not a letter, a digit
    or an underscore, on both sides) is classified as exit, whatever else it
    says. *)
Theorem exit_keyword_wins (text pre kw post : string) :
  JsString.toLowerCase text = pre +:+ kw +:+ post →
  kw ∈ exit_words →
  from_option JsString.is_word_char false (last (list_ascii_of_string pre)) = false →
  from_option JsString.is_word_char false (head (list_ascii_of_string post)) = false →
  classifyIntent text = "exit".
Proof. apply classify_exit. Qed.

(** A message that asks for work and mentions that something is done. *)
Lemma exit_keyword_wins_witness :
  classifyIntent "The login is DONE, now fix the tests" = "exit".
Proof.
  apply (exit_keyword_wins _ "the login is " "done" ", now fix the tests").
  - vm_compute. reflexivity.
  - vm_compute. set_solver.
  - vm_compute. reflexivity.
  - vm_compute. reflexivity.
Defined.

(** ** The conversation loop *)

Section Loop.
Context `{Environment}.

(** The loop over a text in two parts: the second part is read when the
  first one has neither ended the loop nor thrown. *)
Lemma loop_from_app (a b : list string) w :
Conversation.loop_from (a ++ b) w
= match Conversation.loop_from a w with
  | (Ok false, w') => Conversation.loop_from b w'
  | r => r
  end.
Proof.
revert w. induction a as [|x a IH]; intros w; [done|].
cbn [app Conversation.loop_from].
destruct (decide (Js.trim x = "")); [apply IH|].
destruct (decide (classifyIntent x = "exit")).
- unfold bind. by destruct (SessionM.dispatch _ _ w) as [[[]|err] w1].
- destruct (decide (classifyIntent x = "unknown")).
  + unfold bind, log.info. apply IH.
  + unfold bind. destruct (SessionM.dispatch _ _ w) as [[[]|err] w1]; [apply IH|done].
Qed.

Lemma loop_from_exit x rest w :
Js.trim x ≠ "" → classifyIntent x = "exit" →
Conversation.loop_from (x :: rest) w
= (Ok true, emit (EvLog LInfo "Wrapping up session...") w).
Proof.
intros Hx Hc. cbn [Conversation.loop_from].
rewrite decide_False by done. rewrite decide_True by done. done.
Qed.

Lemma loop_from_idle inputs w :
Forall (λ x, Js.trim x = "" ∨ classifyIntent x = "unknown") inputs →
∃ w', Conversation.loop_from inputs w = (Ok false, w')
      ∧ fs w' = fs w ∧ sess w' = sess w
      ∧ Forall (λ ev, ∃ msg, ev = EvLog LInfo msg) (drop (length (trace w)) (trace w'))
      ∧ take (length (trace w)) (trace w') = trace w.
Proof.
intros Hall. revert w. induction Hall as [|x inputs Hx _ IH]; intros w.
- exists w. split; [done|]. split; [done|]. split; [done|].
  rewrite drop_all, firstn_all. by split.
- cbn [Conversation.loop_from].
  destruct (decide (Js.trim x = "")) as [Hb|Hb]; [apply IH|].
  destruct Hx as [Hx|Hx]; [done|]. rewrite Hx.
  rewrite decide_False by done. rewrite decide_True by done.
  unfold bind, log.info.
  match goal with |- context [Conversation.loop_from inputs ?w1] =>
    destruct (IH w1) as (w' & Hrun & Hfs & Hs & Hlogs & Hpre) end.
  exists w'. split; [exact Hrun|]. split; [done|]. split; [done|].
  cbn [trace emit] in Hlogs, Hpre.
  rewrite length_app in Hlogs, Hpre. simpl in Hlogs, Hpre.
  assert (trace w' = (trace w ++ [EvLog LInfo
            ("Not sure what you want. Be more specific:" +:+ Js.nl
             +:+ "  " +:+ Js.dq +:+ "new project — <description>" +:+ Js.dq +:+ Js.nl
             +:+ "  " +:+ Js.dq +:+ "new task: <what to build>" +:+ Js.dq +:+ Js.nl
             +:+ "  " +:+ Js.dq +:+ "continue" +:+ Js.dq +:+ Js.nl
             +:+ "  " +:+ Js.dq +:+ "exit" +:+ Js.dq)])
          ++ drop (length (trace w) + 1) (trace w')) as Htr.
  { rewrite <-Hpre at 1. by rewrite take_drop. }
  rewrite Htr. rewrite <-(assoc_L (++)). split.
  + rewrite drop_app_length. apply Forall_cons. split; [by eexists|exact Hlogs].
  + by rewrite take_app_length.
Qed.

End Loop.

Section LoopFromTheStart.
Context `{Environment}.

Lemma loop_unfold inputs w :
∃ banner, Conversation.loop inputs w
          = Conversation.loop_from inputs (emit (EvLog LInfo banner) w).
Proof. by eexists. Qed.

Lemma loop_exit pre x post w :
Js.trim x ≠ "" → classifyIntent x = "exit" →
Conversation.loop (pre ++ x :: post) w = Conversation.loop (pre ++ [x]) w
∧ ∀ w', Conversation.loop pre w = (Ok false, w') →
        Conversation.loop (pre ++ x :: post) w
        = (Ok true, emit (EvLog LInfo "Wrapping up session...") w').
Proof.
intros Hx Hc. unfold Conversation.loop, bind, log.info. rewrite !loop_from_app. split.
- destruct (Conversation.loop_from pre _) as [[[]|e] w']; try done.
  by rewrite !loop_from_exit.
- intros w' ->. by apply loop_from_exit.
Qed.

Lemma loop_idle inputs w :
Forall (λ x, Js.trim x = "" ∨ classifyIntent x = "unknown") inputs →
∃ w', Conversation.loop inputs w = (Ok false, w')
      ∧ fs w' = fs w ∧ sess w' = sess w
      ∧ Forall (λ ev, ∃ msg, ev = EvLog LInfo msg) (drop (length (trace w)) (trace w'))
      ∧ take (length (trace w)) (trace w') = trace w.
Proof.
intros Hall. destruct (loop_unfold inputs w) as [banner ->].
destruct (loop_from_idle inputs (emit (EvLog LInfo banner) w) Hall)
  as (w' & Hrun & Hfs & Hs & Hlogs & Hpre).
exists w'. split; [exact Hrun|]. split; [done|]. split; [done|].
cbn [trace emit] in Hlogs, Hpre. rewrite length_app in Hlogs, Hpre. simpl in Hlogs, Hpre.
assert (trace w' = (trace w ++ [EvLog LInfo banner])
                   ++ drop (length (trace w) + 1) (trace w')) as Htr.
{ rewrite <-Hpre at 1. by rewrite take_drop. }
rewrite Htr. rewrite <-(assoc_L (++)). split.
- rewrite drop_app_length. apply Forall_cons. split; [by eexists|exact Hlogs].
- by rewrite take_app_length.
Qed.

End LoopFromTheStart.

(** Property X28.  The loop ends at the first exit: once a line that is not blank is
    classified as exit, the lines after it are never read.  When the lines
    before it have been worked off without an exception, the loop ends
    there, and the exit itself only writes to the log. *)
Theorem loop_ends_at_exit `{Environment} (pre : list string) (x : string)
    (post : list string) (w : World) :
  Js.trim x ≠ "" → classifyIntent x = "exit" →
  Conversation.loop (pre ++ x :: post) w = Conversation.loop (pre ++ [x]) w
  ∧ ∀ w', Conversation.loop pre w = (Ok false, w') →
          Conversation.loop (pre ++ x :: post) w
          = (Ok true, emit (EvLog LInfo "Wrapping up session...") w').
Proof. apply loop_exit. Qed.

(** Lines typed after quit are not read. *)
Lemma loop_ends_at_exit_witness :
  @Conversation.loop no_agents ["hello"; " "; "quit"; "new project: a todo app"]
    (test_world (scaffold []) session0)
  = @Conversation.loop no_agents (["hello"; " "] ++ ["quit"])
      (test_world (scaffold []) session0).
Proof.
  apply (proj1 (@loop_ends_at_exit no_agents ["hello"; " "] "quit"
                  ["new project: a todo app"] (test_world (scaffold []) session0)
                  ltac:(vm_compute; discriminate) ltac:(vm_compute; reflexivity))).
Defined.

(** Property X29.  Lines that are blank or that no keyword classifies start nothing: the
    loop keeps waiting, the files and the session are as before, and all
    that happened is informational log lines. *)
Theorem loop_idles_on_unclassified_lines `{Environment} (inputs : list string)
    (w : World) :
  Forall (λ x, Js.trim x = "" ∨ classifyIntent x = "unknown") inputs →
  ∃ w', Conversation.loop inputs w = (Ok false, w')
        ∧ fs w' = fs w ∧ sess w' = sess w
        ∧ Forall (λ ev, ∃ msg, ev = EvLog LInfo msg) (drop (length (trace w)) (trace w'))
        ∧ take (length (trace w)) (trace w') = trace w.
Proof. apply loop_idle. Qed.

(** A greeting and a blank line. *)
Lemma loop_idles_on_unclassified_lines_witness :
  ∃ w', @Conversation.loop no_agents ["hello there"; "   "] wA = (Ok false, w')
        ∧ fs w' = fs wA ∧ sess w' = sess wA
        ∧ Forall (λ ev, ∃ msg, ev = EvLog LInfo msg) (drop (length (trace wA)) (trace w'))
        ∧ take (length (trace wA)) (trace w') = trace wA.
Proof.
  apply (@loop_idles_on_unclassified_lines no_agents ["hello there"; "   "] wA).
  apply Forall_cons. split; [right; vm_compute; reflexivity|].
  apply Forall_cons. split; [left; vm_compute; reflexivity|].
  apply Forall_nil_2.
Defined.

(** ** The command line of gemini *)


(** Property X30.  What gemini is started with: when tmux works and the brief can be
    written, the launch of gemini succeeds, and the command typed into its
    window, after the bootstrap, is gemini with the title line of the prompt
    as its only argument; the tasks are in the brief on disk, not on the
    command line. *)
Theorem gemini_is_started_with_the_title `{Environment} (ws : path)
    (tasks : list string) (plan : Plan) (idx : nat) (w : World) :
  tmux_works → brief_writable ws "gemini" w →
  ∃ w' bootstrap,
    Distributor._launchAgentPane ws "zeroclaw" "gemini"
      (Distributor._buildAgentPrompt ws "gemini" tasks plan) idx w = (Ok tt, w')
    ∧ Distributor._superpowersBootstrap "gemini" = Ok bootstrap
    ∧ EvExec (send_keys "gemini"
                (bootstrap +:+ " && " +:+ "gemini " +:+ Js.dq
                 +:+ "# Zeroclaw Task Assignment — gemini" +:+ Js.dq)) true ∈ trace w'.
Proof.
  intros Htmux [Hdir Hfile].
  unfold Distributor._launchAgentPane, Distributor._superpowersBootstrap.
  change (JsObject.get "gemini" AGENTS) with (Some (MkAgent "gemini" [".gemini"] [])).
  cbv iota. rewrite gemini_first_line.
  unfold bind at 1.
  rewrite writeFile_ok; [|by rewrite parent_brief, (is_dir_lookup _ _ Hdir)|done].
  unfold lift. unfold bind at 1. unfold bind at 1. rewrite (execa_tmux Htmux) by done.
  unfold bind at 1. rewrite (execa_tmux Htmux) by done.
  unfold bind at 1. rewrite (execa_tmux Htmux) by done.
  unfold log.info. eexists _, _. split; [reflexivity|]. split; [reflexivity|].
  cbn. rewrite !elem_of_app. left. right. by left.
Qed.

(** Two tasks for gemini. *)
Lemma gemini_is_started_with_the_title_witness :
  ∃ w' bootstrap,
    @Distributor._launchAgentPane two_agents ["w"] "zeroclaw" "gemini"
      (Distributor._buildAgentPrompt ["w"] "gemini" ["build login"; "write tests"] two_tasks)
      0 (test_world (scaffold []) session0) = (Ok tt, w')
    ∧ @Distributor._superpowersBootstrap two_agents "gemini" = Ok bootstrap
    ∧ EvExec (send_keys "gemini"
                (bootstrap +:+ " && " +:+ "gemini " +:+ Js.dq
                 +:+ "# Zeroclaw Task Assignment — gemini" +:+ Js.dq)) true ∈ trace w'.
Proof.
  apply (@gemini_is_started_with_the_title two_agents ["w"]
           ["build login"; "write tests"] two_tasks 0 (test_world (scaffold []) session0)).
  - exact two_agents_tmux_works.
  - split; vm_compute; [reflexivity|exact I].
Defined.
